(** * A shallow embedding of the calculation notebook of [notebook/document.py]

    The evaluation core of the notebook ([SymbolRegistry],
    [EvaluationContext], [FormulaBlock.evaluate] and its helpers,
    [Document.evaluate] and the snapshot-based undo/redo history) is modelled
    over a small expression language:

    - Python's [ast.parse] / [eval] and SymPy's [parse_expr] all read the
      same expression grammar here ([tokenize], [parse_expression]); text
      outside that grammar is a [SyntaxError], as Python reports it.
    - numbers are exact rationals ([Q]); Python's [eval] and SymPy's
      automatic evaluation are modelled on them ([py_eval], the smart
      constructors [s_add], [s_div], ...).
    - whenever the code would leave the modelled fragment (transcendental
      functions, non-integral powers, SymPy's own global names, ...) the model
      raises [Unmodelled]: no theorem below depends on that fragment. *)

From Stdlib Require Import String Ascii List Bool ZArith QArith Qabs Lia Permutation.
Set Warnings "-register-all".
Import ListNotations.
Open Scope nat_scope.
Open Scope string_scope.
Open Scope list_scope.

(** ** Text helpers (Python [str] methods) *)

Definition chars (s : string) : list ascii := list_ascii_of_string s.
Definition of_chars (l : list ascii) : string := string_of_list_ascii l.

Definition ascii_in (c : ascii) (l : list ascii) : bool :=
  existsb (Ascii.eqb c) l.

(** [str.isspace()]: the characters removed by [str.strip()] and matched by
    [\s] in a [str] pattern.  A character of the model is a code point below
    256: tab, line feed, vertical tab, form feed, carriage return, the
    separators [\x1c]-[\x1f], space, [\x85] and the no-break space [\xa0]. *)
Definition is_space (c : ascii) : bool :=
  ascii_in c ["009"%char; "010"%char; "011"%char; "012"%char; "013"%char;
              "028"%char; "029"%char; "030"%char; "031"%char; " "%char;
              "133"%char; "160"%char].

Definition is_digit (c : ascii) : bool :=
  let n := nat_of_ascii c in Nat.leb 48 n && Nat.leb n 57.

Definition is_alpha (c : ascii) : bool :=
  let n := nat_of_ascii c in (Nat.leb 65 n && Nat.leb n 90) || (Nat.leb 97 n && Nat.leb n 122).

Definition is_ident_start (c : ascii) : bool := is_alpha c || Ascii.eqb c "_".
Definition is_ident_char (c : ascii) : bool := is_ident_start c || is_digit c.

Fixpoint drop_spaces (l : list ascii) : list ascii :=
  match l with
  | c :: l' => if is_space c then drop_spaces l' else l
  | [] => []
  end.

(** [str.strip()] *)
Definition strip (s : string) : string :=
  of_chars (rev (drop_spaces (rev (drop_spaces (chars s))))).

(** [re.search(r"[A-Za-z]", s)] *)
Definition has_letter (s : string) : bool := existsb is_alpha (chars s).

(** [FormulaBlock._normalize_expression]: a [*] is inserted wherever a digit
    is directly followed by a letter or [(], then [")("] becomes [")*("]. *)
Fixpoint insert_implicit_mul (l : list ascii) : list ascii :=
  match l with
  | c :: ((d :: _) as l') =>
      if is_digit c && (is_alpha d || Ascii.eqb d "(")
      then c :: "*"%char :: insert_implicit_mul l'
      else c :: insert_implicit_mul l'
  | _ => l
  end.

Fixpoint join_parens (l : list ascii) : list ascii :=
  match l with
  | ")"%char :: (("("%char :: _) as l') => ")"%char :: "*"%char :: join_parens l'
  | c :: l' => c :: join_parens l'
  | [] => []
  end.

Definition normalize_expression (s : string) : string :=
  of_chars (join_parens (insert_implicit_mul (chars s))).

(** [.replace("^", "**")] *)
Fixpoint caret_to_pow (l : list ascii) : list ascii :=
  match l with
  | "^"%char :: l' => "*"%char :: "*"%char :: caret_to_pow l'
  | c :: l' => c :: caret_to_pow l'
  | [] => []
  end.

(** [re.search(r"(?<![<>=!])=(?![=])", raw)]: the index of the first [=]
    that is neither preceded by one of [<>=!] nor followed by [=]. *)
Fixpoint find_assign_from (prev : option ascii) (i : nat) (l : list ascii) : option nat :=
  match l with
  | [] => None
  | c :: l' =>
      let next_eq := match l' with d :: _ => Ascii.eqb d "=" | [] => false end in
      let prev_bad := match prev with
                      | Some p => ascii_in p ["<"%char; ">"%char; "="%char; "!"%char]
                      | None => false end in
      if Ascii.eqb c "=" && negb prev_bad && negb next_eq then Some i
      else find_assign_from (Some c) (S i) l'
  end.

Definition find_assign (s : string) : option nat := find_assign_from None 0 (chars s).

(** ** Python expression syntax (the [ast] nodes the code inspects) *)

Inductive binop := Add | Sub | Mult | Div | Pow | BitXor.
Inductive unop := UAdd | USub | UNot.
Inductive boolop := BAnd | BOr.
Inductive cmpop := Gt | GtE | Lt | LtE | Eq | NotEq.

Inductive expr :=
| ENum (q : Q)
| EName (s : string)
| EConst (b : bool)
| EBinOp (o : binop) (a b : expr)
| EUnaryOp (o : unop) (a : expr)
| EBoolOp (o : boolop) (l : list expr)
| ECompare (left : expr) (rest : list (cmpop * expr))
| ECall (f : expr) (args : list expr)
| EList (l : list expr)
| EIfExp (test body orelse : expr).

(** The nodes [_parse_conditional_expr] walks: [ast.IfExp] and
    [ast.Compare] nodes with their children, and any other node as its
    source segment ([ast.get_source_segment]), which [_convert_expr] hands
    back to [_safe_sympify]. *)
Inductive cnode :=
| CIf (test body orelse : cnode)
| CCmp (left : cnode) (rest : list (cmpop * cnode))
| CSeg (src : string).

(** Statements of [ast.parse]: an expression statement, or an [if]
    statement with its [elif]/[else] chain in [orelse]. *)
Inductive stmt :=
| SExpr (e : cnode)
| SIf (test : cnode) (body : list stmt) (orelse : list stmt).

(** ** Tokenizer (Python's, on the characters the grammar below uses) *)

Definition obind {A B} (m : option A) (k : A -> option B) : option B :=
  match m with Some a => k a | None => None end.

Notation "' p <-? m ;; k" := (obind m (fun x => match x with p => k end))
  (at level 61, p pattern, m at next level, right associativity).

(** Tokens; [TNewline], [TIndent] and [TDedent] are Python's [NEWLINE],
    [INDENT] and [DEDENT]. *)
Inductive token :=
| TNum (q : Q)
| TName (s : string)
| TOp (s : string)
| TNewline
| TIndent
| TDedent.

(** A token with the offsets of its first character and of the character
    after it in the text. *)
Record ptoken := PTok { ptok : token; pstart : nat; pend : nat }.

Fixpoint span (p : ascii -> bool) (l : list ascii) : list ascii * list ascii :=
  match l with
  | c :: l' => if p c then let (a, b) := span p l' in (c :: a, b) else ([], l)
  | [] => ([], [])
  end.

Definition digit_val (c : ascii) : Z := Z.of_nat (nat_of_ascii c - 48).

Definition digits_Z (l : list ascii) : Z :=
  fold_left (fun acc c => 10 * acc + digit_val c)%Z l 0%Z.

(** The exponent [e], [E], an optional sign and digits, with the number of
    characters it takes. *)
Definition exponent_part (l : list ascii) : option (Z * nat) :=
  match l with
  | e :: r =>
      if Ascii.eqb e "e" || Ascii.eqb e "E" then
        let '(sign, r', k) := match r with
                              | "+"%char :: r' => (1%Z, r', 2)
                              | "-"%char :: r' => ((-1)%Z, r', 2)
                              | _ => (1%Z, r, 1)
                              end in
        let (ds, _) := span is_digit r' in
        match ds with
        | [] => None
        | _ => Some ((sign * digits_Z ds)%Z, k + List.length ds)
        end
      else None
  | [] => None
  end.

(** A decimal literal ([12], [1.5], [1.], [.5], each with an optional
    exponent) at the head of [l]: its value and its length. *)
Definition number_literal (l : list ascii) : option (Q * nat) :=
  let (ds, r) := span is_digit l in
  let '(fs, r1, dot) := match r with
                        | "."%char :: r' => let (fs, r'') := span is_digit r' in (fs, r'', 1)
                        | _ => ([], r, 0)
                        end in
  match ds ++ fs with
  | [] => None
  | m =>
      let '(e, ke) := match exponent_part r1 with Some p => p | None => (0%Z, 0) end in
      let scale := (e - Z.of_nat (List.length fs))%Z in
      let q := if Z.leb 0 scale then inject_Z (digits_Z m * 10 ^ scale)
               else Qmake (digits_Z m) (Z.to_pos (10 ^ (- scale))) in
      Some (q, List.length ds + dot + List.length fs + ke)
  end.

Definition two_char_ops := ["**"; "<="; ">="; "=="; "!="].
Definition one_char_ops :=
  ["+"; "-"; "*"; "/"; "^"; "("; ")"; ","; "<"; ">"; "["; "]"; "="; ":"; ";"].

(** Blanks between tokens: space, tab and form feed. *)
Definition is_blank_char (c : ascii) : bool := ascii_in c [" "%char; "009"%char; "012"%char].

(** The tokens of one physical line from offset [i], inside [depth] open
    brackets; a [#] starts a comment that runs to the end of the line.
    Returns the tokens and the bracket depth at the end of the line. *)
Fixpoint tok_line (fuel : nat) (i : nat) (l : list ascii) (depth : nat)
  : option (list ptoken * nat) :=
  match fuel with
  | O => None
  | S f =>
    match l with
    | [] => Some ([], depth)
    | c :: l' =>
      if is_blank_char c then tok_line f (S i) l' depth
      else if Ascii.eqb c "#" then Some ([], depth)
      else if is_digit c || (Ascii.eqb c "." &&
                             match l' with d :: _ => is_digit d | [] => false end) then
        '(q, k) <-? number_literal l ;;
        '(ts, d) <-? tok_line f (i + k) (skipn k l) depth ;;
        Some (PTok (TNum q) i (i + k) :: ts, d)
      else if is_ident_start c then
        let (w, r) := span is_ident_char l in
        let k := List.length w in
        '(ts, d) <-? tok_line f (i + k) r depth ;;
        Some (PTok (TName (of_chars w)) i (i + k) :: ts, d)
      else
        let two := match l' with d :: _ => of_chars [c; d] | [] => "" end in
        if existsb (String.eqb two) two_char_ops then
          '(ts, d) <-? tok_line f (i + 2) (tl l') depth ;;
          Some (PTok (TOp two) i (i + 2) :: ts, d)
        else
          let one := String c EmptyString in
          if existsb (String.eqb one) one_char_ops then
            '(depth') <-? (if String.eqb one "(" || String.eqb one "[" then Some (S depth)
                           else if String.eqb one ")" || String.eqb one "]" then
                             match depth with O => None | S d => Some d end
                           else Some depth) ;;
            '(ts, d) <-? tok_line f (S i) l' depth' ;;
            Some (PTok (TOp one) i (S i) :: ts, d)
          else None
    end
  end.

(** The physical lines of a text, each with the offset of its first
    character; a line ends at [\r\n], [\r] or [\n]. *)
Fixpoint phys_lines (start i : nat) (acc : list ascii) (l : list ascii)
  : list (nat * list ascii) :=
  match l with
  | [] => [(start, rev acc)]
  | c :: l' =>
      if Ascii.eqb c "013" then
        match l' with
        | d :: l'' =>
            if Ascii.eqb d "010" then (start, rev acc) :: phys_lines (S (S i)) (S (S i)) [] l''
            else (start, rev acc) :: phys_lines (S i) (S i) [] l'
        | [] => [(start, rev acc); (S i, [])]
        end
      else if Ascii.eqb c "010" then (start, rev acc) :: phys_lines (S i) (S i) [] l'
      else phys_lines start (S i) (c :: acc) l'
  end.

(** The indentation of a line: its column with tabs to multiples of 8, its
    column with tabs of width 1 (Python compares both), and its length. *)
Fixpoint indentation (col alt k : nat) (l : list ascii) : nat * nat * nat :=
  match l with
  | c :: l' =>
      if Ascii.eqb c " " then indentation (S col) (S alt) (S k) l'
      else if Ascii.eqb c "009" then indentation ((col / 8 + 1) * 8) (S alt) (S k) l'
      else if Ascii.eqb c "012" then indentation 0 0 (S k) l'
      else (col, alt, k)
  | [] => (col, alt, k)
  end.

(** The levels popped by a dedent to column [col]; [None] when [col] is no
    enclosing level, or the tab-width-1 columns disagree. *)
Fixpoint dedent (col alt : nat) (stack : list (nat * nat)) : option (nat * list (nat * nat)) :=
  match stack with
  | (c, a) :: rest =>
      if Nat.ltb col c then '(k, st) <-? dedent col alt rest ;; Some (S k, st)
      else if Nat.eqb col c && Nat.eqb alt a then Some (0, stack)
      else None
  | [] => None
  end.

(** [INDENT] or [DEDENT] tokens at the start of a logical line. *)
Definition indent_tokens (i col alt : nat) (stack : list (nat * nat))
  : option (list ptoken * list (nat * nat)) :=
  match stack with
  | (c, a) :: _ =>
      if Nat.eqb col c then if Nat.eqb alt a then Some ([], stack) else None
      else if Nat.ltb c col then
        if Nat.leb alt a then None else Some ([PTok TIndent i i], (col, alt) :: stack)
      else '(k, st) <-? dedent col alt stack ;; Some (repeat (PTok TDedent i i) k, st)
  | [] => None
  end.

(** A line with nothing but blanks and a comment. *)
Definition is_blank_line (l : list ascii) : bool :=
  match l with [] => true | c :: _ => Ascii.eqb c "#" end.

Definition newline_if (depth i : nat) : list ptoken :=
  if Nat.eqb depth 0 then [PTok TNewline i i] else [].

(** Python's tokenizer over the physical lines: indentation is read at the
    start of each logical line outside brackets, blank lines are skipped, a
    logical line ends with [NEWLINE], the text with the pending [DEDENT]s;
    an open bracket at the end is an error. *)
Fixpoint tok_lines (ls : list (nat * list ascii)) (depth : nat) (stack : list (nat * nat))
  : option (list ptoken) :=
  match ls with
  | [] => if Nat.eqb depth 0 then Some (repeat (PTok TDedent 0 0) (List.length stack - 1))
          else None
  | (i, line) :: rest =>
      if Nat.eqb depth 0 then
        let '(col, alt, k) := indentation 0 0 0 line in
        let body := skipn k line in
        if is_blank_line body then tok_lines rest 0 stack
        else
          '(pre, stack') <-? indent_tokens (i + k) col alt stack ;;
          '(ts, d) <-? tok_line (S (List.length body)) (i + k) body 0 ;;
          '(more) <-? tok_lines rest d stack' ;;
          Some (pre ++ ts ++ newline_if d (i + List.length line) ++ more)
      else
        '(ts, d) <-? tok_line (S (List.length line)) i line depth ;;
        '(more) <-? tok_lines rest d stack ;;
        Some (ts ++ newline_if d (i + List.length line) ++ more)
  end.

Definition tokenize (s : string) : option (list ptoken) :=
  tok_lines (phys_lines 0 0 [] (chars s)) 0 [(0, 0)].

(** ** Parser (the expression grammar of Python, on the tokens above) *)

Definition keywords :=
  ["and"; "or"; "not"; "if"; "else"; "elif"; "True"; "False"; "None"; "for"; "in";
   "is"; "lambda"; "def"; "return"; "import"; "from"; "while"; "class"; "pass";
   "with"; "as"; "yield"; "del"; "global"; "try"; "except"; "raise"; "assert";
   "async"; "await"; "break"; "continue"; "finally"; "nonlocal"].

Definition is_keyword (s : string) : bool := existsb (String.eqb s) keywords.

Definition cmpop_of (s : string) : option cmpop :=
  if String.eqb s ">" then Some Gt else if String.eqb s ">=" then Some GtE
  else if String.eqb s "<" then Some Lt else if String.eqb s "<=" then Some LtE
  else if String.eqb s "==" then Some Eq else if String.eqb s "!=" then Some NotEq
  else None.

Definition is_op (s : string) (t : ptoken) : bool :=
  match ptok t with TOp s' => String.eqb s s' | _ => false end.
Definition is_kw (s : string) (t : ptoken) : bool :=
  match ptok t with TName s' => String.eqb s s' | _ => false end.
Definition is_newline (t : ptoken) : bool :=
  match ptok t with TNewline => true | _ => false end.

Fixpoint p_test (n : nat) (ts : list ptoken) : option (expr * list ptoken) :=
  match n with O => None | S n' =>
    '(c, ts1) <-? p_or n' ts ;;
    match ts1 with
    | t :: ts2 =>
        if is_kw "if" t then
          '(cond, ts3) <-? p_or n' ts2 ;;
          match ts3 with
          | t' :: ts4 =>
              if is_kw "else" t' then
                '(e, ts5) <-? p_test n' ts4 ;; Some (EIfExp cond c e, ts5)
              else None
          | [] => None
          end
        else Some (c, ts1)
    | [] => Some (c, ts1)
    end
  end
with p_or (n : nat) (ts : list ptoken) : option (expr * list ptoken) :=
  match n with O => None | S n' =>
    '(a, ts1) <-? p_and n' ts ;;
    '(l, ts2) <-? p_or_rest n' ts1 ;;
    match l with [] => Some (a, ts2) | _ => Some (EBoolOp BOr (a :: l), ts2) end
  end
with p_or_rest (n : nat) (ts : list ptoken) : option (list expr * list ptoken) :=
  match n with O => None | S n' =>
    match ts with
    | t :: ts1 =>
        if is_kw "or" t then
          '(a, ts2) <-? p_and n' ts1 ;;
          '(l, ts3) <-? p_or_rest n' ts2 ;; Some (a :: l, ts3)
        else Some ([], ts)
    | [] => Some ([], ts)
    end
  end
with p_and (n : nat) (ts : list ptoken) : option (expr * list ptoken) :=
  match n with O => None | S n' =>
    '(a, ts1) <-? p_not n' ts ;;
    '(l, ts2) <-? p_and_rest n' ts1 ;;
    match l with [] => Some (a, ts2) | _ => Some (EBoolOp BAnd (a :: l), ts2) end
  end
with p_and_rest (n : nat) (ts : list ptoken) : option (list expr * list ptoken) :=
  match n with O => None | S n' =>
    match ts with
    | t :: ts1 =>
        if is_kw "and" t then
          '(a, ts2) <-? p_not n' ts1 ;;
          '(l, ts3) <-? p_and_rest n' ts2 ;; Some (a :: l, ts3)
        else Some ([], ts)
    | [] => Some ([], ts)
    end
  end
with p_not (n : nat) (ts : list ptoken) : option (expr * list ptoken) :=
  match n with O => None | S n' =>
    match ts with
    | t :: ts1 =>
        if is_kw "not" t then
          '(a, ts2) <-? p_not n' ts1 ;; Some (EUnaryOp UNot a, ts2)
        else p_cmp n' ts
    | [] => None
    end
  end
with p_cmp (n : nat) (ts : list ptoken) : option (expr * list ptoken) :=
  match n with O => None | S n' =>
    '(a, ts1) <-? p_xor n' ts ;;
    '(l, ts2) <-? p_cmp_rest n' ts1 ;;
    match l with [] => Some (a, ts2) | _ => Some (ECompare a l, ts2) end
  end
with p_cmp_rest (n : nat) (ts : list ptoken) : option (list (cmpop * expr) * list ptoken) :=
  match n with O => None | S n' =>
    match ts with
    | t :: ts1 =>
        match ptok t with
        | TOp s =>
            match cmpop_of s with
            | Some o =>
                '(a, ts2) <-? p_xor n' ts1 ;;
                '(l, ts3) <-? p_cmp_rest n' ts2 ;; Some ((o, a) :: l, ts3)
            | None => Some ([], ts)
            end
        | _ => Some ([], ts)
        end
    | [] => Some ([], ts)
    end
  end
(** [a ^ b] (bitwise exclusive or), between comparisons and sums *)
with p_xor (n : nat) (ts : list ptoken) : option (expr * list ptoken) :=
  match n with O => None | S n' =>
    '(a, ts1) <-? p_arith n' ts ;; p_xor_rest n' a ts1
  end
with p_xor_rest (n : nat) (acc : expr) (ts : list ptoken) : option (expr * list ptoken) :=
  match n with O => None | S n' =>
    match ts with
    | t :: ts1 =>
        if is_op "^" t then '(b, ts2) <-? p_arith n' ts1 ;; p_xor_rest n' (EBinOp BitXor acc b) ts2
        else Some (acc, ts)
    | [] => Some (acc, ts)
    end
  end
with p_arith (n : nat) (ts : list ptoken) : option (expr * list ptoken) :=
  match n with O => None | S n' =>
    '(a, ts1) <-? p_term n' ts ;; p_arith_rest n' a ts1
  end
with p_arith_rest (n : nat) (acc : expr) (ts : list ptoken) : option (expr * list ptoken) :=
  match n with O => None | S n' =>
    match ts with
    | t :: ts1 =>
        if is_op "+" t then '(b, ts2) <-? p_term n' ts1 ;; p_arith_rest n' (EBinOp Add acc b) ts2
        else if is_op "-" t then '(b, ts2) <-? p_term n' ts1 ;; p_arith_rest n' (EBinOp Sub acc b) ts2
        else Some (acc, ts)
    | [] => Some (acc, ts)
    end
  end
with p_term (n : nat) (ts : list ptoken) : option (expr * list ptoken) :=
  match n with O => None | S n' =>
    '(a, ts1) <-? p_factor n' ts ;; p_term_rest n' a ts1
  end
with p_term_rest (n : nat) (acc : expr) (ts : list ptoken) : option (expr * list ptoken) :=
  match n with O => None | S n' =>
    match ts with
    | t :: ts1 =>
        if is_op "*" t then '(b, ts2) <-? p_factor n' ts1 ;; p_term_rest n' (EBinOp Mult acc b) ts2
        else if is_op "/" t then '(b, ts2) <-? p_factor n' ts1 ;; p_term_rest n' (EBinOp Div acc b) ts2
        else Some (acc, ts)
    | [] => Some (acc, ts)
    end
  end
with p_factor (n : nat) (ts : list ptoken) : option (expr * list ptoken) :=
  match n with O => None | S n' =>
    match ts with
    | t :: ts1 =>
        if is_op "-" t then '(a, ts2) <-? p_factor n' ts1 ;; Some (EUnaryOp USub a, ts2)
        else if is_op "+" t then '(a, ts2) <-? p_factor n' ts1 ;; Some (EUnaryOp UAdd a, ts2)
        else p_power n' ts
    | [] => None
    end
  end
with p_power (n : nat) (ts : list ptoken) : option (expr * list ptoken) :=
  match n with O => None | S n' =>
    '(a, ts1) <-? p_primary n' ts ;;
    match ts1 with
    | t :: ts2 =>
        if is_op "**" t then '(b, ts3) <-? p_factor n' ts2 ;; Some (EBinOp Pow a b, ts3)
        else Some (a, ts1)
    | [] => Some (a, ts1)
    end
  end
with p_primary (n : nat) (ts : list ptoken) : option (expr * list ptoken) :=
  match n with O => None | S n' =>
    '(a, ts1) <-? p_atom n' ts ;; p_trailers n' a ts1
  end
with p_trailers (n : nat) (acc : expr) (ts : list ptoken) : option (expr * list ptoken) :=
  match n with O => None | S n' =>
    match ts with
    | t :: ts1 =>
        if is_op "(" t then
          match ts1 with
          | t' :: ts2 =>
              if is_op ")" t' then p_trailers n' (ECall acc []) ts2
              else '(args, ts3) <-? p_seq n' ")" ts1 ;; p_trailers n' (ECall acc args) ts3
          | [] => None
          end
        else Some (acc, ts)
    | [] => Some (acc, ts)
    end
  end
(** [test (',' test)*] followed by the closing token [close] *)
with p_seq (n : nat) (close : string) (ts : list ptoken) : option (list expr * list ptoken) :=
  match n with O => None | S n' =>
    '(a, ts1) <-? p_test n' ts ;;
    match ts1 with
    | t :: ts2 =>
        if is_op "," t then '(l, ts3) <-? p_seq n' close ts2 ;; Some (a :: l, ts3)
        else if is_op close t then Some ([a], ts2)
        else None
    | [] => None
    end
  end
with p_atom (n : nat) (ts : list ptoken) : option (expr * list ptoken) :=
  match n with O => None | S n' =>
    match ts with
    | t :: ts1 =>
        match ptok t with
        | TNum q => Some (ENum q, ts1)
        | TName s =>
            if String.eqb s "True" then Some (EConst true, ts1)
            else if String.eqb s "False" then Some (EConst false, ts1)
            else if is_keyword s then None
            else Some (EName s, ts1)
        | TOp s =>
            if String.eqb s "(" then
              '(a, ts2) <-? p_test n' ts1 ;;
              match ts2 with
              | t' :: ts3 => if is_op ")" t' then Some (a, ts3) else None
              | [] => None
              end
            else if String.eqb s "[" then
              match ts1 with
              | t' :: ts2 =>
                  if is_op "]" t' then Some (EList [], ts2)
                  else '(l, ts3) <-? p_seq n' "]" ts1 ;; Some (EList l, ts3)
              | [] => None
              end
            else None
        | _ => None
        end
    | [] => None
    end
  end.

Definition parse_fuel (ts : list ptoken) : nat := 100 * S (List.length ts).

(** A whole text as one expression ([eval] mode, and the [eval] that
    [parse_expr] ends in): an expression, then only [NEWLINE]s; [None] is a
    [SyntaxError]. *)
Definition parse_expression (s : string) : option expr :=
  match tokenize s with
  | Some ts =>
      match p_test (parse_fuel ts) ts with
      | Some (e, rest) => if forallb is_newline rest then Some e else None
      | None => None
      end
  | None => None
  end.

(** ** Nodes and source segments for [_parse_conditional_expr] *)

(** The tokens [p] consumed from [ts] when [rest] is left. *)
Definition consumed (ts rest : list ptoken) : list ptoken :=
  firstn (List.length ts - List.length rest) ts.

(** The text from the first character of the first token to the last
    character of the last one: [ast.get_source_segment] of the node. *)
Definition segment (text : list ascii) (ts : list ptoken) : string :=
  match ts with
  | [] => ""
  | t :: _ =>
      let e := pend (last ts t) in
      of_chars (firstn (e - pstart t) (skipn (pstart t) text))
  end.

(** The index, in [ts], of the bracket that closes [depth] open ones. *)
Fixpoint close_index (depth j : nat) (ts : list ptoken) : option nat :=
  match ts with
  | [] => None
  | t :: r =>
      if is_op "(" t || is_op "[" t then close_index (S depth) (S j) r
      else if is_op ")" t || is_op "]" t then
        match depth with
        | O | 1 => Some j
        | S d => close_index d (S j) r
        end
      else close_index depth (S j) r
  end.

(** The tokens inside a pair of parentheses around the whole of [ts]: a
    parenthesized node starts and ends inside them. *)
Definition inside_parens (ts : list ptoken) : option (list ptoken) :=
  match ts with
  | t :: r =>
      if is_op "(" t then
        match close_index 1 0 r with
        | Some j => if Nat.eqb (S j) (List.length r) then Some (firstn j r) else None
        | None => None
        end
      else None
  | [] => None
  end.

(** The node the tokens [ts] of one expression stand for, as
    [_convert_expr] sees it. *)
Fixpoint cnode_of (fuel : nat) (text : list ascii) (ts : list ptoken) : option cnode :=
  match fuel with
  | O => None
  | S f =>
    match inside_parens ts with
    | Some inner => cnode_of f text inner
    | None =>
      match p_test (parse_fuel ts) ts with
      | Some (EIfExp _ _ _, []) =>
          '(_, r1) <-? p_or (parse_fuel ts) ts ;;
          match r1 with
          | _ :: r2 =>
              '(_, r3) <-? p_or (parse_fuel r2) r2 ;;
              match r3 with
              | _ :: r4 =>
                  '(c) <-? cnode_of f text (consumed r2 r3) ;;
                  '(b) <-? cnode_of f text (consumed ts r1) ;;
                  '(o) <-? cnode_of f text r4 ;;
                  Some (CIf c b o)
              | [] => None
              end
          | [] => None
          end
      | Some (ECompare _ _, []) =>
          '(_, r1) <-? p_xor (parse_fuel ts) ts ;;
          '(l) <-? cnode_of f text (consumed ts r1) ;;
          '(rest) <-? cmp_nodes f text r1 ;;
          Some (CCmp l rest)
      | Some (_, []) => Some (CSeg (segment text ts))
      | _ => None
      end
    end
  end
(** The operators and comparators of an [ast.Compare] *)
with cmp_nodes (fuel : nat) (text : list ascii) (ts : list ptoken)
  : option (list (cmpop * cnode)) :=
  match fuel with
  | O => None
  | S f =>
    match ts with
    | [] => Some []
    | t :: r =>
        match ptok t with
        | TOp s =>
            '(o) <-? cmpop_of s ;;
            '(_, r') <-? p_xor (parse_fuel r) r ;;
            '(c) <-? cnode_of f text (consumed r r') ;;
            '(more) <-? cmp_nodes f text r' ;;
            Some ((o, c) :: more)
        | _ => None
        end
    end
  end.

(** The node of the expression at the head of [ts], and what follows it. *)
Definition p_node (text : list ascii) (ts : list ptoken) : option (cnode * list ptoken) :=
  '(_, r) <-? p_test (parse_fuel ts) ts ;;
  let mine := consumed ts r in
  '(c) <-? cnode_of (S (List.length mine)) text mine ;;
  Some (c, r).

(** [simple_stmt]: expression statements separated by [;], then [NEWLINE]. *)
Fixpoint p_simple (n : nat) (text : list ascii) (ts : list ptoken) : option (list stmt * list ptoken) :=
  match n with O => None | S n' =>
    '(c, r) <-? p_node text ts ;;
    match r with
    | t :: r1 =>
        if is_newline t then Some ([SExpr c], r1)
        else if is_op ";" t then
          match r1 with
          | t' :: r2 =>
              if is_newline t' then Some ([SExpr c], r2)
              else '(ss, r3) <-? p_simple n' text r1 ;; Some (SExpr c :: ss, r3)
          | [] => None
          end
        else None
    | [] => None
    end
  end.

(** Statements: a [simple_stmt], or an [if_stmt] with its [suite]s. *)
Fixpoint p_stmt (n : nat) (text : list ascii) (ts : list ptoken) : option (list stmt * list ptoken) :=
  match n with O => None | S n' =>
    match ts with
    | t :: ts1 => if is_kw "if" t then '(s, r) <-? p_if n' text ts1 ;; Some ([s], r)
                  else p_simple n' text ts
    | [] => None
    end
  end
(** after [if] or [elif]: [test ':' suite] and the [elif]/[else] part *)
with p_if (n : nat) (text : list ascii) (ts : list ptoken) : option (stmt * list ptoken) :=
  match n with O => None | S n' =>
    '(test, r) <-? p_node text ts ;;
    match r with
    | t :: r1 =>
        if is_op ":" t then
          '(body, r2) <-? p_suite n' text r1 ;;
          match r2 with
          | t2 :: r3 =>
              if is_kw "elif" t2 then '(s, r4) <-? p_if n' text r3 ;; Some (SIf test body [s], r4)
              else if is_kw "else" t2 then
                match r3 with
                | t3 :: r4 =>
                    if is_op ":" t3 then '(ob, r5) <-? p_suite n' text r4 ;; Some (SIf test body ob, r5)
                    else None
                | [] => None
                end
              else Some (SIf test body [], r2)
          | [] => Some (SIf test body [], r2)
          end
        else None
    | [] => None
    end
  end
with p_suite (n : nat) (text : list ascii) (ts : list ptoken) : option (list stmt * list ptoken) :=
  match n with O => None | S n' =>
    match ts with
    | t :: t' :: r =>
        if is_newline t then
          match ptok t' with TIndent => p_block n' text r | _ => None end
        else p_simple n' text ts
    | _ => p_simple n' text ts
    end
  end
(** [stmt+ DEDENT] *)
with p_block (n : nat) (text : list ascii) (ts : list ptoken) : option (list stmt * list ptoken) :=
  match n with O => None | S n' =>
    '(ss, r) <-? p_stmt n' text ts ;;
    match r with
    | t :: r1 =>
        match ptok t with
        | TDedent => Some (ss, r1)
        | _ => '(ss2, r2) <-? p_block n' text r ;; Some (ss ++ ss2, r2)
        end
    | [] => None
    end
  end.

Fixpoint p_file (n : nat) (text : list ascii) (ts : list ptoken) : option (list stmt) :=
  match n with O => None | S n' =>
    match ts with
    | [] => Some []
    | _ => '(ss, r) <-? p_stmt n' text ts ;; '(more) <-? p_file n' text r ;; Some (ss ++ more)
    end
  end.

(** [ast.parse] as [_parse_conditional_expr] uses it: [None] is a
    [SyntaxError], or a module with a statement other than an expression or
    an [if] (an assignment, a loop, ...); [_parse_conditional_expr] returns
    [None] for both. *)
Definition ast_parse (s : string) : option (list stmt) :=
  match tokenize s with
  | Some ts => p_file (parse_fuel ts) (chars s) ts
  | None => None
  end.

Example parse_ex1 : parse_expression "5 / 0" = Some (EBinOp Div (ENum 5) (ENum 0)).
Proof. vm_compute. reflexivity. Qed.
Example parse_ex2 : parse_expression "3500 N*m" = None.
Proof. vm_compute. reflexivity. Qed.

(** ** Python runtime: values, exceptions and [eval] *)

Inductive exc :=
| ZeroDivisionError
| NameError (s : string)
| TypeError
| ValueError
| SyntaxError
| AttributeError
| Unmodelled.

(** [type(exc).__name__] *)
Definition exc_name (e : exc) : string :=
  match e with
  | ZeroDivisionError => "ZeroDivisionError"
  | NameError _ => "NameError"
  | TypeError => "TypeError"
  | ValueError => "ValueError"
  | SyntaxError => "SyntaxError"
  | AttributeError => "AttributeError"
  | Unmodelled => "Unmodelled"
  end.

(** [str(exc)] *)
Definition exc_str (e : exc) : string :=
  match e with
  | ZeroDivisionError => "division by zero"
  | NameError s => "name '" ++ s ++ "' is not defined"
  | TypeError => "unsupported operand type(s)"
  | ValueError => "invalid value"
  | SyntaxError => "invalid syntax"
  | AttributeError => "object has no attribute"
  | Unmodelled => "outside the modelled fragment"
  end.

(** Python values met by [eval]: numbers (int or float), booleans, lists,
    the callables made by [sp.lambdify] (parameters, printed body, the
    namespace it closes over), the helpers of [math_env] and its constant
    [pi]. *)
Inductive pyval :=
| VNum (q : Q)
| VBool (b : bool)
| VList (l : list pyval)
| VFun (params : list string) (body : expr) (env : list (string * pyval))
| VBuiltin (s : string)
| VConst (s : string).

(** A Python [dict] with string keys, in insertion order. *)
Definition dict (A : Type) := list (string * A).

Fixpoint dget {A} (d : dict A) (k : string) : option A :=
  match d with
  | (k', v) :: d' => if String.eqb k k' then Some v else dget d' k
  | [] => None
  end.

(** [d[k] = v]: replaced in place when present, appended otherwise. *)
Fixpoint dset {A} (d : dict A) (k : string) (v : A) : dict A :=
  match d with
  | (k', v') :: d' => if String.eqb k k' then (k', v) :: d' else (k', v') :: dset d' k v
  | [] => [(k, v)]
  end.

(** [d.setdefault(k, v)] *)
Definition dsetdefault {A} (d : dict A) (k : string) (v : A) : dict A :=
  match dget d k with Some _ => d | None => dset d k v end.

Definition dmem {A} (d : dict A) (k : string) : bool :=
  match dget d k with Some _ => true | None => false end.

(** [notebook.units.math_env()] *)
Definition math_env_names :=
  ["sqrt"; "sin"; "cos"; "tan"; "log"; "exp"; "sum"; "min"; "max"; "abs"; "range";
   "linspace"; "arange"; "sweep"; "imap"; "imap2"; "irange"; "isum"; "imean";
   "And"; "Or"; "Not"].

Definition math_env : dict pyval :=
  map (fun s => (s, VBuiltin s)) (firstn 6 math_env_names)
  ++ [("pi", VConst "pi")]
  ++ map (fun s => (s, VBuiltin s)) (skipn 6 math_env_names).

Definition to_num (v : pyval) : option Q :=
  match v with
  | VNum q => Some q
  | VBool b => Some (if b then 1 else 0)%Q
  | _ => None
  end.

(** [bool(v)] *)
Definition truthy (v : pyval) : bool :=
  match v with
  | VNum q => negb (Qeq_bool q 0)
  | VBool b => b
  | VList l => match l with [] => false | _ => true end
  | _ => true
  end.

Definition is_integral (q : Q) : bool := Z.eqb (Z.modulo (Qnum q) (Zpos (Qden q))) 0.
Definition Q_trunc (q : Q) : Z := Z.quot (Qnum q) (Zpos (Qden q)).

(** Python's arithmetic on numbers; [^] on [int] and [bool] is the bitwise
    exclusive or and on a [float] a [TypeError], and the model does not tell
    [int] from [float], so it is outside the model. *)
Definition num_binop (o : binop) (a b : Q) : exc + Q :=
  match o with
  | Add => inr (a + b)%Q
  | Sub => inr (a - b)%Q
  | Mult => inr (a * b)%Q
  | Div => if Qeq_bool b 0 then inl ZeroDivisionError else inr (a / b)%Q
  | Pow =>
      if is_integral b then
        let k := Q_trunc b in
        if Qeq_bool a 0 && Z.ltb k 0 then inl ZeroDivisionError
        else inr (Qpower a k)
      else inl Unmodelled
  | BitXor => inl Unmodelled
  end.

Definition py_binop (o : binop) (a b : pyval) : exc + pyval :=
  match to_num a, to_num b with
  | Some x, Some y => match num_binop o x y with inl e => inl e | inr r => inr (VNum r) end
  | _, _ =>
      match o, a, b with
      | Add, VList l1, VList l2 => inr (VList (l1 ++ l2))
      | _, VConst _, _ | _, _, VConst _ => inl Unmodelled
      | Mult, VList _, _ | Mult, _, VList _ => inl Unmodelled
      | _, _, _ => inl TypeError
      end
  end.

Definition Qlt_bool (a b : Q) : bool := negb (Qle_bool b a).

Definition num_cmp (o : cmpop) (a b : Q) : bool :=
  match o with
  | Gt => Qlt_bool b a | GtE => Qle_bool b a
  | Lt => Qlt_bool a b | LtE => Qle_bool a b
  | Eq => Qeq_bool a b | NotEq => negb (Qeq_bool a b)
  end.

Definition py_cmp (o : cmpop) (a b : pyval) : exc + bool :=
  match to_num a, to_num b with
  | Some x, Some y => inr (num_cmp o x y)
  | _, _ => inl Unmodelled
  end.

(** [notebook.units.linspace] *)
Definition linspace (start stop : Q) (num : Z) : list Q :=
  if Z.leb num 0 then []
  else if Z.eqb num 1 then [start]
  else
    let step := ((stop - start) / inject_Z (num - 1))%Q in
    map (fun i => start + inject_Z (Z.of_nat i) * step)%Q (seq 0 (Z.to_nat num)).

Definition nums_of (l : list pyval) : option (list Q) :=
  fold_right (fun v acc => match to_num v, acc with
                           | Some q, Some r => Some (q :: r) | _, _ => None end)
             (Some []) l.

Definition Qmax (a b : Q) : Q := if Qlt_bool a b then b else a.
Definition Qmin (a b : Q) : Q := if Qlt_bool b a then b else a.

(** [min]/[max] on a list of numbers; [ValueError] on an empty one. *)
Definition py_minmax (is_max : bool) (l : list Q) : exc + pyval :=
  match l with
  | [] => inl ValueError
  | x :: r => inr (VNum (fold_left (if is_max then Qmax else Qmin) r x))
  end.

(** [_and]/[_or] of [math_env]: a single iterable argument is unpacked. *)
Definition single_iterable_args (l : list pyval) : list pyval :=
  match l with [VList xs] => xs | _ => l end.

Definition ebind {A B} (m : exc + A) (k : A -> exc + B) : exc + B :=
  match m with inl e => inl e | inr a => k a end.

Notation "x <-! m ;; k" := (ebind m (fun x => k))
  (at level 61, m at next level, right associativity).

(** Names that the namespace of a [lambdify]-generated function resolves
    through the [math] module or Python's builtins. *)
Definition lambdify_module_names :=
  ["math"; "e"; "inf"; "nan"; "floor"; "ceil"; "fabs"; "factorial"; "float"; "int";
   "len"; "list"; "pow"; "round"; "print"; "map"; "zip"; "filter"; "sorted"].

Definition is_module_name (s : string) : bool :=
  existsb (String.eqb s) lambdify_module_names.

(** [eval(expr, {"__builtins__": {}}, env)] when [lam = false]; the body of a
    [lambdify]-generated function when [lam = true].  [n] bounds the depth of
    the evaluation (Python has none); running out of it is [Unmodelled]. *)
Fixpoint py_eval (n : nat) (lam : bool) (env : dict pyval) (e : expr) : exc + pyval :=
  match n with O => inl Unmodelled | S n' =>
  match e with
  | ENum q => inr (VNum q)
  | EConst b => inr (VBool b)
  | EName s =>
      match dget env s with
      | Some v => inr v
      | None => if lam && is_module_name s then inl Unmodelled else inl (NameError s)
      end
  | EBinOp o a b =>
      x <-! py_eval n' lam env a ;; y <-! py_eval n' lam env b ;; py_binop o x y
  | EUnaryOp o a =>
      x <-! py_eval n' lam env a ;;
      match o with
      | UNot => inr (VBool (negb (truthy x)))
      | USub => match to_num x with Some q => inr (VNum (- q)%Q)
                | None => match x with VConst _ => inl Unmodelled | _ => inl TypeError end end
      | UAdd => match to_num x with Some q => inr (VNum q)
                | None => match x with VConst _ => inl Unmodelled | _ => inl TypeError end end
      end
  | EBoolOp o l => py_boolop n' lam env o l
  | ECompare a rest => x <-! py_eval n' lam env a ;; py_cmp_chain n' lam env x rest
  | ECall f args =>
      fv <-! py_eval n' lam env f ;; vs <-! py_eval_list n' lam env args ;; py_apply n' fv vs
  | EList l => vs <-! py_eval_list n' lam env l ;; inr (VList vs)
  | EIfExp t b o =>
      x <-! py_eval n' lam env t ;;
      if truthy x then py_eval n' lam env b else py_eval n' lam env o
  end end
with py_eval_list (n : nat) (lam : bool) (env : dict pyval) (l : list expr) : exc + list pyval :=
  match n with O => inl Unmodelled | S n' =>
  match l with
  | [] => inr []
  | e :: l' => x <-! py_eval n' lam env e ;; r <-! py_eval_list n' lam env l' ;; inr (x :: r)
  end end
(** [a and b and ...] / [a or b or ...]: the first value that decides, or the last. *)
with py_boolop (n : nat) (lam : bool) (env : dict pyval) (o : boolop) (l : list expr) : exc + pyval :=
  match n with O => inl Unmodelled | S n' =>
  match l with
  | [] => inl SyntaxError
  | [e] => py_eval n' lam env e
  | e :: l' =>
      x <-! py_eval n' lam env e ;;
      match o with
      | BAnd => if truthy x then py_boolop n' lam env o l' else inr x
      | BOr => if truthy x then inr x else py_boolop n' lam env o l'
      end
  end end
(** [a < b < c]: pairwise, stopping at the first false comparison. *)
with py_cmp_chain (n : nat) (lam : bool) (env : dict pyval) (left : pyval)
                  (rest : list (cmpop * expr)) : exc + pyval :=
  match n with O => inl Unmodelled | S n' =>
  match rest with
  | [] => inr (VBool true)
  | (o, e) :: r =>
      y <-! py_eval n' lam env e ;;
      b <-! py_cmp o left y ;;
      if b then py_cmp_chain n' lam env y r else inr (VBool false)
  end end
with py_apply (n : nat) (f : pyval) (args : list pyval) : exc + pyval :=
  match n with O => inl Unmodelled | S n' =>
  match f with
  | VFun ps body cenv =>
      if Nat.eqb (List.length ps) (List.length args)
      then py_eval n' true (combine ps args ++ cenv) body
      else inl TypeError
  | VBuiltin s =>
      if String.eqb s "abs" then
        match args with
        | [x] => match to_num x with Some q => inr (VNum (Qabs q)) | None => inl TypeError end
        | _ => inl TypeError
        end
      else if String.eqb s "sum" then
        match args with
        | [VList xs] => match nums_of xs with Some l => inr (VNum (fold_left Qplus l 0%Q))
                        | None => inl Unmodelled end
        | [VNum _] | [VBool _] => inl TypeError
        | _ => inl Unmodelled
        end
      else if String.eqb s "min" || String.eqb s "max" then
        let is_max := String.eqb s "max" in
        match args with
        | [VList xs] => match nums_of xs with Some l => py_minmax is_max l
                        | None => inl Unmodelled end
        | [_] => inl TypeError
        | [] => inl TypeError
        | _ => match nums_of args with Some l => py_minmax is_max l
               | None => inl Unmodelled end
        end
      else if String.eqb s "linspace" then
        match nums_of args with
        | Some [a; b] => inr (VList (map VNum (linspace a b 50)))
        | Some [a; b; c] => inr (VList (map VNum (linspace a b (Q_trunc c))))
        | Some _ => inl TypeError
        | None => inl Unmodelled
        end
      else if String.eqb s "sweep" then
        match args with
        | [g; VList xs] => ys <-! py_map n' g xs ;; inr (VList ys)
        | [_; VNum _] | [_; VBool _] => inl TypeError
        | [_; _] => inl Unmodelled
        | _ => inl TypeError
        end
      else if String.eqb s "And" then
        inr (VBool (forallb truthy (single_iterable_args args)))
      else if String.eqb s "Or" then
        inr (VBool (existsb truthy (single_iterable_args args)))
      else if String.eqb s "Not" then
        match args with [x] => inr (VBool (negb (truthy x))) | _ => inl TypeError end
      else inl Unmodelled
  | VConst _ | VNum _ | VBool _ | VList _ => inl TypeError
  end end
with py_map (n : nat) (f : pyval) (xs : list pyval) : exc + list pyval :=
  match n with O => inl Unmodelled | S n' =>
  match xs with
  | [] => inr []
  | x :: xs' => y <-! py_apply n' f [x] ;; ys <-! py_map n' f xs' ;; inr (y :: ys)
  end end.

Definition py_fuel : nat := 2000.

(** ** SymPy objects and SymPy's automatic evaluation *)

(** [SPyBool] is a Python [bool] (what [==] between SymPy objects returns),
    [SBool] SymPy's [true]/[false]; [SList] a Python list built by
    [parse_expr]; [SFunObj] a function class used as a value; [SApp] an
    applied undefined function (or an unevaluated SymPy function). *)
Inductive sterm :=
| SNum (q : Q)
| SZoo
| SNaN
| SBool (b : bool)
| SPyBool (b : bool)
| SSym (s : string)
| SAdd (a b : sterm)
| SSub (a b : sterm)
| SMul (a b : sterm)
| SDiv (a b : sterm)
| SPow (a b : sterm)
| SNeg (a : sterm)
| SApp (f : string) (args : list sterm)
| SRel (o : cmpop) (a b : sterm)
| SAnd (l : list sterm)
| SOr (l : list sterm)
| SNot (a : sterm)
| SPiecewise (pairs : list (sterm * sterm))
| SList (l : list sterm)
| SFunObj (s : string).

Definition cmpop_eqb (a b : cmpop) : bool :=
  match a, b with
  | Gt, Gt | GtE, GtE | Lt, Lt | LtE, LtE | Eq, Eq | NotEq, NotEq => true
  | _, _ => false
  end.

(** Structural equality ([==] on SymPy objects). *)
Fixpoint sterm_eqb (a b : sterm) : bool :=
  let fix list_eqb (l1 l2 : list sterm) : bool :=
    match l1, l2 with
    | [], [] => true
    | x :: r1, y :: r2 => sterm_eqb x y && list_eqb r1 r2
    | _, _ => false
    end in
  let fix pairs_eqb (l1 l2 : list (sterm * sterm)) : bool :=
    match l1, l2 with
    | [], [] => true
    | (x1, c1) :: r1, (x2, c2) :: r2 => sterm_eqb x1 x2 && sterm_eqb c1 c2 && pairs_eqb r1 r2
    | _, _ => false
    end in
  match a, b with
  | SNum x, SNum y => Qeq_bool x y
  | SZoo, SZoo | SNaN, SNaN => true
  | SBool x, SBool y | SPyBool x, SPyBool y => Bool.eqb x y
  | SSym x, SSym y | SFunObj x, SFunObj y => String.eqb x y
  | SAdd a1 b1, SAdd a2 b2 | SSub a1 b1, SSub a2 b2 | SMul a1 b1, SMul a2 b2
  | SDiv a1 b1, SDiv a2 b2 | SPow a1 b1, SPow a2 b2 => sterm_eqb a1 a2 && sterm_eqb b1 b2
  | SNeg x, SNeg y | SNot x, SNot y => sterm_eqb x y
  | SApp f l1, SApp g l2 => String.eqb f g && list_eqb l1 l2
  | SRel o1 a1 b1, SRel o2 a2 b2 => cmpop_eqb o1 o2 && sterm_eqb a1 a2 && sterm_eqb b1 b2
  | SAnd l1, SAnd l2 | SOr l1, SOr l2 | SList l1, SList l2 => list_eqb l1 l2
  | SPiecewise p1, SPiecewise p2 => pairs_eqb p1 p2
  | _, _ => false
  end.

Definition is_snum (t : sterm) : bool := match t with SNum _ => true | _ => false end.

(** Objects SymPy refuses in arithmetic. *)
Definition non_arith (t : sterm) : bool :=
  match t with
  | SBool _ | SPyBool _ | SRel _ _ _ | SAnd _ | SOr _ | SNot _ | SList _ | SFunObj _ => true
  | _ => false
  end.

(** [a + b], [a - b], [a * b], [a / b], [a ** b] on SymPy objects; [a ^ b]
    (SymPy's bitwise or logical exclusive or, by the operand types) is
    outside the model. *)
Definition s_binop_num (o : binop) (x y : Q) : exc + sterm :=
  match o with
  | Div => if Qeq_bool y 0 then inr (if Qeq_bool x 0 then SNaN else SZoo)
           else inr (SNum (x / y))
  | Pow =>
      if is_integral y then
        if Qeq_bool x 0 && Z.ltb (Q_trunc y) 0 then inr SZoo
        else inr (SNum (Qpower x (Q_trunc y)))
      else inl Unmodelled
  | Add => inr (SNum (x + y)) | Sub => inr (SNum (x - y)) | Mult => inr (SNum (x * y))
  | BitXor => inl Unmodelled
  end.

Definition s_binop_sym (o : binop) (a b : sterm) : exc + sterm :=
  match o with
  | Add => if is_snum a && Qeq_bool (match a with SNum x => x | _ => 1 end) 0 then inr b
           else if is_snum b && Qeq_bool (match b with SNum y => y | _ => 1 end) 0 then inr a
           else inr (SAdd a b)
  | Sub => inr (SSub a b)
  | Mult => inr (SMul a b)
  | Div => match b with
           | SNum y => if Qeq_bool y 0 then inl Unmodelled else inr (SDiv a b)
           | _ => inr (SDiv a b)
           end
  | Pow => inr (SPow a b)
  | BitXor => inl Unmodelled
  end.

(** Numbers fold; [nan] absorbs; [zoo] is outside the model. *)
Definition s_binop_arith (o : binop) (a b : sterm) : exc + sterm :=
  match o with BitXor => inl Unmodelled | _ =>
  if non_arith a || non_arith b then inl TypeError else
  match a with
  | SNum x => match b with
              | SNum y => s_binop_num o x y
              | SNaN => inr SNaN
              | SZoo => inl Unmodelled
              | _ => s_binop_sym o a b
              end
  | SNaN => inr SNaN
  | SZoo => match b with SNaN => inr SNaN | _ => inl Unmodelled end
  | _ => match b with
         | SNaN => inr SNaN
         | SZoo => inl Unmodelled
         | _ => s_binop_sym o a b
         end
  end
  end.

Definition s_binop (o : binop) (a b : sterm) : exc + sterm :=
  match a, b with
  | SList l1, SList l2 => match o with Add => inr (SList (l1 ++ l2)) | _ => inl TypeError end
  | _, _ => s_binop_arith o a b
  end.

Definition s_neg (a : sterm) : exc + sterm :=
  match a with
  | SNum x => inr (SNum (- x)%Q)
  | SNaN => inr SNaN
  | SZoo => inr SZoo
  | _ => if non_arith a then inl TypeError else inr (SNeg a)
  end.

Definition nan_or_zoo (t : sterm) : bool :=
  match t with SNaN | SZoo => true | _ => false end.

Definition s_rel_sym (o : cmpop) (a b : sterm) : exc + sterm :=
  match o with
  | Eq | NotEq =>
      if sterm_eqb a b then inr (SBool (cmpop_eqb o Eq))
      else if non_arith a || non_arith b then inl Unmodelled
      else if nan_or_zoo a || nan_or_zoo b then inl Unmodelled
      else inr (SRel o a b)
  | _ =>
      if non_arith a || non_arith b then inl TypeError
      else if nan_or_zoo a || nan_or_zoo b then inl TypeError
      else inr (SRel o a b)
  end.

(** [sp.Gt], [sp.Ge], [sp.Lt], [sp.Le], [sp.Eq], [sp.Ne]. *)
Definition s_rel (o : cmpop) (a b : sterm) : exc + sterm :=
  match a, b with
  | SNum x, SNum y => inr (SBool (num_cmp o x y))
  | _, _ => s_rel_sym o a b
  end.

(** Python's [==]/[!=] between SymPy objects: structural, a Python [bool]. *)
Definition py_rel (o : cmpop) (a b : sterm) : exc + sterm :=
  match o with
  | Eq => inr (SPyBool (sterm_eqb a b))
  | NotEq => inr (SPyBool (negb (sterm_eqb a b)))
  | _ => s_rel o a b
  end.

(** [bool(obj)] on the objects of [parse_expr]. *)
Definition s_truthy (t : sterm) : exc + bool :=
  match t with
  | SNum q => inr (negb (Qeq_bool q 0))
  | SBool b | SPyBool b => inr b
  | SRel _ _ _ => inl TypeError
  | SNaN | SAnd _ | SOr _ | SNot _ => inl Unmodelled
  | SList l => inr (match l with [] => false | _ => true end)
  | _ => inr true
  end.

Definition as_boolean (t : sterm) : exc + option bool :=
  match t with
  | SBool b | SPyBool b => inr (Some b)
  | SRel _ _ _ | SAnd _ | SOr _ | SNot _ | SSym _ => inr None
  | _ => inl Unmodelled
  end.

(** [sp.And(args...)] / [sp.Or(args...)]: constant arguments are absorbed. *)
Fixpoint s_junction (unit : bool) (l : list sterm) : exc + list sterm :=
  match l with
  | [] => inr []
  | t :: r =>
      c <-! as_boolean t ;;
      rest <-! s_junction unit r ;;
      match c with
      | Some b => if Bool.eqb b unit then inr rest else inr [SBool b]
      | None => match rest with
                | [SBool b] => if Bool.eqb b unit then inr [t] else inr rest
                | _ => inr (t :: rest)
                end
      end
  end.

Definition s_and (l : list sterm) : exc + sterm :=
  r <-! s_junction true l ;;
  match r with [] => inr (SBool true) | [x] => inr x | _ => inr (SAnd r) end.

Definition s_or (l : list sterm) : exc + sterm :=
  r <-! s_junction false l ;;
  match r with [] => inr (SBool false) | [x] => inr x | _ => inr (SOr r) end.

Definition negate_cmpop (o : cmpop) : cmpop :=
  match o with Gt => LtE | GtE => Lt | Lt => GtE | LtE => Gt | Eq => NotEq | NotEq => Eq end.

(** [sp.Not(arg)] *)
Definition s_not (t : sterm) : exc + sterm :=
  match t with
  | SBool b | SPyBool b => inr (SBool (negb b))
  | SRel o a b => inr (SRel (negate_cmpop o) a b)
  | SNot a => inr a
  | SSym _ | SAnd _ | SOr _ => inr (SNot t)
  | _ => inl Unmodelled
  end.

(** Conditions accepted by [ExprCondPair]. *)
Definition piece_cond (c : sterm) : exc + sterm :=
  match c with
  | SPyBool b => inr (SBool b)
  | SBool _ | SRel _ _ _ | SAnd _ | SOr _ | SNot _ | SSym _ => inr c
  | _ => inl TypeError
  end.

(** [sp.Piecewise(pairs...)]: false pairs are dropped, a true pair ends the
    list; a leading true pair is the value; no pair left is [nan]. *)
Fixpoint piece_filter (l : list (sterm * sterm)) : exc + list (sterm * sterm) :=
  match l with
  | [] => inr []
  | (v, c) :: r =>
      c' <-! piece_cond c ;;
      match v with
      | SList _ | SFunObj _ => inl Unmodelled
      | _ =>
        match c' with
        | SBool false => piece_filter r
        | SBool true => inr [(v, c')]
        | _ => r' <-! piece_filter r ;; inr ((v, c') :: r')
        end
      end
  end.

Definition s_piecewise (l : list (sterm * sterm)) : exc + sterm :=
  r <-! piece_filter l ;;
  match r with
  | [] => inr SNaN
  | (v, SBool true) :: _ => inr v
  | _ => inr (SPiecewise r)
  end.

(** ** The symbol table ([SymbolRegistry]) *)

(** Objects stored in the registry: [sp.Symbol(s)]; [sp.Function(s)]; the
    classes [type(s, (sp.Function,), {})] that [_safe_sympify] creates afresh
    on every call (told apart by an allocation number); the SymPy helpers of
    [safe_locals] ([sp.sqrt], [sp.pi], [sp.And], ...). *)
Inductive obj :=
| OSymbol (s : string)
| OFunction (s : string)
| OFreshFunction (s : string) (id : nat)
| OBuiltin (s : string).

Definition obj_eqb (a b : obj) : bool :=
  match a, b with
  | OSymbol x, OSymbol y | OFunction x, OFunction y | OBuiltin x, OBuiltin y => String.eqb x y
  | OFreshFunction x i, OFreshFunction y j => String.eqb x y && Nat.eqb i j
  | _, _ => false
  end.

(** The registry with the counter that numbers freshly created classes. *)
Record registry := mkRegistry { reg_map : dict obj; reg_next : nat }.

(** [SymbolRegistry.__getitem__] with [__missing__]: never fails, inserts the
    created object. *)
Definition reg_get (r : registry) (key : string) : obj * registry :=
  match dget (reg_map r) key with
  | Some o => (o, r)
  | None =>
      let o := if String.eqb key "linspace" || String.eqb key "arange"
               then OFunction key else OSymbol key in
      (o, mkRegistry (dset (reg_map r) key o) (reg_next r))
  end.

Definition reg_set (r : registry) (key : string) (o : obj) : registry :=
  mkRegistry (dset (reg_map r) key o) (reg_next r).

(** Names of [safe_locals] in [_safe_sympify], with the object each maps to. *)
Definition safe_locals : dict obj :=
  [("sqrt", OBuiltin "sqrt"); ("sin", OBuiltin "sin"); ("cos", OBuiltin "cos");
   ("tan", OBuiltin "tan"); ("log", OBuiltin "log"); ("exp", OBuiltin "exp");
   ("pi", OBuiltin "pi"); ("E", OBuiltin "E"); ("Integer", OBuiltin "Integer");
   ("Float", OBuiltin "Float"); ("Rational", OBuiltin "Rational");
   ("Symbol", OBuiltin "Symbol"); ("abs", OBuiltin "Abs");
   ("sum", OFunction "sum"); ("min", OFunction "min"); ("max", OFunction "max");
   ("range", OFunction "range"); ("linspace", OFunction "linspace");
   ("arange", OFunction "arange"); ("sweep", OFunction "sweep");
   ("And", OBuiltin "And"); ("Or", OBuiltin "Or"); ("Not", OBuiltin "Not")].

(** The names [_safe_sympify] rebinds to fresh classes on every call. *)
Definition fresh_function_names :=
  ["linspace"; "arange"; "sweep"; "sum"; "min"; "max"; "range"].

(** The registry side of [_safe_sympify] on a text with a letter:
    [setdefault] of [safe_locals], [sp.Function] for user functions not yet
    present, then fresh classes for [fresh_function_names]. *)
Definition prepare_registry (function_names : list string) (r : registry) : registry :=
  let m1 := fold_left (fun m '(k, o) => dsetdefault m k o) safe_locals (reg_map r) in
  let m2 := fold_left (fun m f => if dmem m f then m else dset m f (OFunction f))
                      function_names m1 in
  let '(m3, next) :=
    fold_left (fun '(m, i) f => (dset m f (OFreshFunction f i), S i))
              fresh_function_names (m2, reg_next r) in
  mkRegistry m3 next.

(** Names that [from sympy import *] provides to [parse_expr] when the
    registry lacks them. *)
Definition sympy_global_names :=
  ["N"; "S"; "E"; "I"; "O"; "Q"; "C"; "pi"; "oo"; "zoo"; "nan"; "true"; "false";
   "gamma"; "beta"; "zeta"; "li"; "Li"; "re"; "im"; "arg"; "sign"; "ln"; "log";
   "exp"; "sqrt"; "sin"; "cos"; "tan"; "cot"; "sec"; "csc"; "asin"; "acos"; "atan";
   "sinh"; "cosh"; "tanh"; "factorial"; "binomial"; "floor"; "ceiling"; "Max"; "Min";
   "Abs"; "diff"; "integrate"; "limit"; "solve"; "series"; "Sum"; "Product"; "Matrix";
   "Eq"; "Ne"; "Lt"; "Gt"; "Le"; "Ge"; "And"; "Or"; "Not"; "Xor"; "Symbol";
   "Function"; "Integer"; "Float"; "Rational"; "symbols"; "var"; "plot"; "lambdify";
   "simplify"; "expand"; "factor"; "Piecewise"; "Poly"; "Interval"; "Union"; "FiniteSet"].

Definition is_sympy_global (s : string) : bool := existsb (String.eqb s) sympy_global_names.

(** [parse_expr(text, local_dict=symbols)] evaluated on a parsed text:
    Python's operators on SymPy objects; a name in the registry is its
    object, any other name a new [Symbol] ([Symbol('x')], and [Symbol] is in
    the registry). *)
Definition resolve_value (m : dict obj) (s : string) : exc + sterm :=
  match dget m s with
  | Some (OSymbol t) => inr (SSym t)
  | Some (OFunction t) | Some (OFreshFunction t _) => inr (SFunObj t)
  | Some (OBuiltin _) => inl Unmodelled
  | None => if is_sympy_global s then inl Unmodelled else inr (SSym s)
  end.

Definition app_arg (t : sterm) : exc + sterm :=
  match t with
  | SList _ | SFunObj _ => inl Unmodelled
  | SPyBool b => inr (SBool b)
  | _ => inr t
  end.

Fixpoint app_args (l : list sterm) : exc + list sterm :=
  match l with
  | [] => inr []
  | t :: r => t' <-! app_arg t ;; r' <-! app_args r ;; inr (t' :: r')
  end.

Definition builtin_call (s : string) (args : list sterm) : exc + sterm :=
  if String.eqb s "And" then s_and args
  else if String.eqb s "Or" then s_or args
  else if String.eqb s "Not" then match args with [a] => s_not a | _ => inl TypeError end
  else if String.eqb s "Abs" then
    match args with
    | [SNum q] => inr (SNum (Qabs q))
    | [a] => a' <-! app_arg a ;; if non_arith a' then inl TypeError else inr (SApp "Abs" [a'])
    | _ => inl TypeError
    end
  else if existsb (String.eqb s) ["sqrt"; "sin"; "cos"; "tan"; "log"; "exp"] then
    args' <-! app_args args ;;
    if forallb is_snum args' then inl Unmodelled else inr (SApp s args')
  else if String.eqb s "pi" || String.eqb s "E" then inl TypeError
  else inl Unmodelled.

(** A call [f(...)] of a name [f] that is not in the registry: [parse_expr]
    writes [Function('f')(...)], and [eval] looks [Function] up in the
    registry first.  It is not there (unless a user function is named
    [Function]), so [__missing__] returns [Symbol('Function')], and calling
    that raises [TypeError] before the arguments are evaluated (the entry
    [__missing__] adds for [Function] is not recorded in the model). *)
Definition unknown_call_head_raises (m : dict obj) (f : string) : bool :=
  match dget m f with
  | Some _ => false
  | None =>
      negb (is_sympy_global f) &&
      match dget m "Function" with
      | Some (OFunction _) | Some (OFreshFunction _ _) => false
      | _ => true
      end
  end.

(** Calling the object a name stands for, on evaluated arguments: a
    [Symbol] is not callable; an undefined function applies; a SymPy helper
    computes.  For an unknown name the head [Function('f')] is, at best, an
    applied function [Function(f)], which is not callable either. *)
Definition call_obj (m : dict obj) (s : string) (args : list sterm) : exc + sterm :=
  match dget m s with
  | Some (OSymbol _) => inl TypeError
  | Some (OFunction t) | Some (OFreshFunction t _) => args' <-! app_args args ;; inr (SApp t args')
  | Some (OBuiltin b) => builtin_call b args
  | None => if is_sympy_global s then inl Unmodelled else inl TypeError
  end.

Fixpoint sympify (m : dict obj) (e : expr) : exc + sterm :=
  let fix sympify_list (l : list expr) : exc + list sterm :=
    match l with
    | [] => inr []
    | x :: r => x' <-! sympify m x ;; r' <-! sympify_list r ;; inr (x' :: r')
    end in
  let fix boolop (o : boolop) (l : list expr) : exc + sterm :=
    match l with
    | [] => inl SyntaxError
    | [x] => sympify m x
    | x :: r =>
        x' <-! sympify m x ;; b <-! s_truthy x' ;;
        match o with
        | BAnd => if b then boolop o r else inr x'
        | BOr => if b then inr x' else boolop o r
        end
    end in
  let fix chain (left : sterm) (rest : list (cmpop * expr)) : exc + sterm :=
    match rest with
    | [] => inr (SPyBool true)
    | [(o, x)] => x' <-! sympify m x ;; py_rel o left x'
    | (o, x) :: r =>
        x' <-! sympify m x ;; c <-! py_rel o left x' ;; b <-! s_truthy c ;;
        if b then chain x' r else inr c
    end in
  match e with
  | ENum q => inr (SNum q)
  | EConst b => inr (SPyBool b)
  | EName s => resolve_value m s
  | EBinOp o a b => a' <-! sympify m a ;; b' <-! sympify m b ;; s_binop o a' b'
  | EUnaryOp UNot a => a' <-! sympify m a ;; b <-! s_truthy a' ;; inr (SPyBool (negb b))
  | EUnaryOp USub a => a' <-! sympify m a ;; s_neg a'
  | EUnaryOp UAdd a => a' <-! sympify m a ;; if non_arith a' then inl TypeError else inr a'
  | EBoolOp o l => boolop o l
  | ECompare a rest => a' <-! sympify m a ;; chain a' rest
  | ECall (EName f) args =>
      if unknown_call_head_raises m f then inl TypeError
      else args' <-! sympify_list args ;; call_obj m f args'
  | ECall f args => f' <-! sympify m f ;;
      match f' with SSym _ | SNum _ => inl TypeError | _ => inl Unmodelled end
  | EList l => l' <-! sympify_list l ;; inr (SList l')
  | EIfExp t b o => t' <-! sympify m t ;; c <-! s_truthy t' ;;
      if c then sympify m b else sympify m o
  end.

(** [expr.subs(context.numeric_values)] followed by [sp.N]: numbers replace
    the bound symbols and SymPy re-evaluates (exact numbers here, so [sp.N]
    changes nothing more).  A Python [bool] or [list] has no [subs]. *)
Fixpoint s_subs (nv : dict Q) (t : sterm) : exc + sterm :=
  let fix subs_list (l : list sterm) : exc + list sterm :=
    match l with
    | [] => inr []
    | x :: r => x' <-! s_subs nv x ;; r' <-! subs_list r ;; inr (x' :: r')
    end in
  let fix subs_pairs (l : list (sterm * sterm)) : exc + list (sterm * sterm) :=
    match l with
    | [] => inr []
    | (v, c) :: r => v' <-! s_subs nv v ;; c' <-! s_subs nv c ;; r' <-! subs_pairs r ;;
                     inr ((v', c') :: r')
    end in
  match t with
  | SNum _ | SZoo | SNaN | SBool _ => inr t
  | SPyBool _ | SList _ => inl AttributeError
  | SFunObj _ => inl Unmodelled
  | SSym s => match dget nv s with Some q => inr (SNum q) | None => inr t end
  | SAdd a b => a' <-! s_subs nv a ;; b' <-! s_subs nv b ;; s_binop Add a' b'
  | SSub a b => a' <-! s_subs nv a ;; b' <-! s_subs nv b ;; s_binop Sub a' b'
  | SMul a b => a' <-! s_subs nv a ;; b' <-! s_subs nv b ;; s_binop Mult a' b'
  | SDiv a b => a' <-! s_subs nv a ;; b' <-! s_subs nv b ;; s_binop Div a' b'
  | SPow a b => a' <-! s_subs nv a ;; b' <-! s_subs nv b ;; s_binop Pow a' b'
  | SNeg a => a' <-! s_subs nv a ;; s_neg a'
  | SApp f args =>
      args' <-! subs_list args ;;
      if String.eqb f "Abs" then builtin_call "Abs" args'
      else if existsb (String.eqb f) ["sqrt"; "sin"; "cos"; "tan"; "log"; "exp"] then
        builtin_call f args'
      else inr (SApp f args')
  | SRel o a b => a' <-! s_subs nv a ;; b' <-! s_subs nv b ;; s_rel o a' b'
  | SAnd l => l' <-! subs_list l ;; s_and l'
  | SOr l => l' <-! subs_list l ;; s_or l'
  | SNot a => a' <-! s_subs nv a ;; s_not a'
  | SPiecewise ps => ps' <-! subs_pairs ps ;; s_piecewise ps'
  end.

(** [obj.is_real] is [True] only for real numbers; [float(obj)] then. *)
Definition s_real (t : sterm) : option Q := match t with SNum q => Some q | _ => None end.

(** [expr.free_symbols], as names. *)
Fixpoint free_symbols (t : sterm) : list string :=
  match t with
  | SSym s => [s]
  | SAdd a b | SSub a b | SMul a b | SDiv a b | SPow a b | SRel _ a b =>
      free_symbols a ++ free_symbols b
  | SNeg a | SNot a => free_symbols a
  | SApp _ l | SAnd l | SOr l => flat_map free_symbols l
  | SPiecewise ps => flat_map (fun '(v, c) => free_symbols v ++ free_symbols c) ps
  | _ => []
  end.

(** The Python source that [sp.lambdify] prints for an expression; [None]
    where the printer leaves the modelled fragment. *)
Fixpoint print_python (t : sterm) : option expr :=
  let fix print_list (l : list sterm) : option (list expr) :=
    match l with
    | [] => Some []
    | x :: r => '(x') <-? print_python x ;; '(r') <-? print_list r ;; Some (x' :: r')
    end in
  let fix print_pieces (l : list (sterm * sterm)) : option expr :=
    match l with
    | [(v, SBool true)] => print_python v
    | (v, c) :: r => '(v') <-? print_python v ;; '(c') <-? print_python c ;;
                     '(r') <-? print_pieces r ;; Some (EIfExp c' v' r')
    | [] => None
    end in
  match t with
  | SNum q => Some (ENum q)
  | SBool b | SPyBool b => Some (EConst b)
  | SSym s => Some (EName s)
  | SAdd a b => '(a') <-? print_python a ;; '(b') <-? print_python b ;; Some (EBinOp Add a' b')
  | SSub a b => '(a') <-? print_python a ;; '(b') <-? print_python b ;; Some (EBinOp Sub a' b')
  | SMul a b => '(a') <-? print_python a ;; '(b') <-? print_python b ;; Some (EBinOp Mult a' b')
  | SDiv a b => '(a') <-? print_python a ;; '(b') <-? print_python b ;; Some (EBinOp Div a' b')
  | SPow a b => '(a') <-? print_python a ;; '(b') <-? print_python b ;; Some (EBinOp Pow a' b')
  | SNeg a => '(a') <-? print_python a ;; Some (EUnaryOp USub a')
  | SApp f args =>
      if String.eqb f "Abs" then '(l) <-? print_list args ;; Some (ECall (EName "abs") l)
      else if existsb (String.eqb f) ["sqrt"; "sin"; "cos"; "tan"; "log"; "exp"] then None
      else '(l) <-? print_list args ;; Some (ECall (EName f) l)
  | SRel o a b => '(a') <-? print_python a ;; '(b') <-? print_python b ;; Some (ECompare a' [(o, b')])
  | SAnd l => '(l') <-? print_list l ;; Some (EBoolOp BAnd l')
  | SOr l => '(l') <-? print_list l ;; Some (EBoolOp BOr l')
  | SNot a => '(a') <-? print_python a ;; Some (EUnaryOp UNot a')
  | SPiecewise ps => print_pieces ps
  | SList l => '(l') <-? print_list l ;; Some (EList l')
  | SFunObj s => Some (EName s)
  | SZoo | SNaN => None
  end.

(** ** Blocks, records and the evaluation context *)

(** [sp.latex] output and the strings the code assembles from it. *)
Inductive latex_text :=
| LTerm (t : sterm)                (* [sp.latex(expr, order="none")] *)
| LTermMul (t : sterm)             (* the same with [mul_symbol=" \\cdot "] *)
| LClean (l : latex_text)               (* [_cleanup_latex(l)] *)
| LEscaped (s : string)            (* [html.escape(s)] *)
| LSym (s : string)                (* [_lhs_latex(s)] *)
| LAssign (lhs rhs : latex_text)        (* [f"{lhs} = {rhs}"] *)
| LFunDef (name : latex_text) (params : list latex_text) (rhs : latex_text).

(** The display strings stored in [FormulaBlock.result]. *)
Inductive display :=
| RFixed2 (q : Q)                          (* [f"{q:.2f}"] *)
| RStr (t : sterm)                         (* [str(obj)] *)
| RArray (l : list Q)                      (* ["Array: [...]"] / ["Array (n values): [...]"] *)
| RFunDefined (name : string) (params : list string) (* ["Function f(x) defined"] *)
| RError (prefix : string) (e : exc).      (* [f"{prefix}{e}"] *)

Record formula := mkFormula {
  raw : string;
  block_id : string;
  sympy_expr : option sterm;
  result : option display;
  latex : option latex_text;
  numeric_value : option Q;
  is_assignment : bool;
  variable_name : option string;
  is_function_def : bool;
  function_name : option string;
  function_params : option (list string);
  is_array : bool;
  array_values : option (list Q);
  evaluation_status : string;
  error_type : option string;
  error_message : option string;
  evaluation_time_ms : option Q
}.

Definition set_sympy_expr (v : option sterm) (b : formula) : formula :=
  mkFormula (raw b) (block_id b) v (result b) (latex b) (numeric_value b) (is_assignment b) (variable_name b) (is_function_def b) (function_name b) (function_params b) (is_array b) (array_values b) (evaluation_status b) (error_type b) (error_message b) (evaluation_time_ms b).
Definition set_result (v : option display) (b : formula) : formula :=
  mkFormula (raw b) (block_id b) (sympy_expr b) v (latex b) (numeric_value b) (is_assignment b) (variable_name b) (is_function_def b) (function_name b) (function_params b) (is_array b) (array_values b) (evaluation_status b) (error_type b) (error_message b) (evaluation_time_ms b).
Definition set_latex (v : option latex_text) (b : formula) : formula :=
  mkFormula (raw b) (block_id b) (sympy_expr b) (result b) v (numeric_value b) (is_assignment b) (variable_name b) (is_function_def b) (function_name b) (function_params b) (is_array b) (array_values b) (evaluation_status b) (error_type b) (error_message b) (evaluation_time_ms b).
Definition set_numeric_value (v : option Q) (b : formula) : formula :=
  mkFormula (raw b) (block_id b) (sympy_expr b) (result b) (latex b) v (is_assignment b) (variable_name b) (is_function_def b) (function_name b) (function_params b) (is_array b) (array_values b) (evaluation_status b) (error_type b) (error_message b) (evaluation_time_ms b).
Definition set_is_assignment (v : bool) (b : formula) : formula :=
  mkFormula (raw b) (block_id b) (sympy_expr b) (result b) (latex b) (numeric_value b) v (variable_name b) (is_function_def b) (function_name b) (function_params b) (is_array b) (array_values b) (evaluation_status b) (error_type b) (error_message b) (evaluation_time_ms b).
Definition set_variable_name (v : option string) (b : formula) : formula :=
  mkFormula (raw b) (block_id b) (sympy_expr b) (result b) (latex b) (numeric_value b) (is_assignment b) v (is_function_def b) (function_name b) (function_params b) (is_array b) (array_values b) (evaluation_status b) (error_type b) (error_message b) (evaluation_time_ms b).
Definition set_is_function_def (v : bool) (b : formula) : formula :=
  mkFormula (raw b) (block_id b) (sympy_expr b) (result b) (latex b) (numeric_value b) (is_assignment b) (variable_name b) v (function_name b) (function_params b) (is_array b) (array_values b) (evaluation_status b) (error_type b) (error_message b) (evaluation_time_ms b).
Definition set_function_name (v : option string) (b : formula) : formula :=
  mkFormula (raw b) (block_id b) (sympy_expr b) (result b) (latex b) (numeric_value b) (is_assignment b) (variable_name b) (is_function_def b) v (function_params b) (is_array b) (array_values b) (evaluation_status b) (error_type b) (error_message b) (evaluation_time_ms b).
Definition set_function_params (v : option (list string)) (b : formula) : formula :=
  mkFormula (raw b) (block_id b) (sympy_expr b) (result b) (latex b) (numeric_value b) (is_assignment b) (variable_name b) (is_function_def b) (function_name b) v (is_array b) (array_values b) (evaluation_status b) (error_type b) (error_message b) (evaluation_time_ms b).
Definition set_is_array (v : bool) (b : formula) : formula :=
  mkFormula (raw b) (block_id b) (sympy_expr b) (result b) (latex b) (numeric_value b) (is_assignment b) (variable_name b) (is_function_def b) (function_name b) (function_params b) v (array_values b) (evaluation_status b) (error_type b) (error_message b) (evaluation_time_ms b).
Definition set_array_values (v : option (list Q)) (b : formula) : formula :=
  mkFormula (raw b) (block_id b) (sympy_expr b) (result b) (latex b) (numeric_value b) (is_assignment b) (variable_name b) (is_function_def b) (function_name b) (function_params b) (is_array b) v (evaluation_status b) (error_type b) (error_message b) (evaluation_time_ms b).
Definition set_evaluation_status (v : string) (b : formula) : formula :=
  mkFormula (raw b) (block_id b) (sympy_expr b) (result b) (latex b) (numeric_value b) (is_assignment b) (variable_name b) (is_function_def b) (function_name b) (function_params b) (is_array b) (array_values b) v (error_type b) (error_message b) (evaluation_time_ms b).
Definition set_error_type (v : option string) (b : formula) : formula :=
  mkFormula (raw b) (block_id b) (sympy_expr b) (result b) (latex b) (numeric_value b) (is_assignment b) (variable_name b) (is_function_def b) (function_name b) (function_params b) (is_array b) (array_values b) (evaluation_status b) v (error_message b) (evaluation_time_ms b).
Definition set_error_message (v : option string) (b : formula) : formula :=
  mkFormula (raw b) (block_id b) (sympy_expr b) (result b) (latex b) (numeric_value b) (is_assignment b) (variable_name b) (is_function_def b) (function_name b) (function_params b) (is_array b) (array_values b) (evaluation_status b) (error_type b) v (evaluation_time_ms b).
Definition set_evaluation_time_ms (v : option Q) (b : formula) : formula :=
  mkFormula (raw b) (block_id b) (sympy_expr b) (result b) (latex b) (numeric_value b) (is_assignment b) (variable_name b) (is_function_def b) (function_name b) (function_params b) (is_array b) (array_values b) (evaluation_status b) (error_type b) (error_message b) v.

(** [FormulaBlock(raw, block_id)] with the dataclass defaults. *)
Definition new_formula (r id : string) : formula :=
  mkFormula r id None None None None false None false None None false None "ok" None None None.

(** [Block]: [TextBlock] or [FormulaBlock]. *)
Inductive block :=
| TextBlock (raw : string) (block_id : string)
| FormulaBlock (f : formula).

Record VariableRecord := mkVariableRecord
  { vr_name : string; vr_expression : latex_text; vr_numeric_value : option Q }.
Record FunctionRecord := mkFunctionRecord
  { fr_name : string; fr_parameters : list string; fr_expression : string;
    fr_sympy_lambda : option pyval }.
Record ArrayRecord := mkArrayRecord
  { ar_name : string; ar_values : list Q; ar_expression : string }.
Record ErrorEntry := mkErrorEntry
  { err_block_id : string; err_message : string; err_type : string }.
Record LogEntry := mkLogEntry
  { log_block_id : string; log_expression : string; log_duration_ms : Q;
    log_substitutions : list (string * Q) }.

Record EvaluationContext := mkContext {
  symbols : registry;
  numeric_values : dict Q;
  functions : dict FunctionRecord;
  arrays : dict ArrayRecord;
  variables : list VariableRecord;
  errors : list ErrorEntry;
  logs : list LogEntry
}.

Definition new_context : EvaluationContext :=
  mkContext (mkRegistry [] 0) [] [] [] [] [] [].

Definition set_symbols (r : registry) (c : EvaluationContext) : EvaluationContext :=
  mkContext r (numeric_values c) (functions c) (arrays c) (variables c) (errors c) (logs c).

(** [EvaluationContext.register_variable] *)
Definition register_variable (name : string) (expression : latex_text)
           (numeric_value : option Q) (c : EvaluationContext) : EvaluationContext :=
  let '(_, reg) := reg_get (symbols c) name in
  let nv := match numeric_value with
            | Some v => dset (numeric_values c) name v
            | None => numeric_values c
            end in
  mkContext reg nv (functions c) (arrays c)
            (variables c ++ [mkVariableRecord name expression numeric_value])
            (errors c) (logs c).

(** [EvaluationContext.register_function] *)
Definition register_function (name : string) (parameters : list string) (expression : string)
           (lam : option pyval) (c : EvaluationContext) : EvaluationContext :=
  mkContext (symbols c) (numeric_values c)
            (dset (functions c) name (mkFunctionRecord name parameters expression lam))
            (arrays c) (variables c) (errors c) (logs c).

(** [EvaluationContext.register_array] *)
Definition register_array (name : string) (values : list Q) (expression : string)
           (c : EvaluationContext) : EvaluationContext :=
  mkContext (symbols c) (numeric_values c) (functions c)
            (dset (arrays c) name (mkArrayRecord name values expression))
            (variables c) (errors c) (logs c).

(** [EvaluationContext.register_error] *)
Definition register_error (block_id message error_type : string)
           (c : EvaluationContext) : EvaluationContext :=
  mkContext (symbols c) (numeric_values c) (functions c) (arrays c) (variables c)
            (errors c ++ [mkErrorEntry block_id message error_type]) (logs c).

(** [EvaluationContext.log_run] *)
Definition log_run (block_id expression : string) (duration_ms : Q)
           (substitutions : list (string * Q)) (c : EvaluationContext) : EvaluationContext :=
  mkContext (symbols c) (numeric_values c) (functions c) (arrays c) (variables c) (errors c)
            (logs c ++ [mkLogEntry block_id expression duration_ms substitutions]).

(** ** The evaluation monad: the block and the context as mutable state,
    Python exceptions as errors (state changes made before a [raise] stay). *)

Definition St := (formula * EvaluationContext)%type.
Definition B (A : Type) := St -> St * (exc + A).

Definition ret {A} (a : A) : B A := fun s => (s, inr a).
Definition raise {A} (e : exc) : B A := fun s => (s, inl e).
Definition bind {A C} (m : B A) (k : A -> B C) : B C :=
  fun s => match m s with (s', inr a) => k a s' | (s', inl e) => (s', inl e) end.

Notation "x <- m ;; k" := (bind m (fun x => k))
  (at level 61, m at next level, right associativity).
Notation "m ;;; k" := (bind m (fun _ => k)) (at level 61, right associativity).

(** [try: m except Exception as e: h(e)] *)
Definition catch {A} (m : B A) (h : exc -> B A) : B A :=
  fun s => match m s with (s', inr a) => (s', inr a) | (s', inl e) => h e s' end.

Definition lift {A} (r : exc + A) : B A :=
  fun s => match r with inr a => (s, inr a) | inl e => (s, inl e) end.

(** Reads of the attributes the code uses: [context.symbols],
    [context.numeric_values], [context.functions], [context.arrays],
    [self.block_id], [self.numeric_value]. *)
Definition get_symbols : B registry := fun s => (s, inr (symbols (snd s))).
Definition get_numeric_values : B (dict Q) := fun s => (s, inr (numeric_values (snd s))).
Definition get_functions : B (dict FunctionRecord) := fun s => (s, inr (functions (snd s))).
Definition get_arrays : B (dict ArrayRecord) := fun s => (s, inr (arrays (snd s))).
Definition get_block_id : B string := fun s => (s, inr (block_id (fst s))).
Definition get_numeric_value : B (option Q) := fun s => (s, inr (numeric_value (fst s))).
Definition upd_ctx (f : EvaluationContext -> EvaluationContext) : B unit :=
  fun s => ((fst s, f (snd s)), inr tt).
Definition upd_self (f : formula -> formula) : B unit :=
  fun s => ((f (fst s), snd s), inr tt).

(** ** [FormulaBlock._safe_sympify] and [FormulaBlock._parse_conditional_expr] *)

(** Whether the source text of a node holds a letter (a name or a keyword). *)
Fixpoint expr_has_letter (e : expr) : bool :=
  match e with
  | ENum _ => false
  | EName _ | EConst _ | EBoolOp _ _ | EIfExp _ _ _ | EUnaryOp UNot _ => true
  | EBinOp _ a b => expr_has_letter a || expr_has_letter b
  | EUnaryOp _ a => expr_has_letter a
  | ECompare a rest => expr_has_letter a || existsb (fun '(_, x) => expr_has_letter x) rest
  | ECall f args => expr_has_letter f || existsb expr_has_letter args
  | EList l => existsb expr_has_letter l
  end.

(** The registry side of [_safe_sympify], run when the text has a letter. *)
Definition prepare_symbols : B unit :=
  fs <- get_functions ;;
  upd_ctx (fun c => set_symbols (prepare_registry (map fst fs) (symbols c)) c).

(** [parse_expr] of a parsed text, after the registry preparation. *)
Definition sympify_node (x : expr) (letters : bool) : B sterm :=
  if letters then
    prepare_symbols ;;; r <- get_symbols ;; lift (sympify (reg_map r) x)
  else lift (sympify [] x).

(** [_safe_sympify(expression, context, allow_conditional=False)] *)
Definition safe_sympify_plain (expression : string) : B sterm :=
  let e := normalize_expression (strip expression) in
  match parse_expression e with
  | Some x => sympify_node x (has_letter e)
  | None => if has_letter e then prepare_symbols ;;; raise SyntaxError else raise SyntaxError
  end.

(** [_convert_expr] of [_parse_conditional_expr]: an [IfExp] becomes a
    [Piecewise], a [Compare] its relations (joined by [And]); the source
    segment of any other node is normalized and goes through
    [_safe_sympify(..., allow_conditional=False)]. *)
Fixpoint convert_expr (x : cnode) : B sterm :=
  let fix convert_list (l : list (cmpop * cnode)) : B (list sterm) :=
    match l with
    | [] => ret []
    | (_, y) :: r => y' <- convert_expr y ;; r' <- convert_list r ;; ret (y' :: r')
    end in
  match x with
  | CIf t b o =>
      test <- convert_expr t ;; body <- convert_expr b ;; orelse <- convert_expr o ;;
      lift (s_piecewise [(body, test); (orelse, SBool true)])
  | CCmp l rest =>
      left <- convert_expr l ;;
      comparators <- convert_list rest ;;
      let fix relations (cur : sterm) (ops : list cmpop) (cs : list sterm) : exc + list sterm :=
        match ops, cs with
        | o :: ops', c :: cs' => r <-! s_rel o cur c ;; rs <-! relations c ops' cs' ;; inr (r :: rs)
        | _, _ => inr []
        end in
      rels <- lift (relations left (map fst rest) comparators) ;;
      match rels with
      | [r] => ret r
      | [] => raise Unmodelled
      | _ => lift (s_and rels)
      end
  | CSeg src => safe_sympify_plain (normalize_expression src)
  end.

(** [_extract_branch_expr] *)
Definition extract_branch_expr (body : list stmt) : B (option sterm) :=
  match body with
  | [SExpr e] => t <- convert_expr e ;; ret (Some t)
  | _ => ret None
  end.

(** The [if]/[elif]/[else] loop of [_parse_conditional_expr]: the pairs of
    the chain starting at [current], appended to [branches]. *)
Fixpoint if_chain (branches : list (sterm * sterm)) (current : stmt)
  : B (option (list (sterm * sterm))) :=
  match current with
  | SIf test body orelse =>
      body_expr <- extract_branch_expr body ;;
      match body_expr with
      | None => ret None
      | Some be =>
          test_expr <- convert_expr test ;;
          let branches' := branches ++ [(be, test_expr)] in
          let with_else :=
              orelse_expr <- extract_branch_expr orelse ;;
              match orelse_expr with
              | None => ret None
              | Some oe => ret (Some (branches' ++ [(oe, SBool true)]))
              end in
          match orelse with
          | [next] => match next with
                      | SIf _ _ _ => if_chain branches' next
                      | _ => with_else
                      end
          | [] => ret (Some (branches' ++ [(SNaN, SBool true)]))
          | _ => with_else
          end
      end
  | _ => ret None
  end.

(** [_parse_conditional_expr] on a parsed module. *)
Definition parse_conditional_tree (tree : list stmt) : B (option sterm) :=
  match tree with
  | [SExpr (CIf _ _ _ as e)] => t <- convert_expr e ;; ret (Some t)
  | [SExpr _] => ret None
  | [SIf _ _ _ as first] =>
      r <- if_chain [] first ;;
      match r with
      | None => ret None
      | Some branches => t <- lift (s_piecewise branches) ;; ret (Some t)
      end
  | _ => ret None
  end.

Definition parse_conditional_expr (expression : string) : B (option sterm) :=
  match ast_parse expression with
  | None => ret None
  | Some tree => parse_conditional_tree tree
  end.

(** [_safe_sympify(expression, context)] *)
Definition safe_sympify (expression : string) : B sterm :=
  pw <- parse_conditional_expr (strip expression) ;;
  match pw with
  | Some t => ret t
  | None => safe_sympify_plain expression
  end.

(** ** [FormulaBlock._evaluate_numeric] *)

(** What [_evaluate_numeric] returns on success: a Python value from [eval],
    or a SymPy object from the fallback. *)
Inductive nres := NPy (v : pyval) | NSym (t : sterm).

(** The [env] of [_evaluate_numeric]: [math_env()], the user functions that
    have a callable, then ([setdefault]) numeric values and arrays. *)
Definition numeric_env (fs : dict FunctionRecord) (nv : dict Q) (ar : dict ArrayRecord) : dict pyval :=
  let env1 := fold_left (fun env '(fn, fr) =>
                match fr_sympy_lambda fr with Some f => dset env fn f | None => env end)
                fs math_env in
  let env2 := fold_left (fun env '(n, v) => dsetdefault env n (VNum v)) nv env1 in
  fold_left (fun env '(n, a) => dsetdefault env n (VList (map VNum (ar_values a)))) ar env2.

(** The SymPy fallback: [_safe_sympify], [subs(numeric_values)], [sp.N]. *)
Definition sympy_fallback (expression : string) : B (exc + nres) :=
  catch (t <- safe_sympify expression ;;
         nv <- get_numeric_values ;;
         s <- lift (s_subs nv t) ;;
         ret (inr (NSym s)))
        (fun e => ret (inl e)).

Definition evaluate_numeric (expression : string) : B (exc + nres) :=
  fs <- get_functions ;; nv <- get_numeric_values ;; ar <- get_arrays ;;
  let env := numeric_env fs nv ar in
  let ex := of_chars (caret_to_pow (chars (normalize_expression expression))) in
  match parse_expression ex with
  | None => sympy_fallback expression
  | Some x =>
      match py_eval py_fuel false env x with
      | inr v => ret (inr (NPy v))
      | inl (NameError _) =>
          let env' := fold_left (fun env '(n, v) => dset env n (VNum v)) nv env in
          match py_eval py_fuel false env' x with
          | inr v => ret (inr (NPy v))
          | inl _ => sympy_fallback expression
          end
      | inl e => ret (inl e)
      end
  end.

(** ** Classification helpers *)

Definition is_identifier (s : string) : bool :=
  match chars s with
  | c :: r => is_ident_start c && forallb is_ident_char r
  | [] => false
  end.

Fixpoint split_on (sep : ascii) (l : list ascii) : list (list ascii) :=
  match l with
  | [] => [[]]
  | c :: r => if Ascii.eqb c sep then [] :: split_on sep r
              else match split_on sep r with
                   | w :: ws => (c :: w) :: ws
                   | [] => [[c]]
                   end
  end.

(** [FormulaBlock._parse_function_definition]: [name(p1, p2, ...)] with at
    least one parameter, every parameter an identifier. *)
Definition parse_function_definition (lhs : string) : option (string * list string) :=
  match chars (strip lhs) with
  | (c :: _) as cs =>
      if negb (is_ident_start c) then None else
      let (name, r) := span is_ident_char cs in
      match drop_spaces r with
      | "("%char :: r' =>
          let (inner, after) := span (fun d => negb (Ascii.eqb d ")")) r' in
          match after with
          | [")"%char] =>
              let params_str := strip (of_chars inner) in
              if String.eqb params_str "" then None else
              let params := filter (fun p => negb (String.eqb p ""))
                              (map (fun w => strip (of_chars w)) (split_on ","%char (chars params_str))) in
              match params with
              | [] => None
              | _ => if forallb is_identifier params then Some (of_chars name, params) else None
              end
          | _ => None
          end
      | _ => None
      end
  | [] => None
  end.

(** [float(text)] on a decimal literal with an optional sign (exponents,
    [inf], [nan] and digit separators are outside the model). *)
Definition py_float (s : string) : option Q :=
  let l := chars s in
  let '(sign, l1) := match l with
                     | "-"%char :: r => ((-1)%Q, r)
                     | "+"%char :: r => (1%Q, r)
                     | _ => (1%Q, l)
                     end in
  let (ds, r) := span is_digit l1 in
  match r with
  | [] => match ds with [] => None | _ => Some (sign * inject_Z (digits_Z ds))%Q end
  | "."%char :: r' =>
      let (fs, r'') := span is_digit r' in
      match r'', ds, fs with
      | [], [], [] => None
      | [], _, _ => Some (sign * Qmake (digits_Z (ds ++ fs))
                                       (Pos.of_nat (Nat.pow 10 (List.length fs))))%Q
      | _, _, _ => None
      end
  | _ => None
  end.

(** [FormulaBlock._parse_assignment] *)
Definition parse_assignment (rhs : string) : B (option sterm) :=
  let rhs := strip rhs in
  match py_float rhs with
  | Some q => ret (Some (SNum q))
  | None => catch (t <- safe_sympify rhs ;; ret (Some t)) (fun _ => ret None)
  end.

(** [float(v)] for each element of a list result. *)
Fixpoint floats (l : list pyval) : exc + list Q :=
  match l with
  | [] => inr []
  | v :: r =>
      q <-! match to_num v with
            | Some q => inr q
            | None => match v with VConst _ => inl Unmodelled | _ => inl TypeError end
            end ;;
      r' <-! floats r ;; inr (q :: r')
  end.

Fixpoint insert_sorted (s : string) (l : list string) : list string :=
  match l with
  | [] => [s]
  | x :: r => if String.eqb s x then l
              else if String.ltb s x then s :: l else x :: insert_sorted s r
  end.

(** [sorted({str(s) for s in expr.free_symbols})] *)
Definition sorted_names (l : list string) : list string := fold_right insert_sorted [] l.

(** ** [FormulaBlock.evaluate] *)

Definition set_error_fields (prefix : string) (e : exc) : B unit :=
  upd_self (fun b => set_error_message (Some (exc_str e))
                       (set_error_type (Some (exc_name e))
                          (set_evaluation_status "error"
                             (set_result (Some (RError prefix e)) b)))).

(** [context.register_error(block_id=self.block_id, message=self.error_message,
    error_type=self.error_type)] *)
Definition register_own_error (e : exc) : B unit :=
  bid <- get_block_id ;; upd_ctx (register_error bid (exc_str e) (exc_name e)).

Definition set_number (q : Q) : B unit :=
  upd_self (set_numeric_value (Some q)) ;;; upd_self (set_result (Some (RFixed2 q))).

(** [FormulaBlock._handle_evaluation_error] (always called with a name). *)
Definition handle_evaluation_error (e : exc) (expr_latex : latex_text) (lhs : string) : B unit :=
  set_error_fields "Error evaluating: " e ;;;
  upd_self (set_latex (Some (LAssign (LSym lhs) expr_latex))) ;;;
  upd_ctx (register_variable lhs expr_latex None) ;;;
  register_own_error e.

(** The function-definition branch of [evaluate], with its own [try]. *)
Definition function_definition (fname : string) (params : list string) (lhs rhs : string) : B unit :=
  upd_self (set_is_function_def true) ;;;
  upd_self (set_function_name (Some fname)) ;;;
  upd_self (set_function_params (Some params)) ;;;
  catch
    (upd_ctx (fun c => set_symbols (fold_left (fun r p => reg_set r p (OSymbol p)) params (symbols c)) c) ;;;
     func_expr <- safe_sympify rhs ;;
     upd_self (set_sympy_expr (Some func_expr)) ;;;
     nv <- get_numeric_values ;; fs <- get_functions ;;
     func_expr_for_lambda <- lift (s_subs nv func_expr) ;;
     let lambda_env :=
       fold_left (fun env '(_, fr) =>
                    match fr_sympy_lambda fr with Some f => dset env (fr_name fr) f | None => env end)
                 fs
                 (fold_left (fun env '(n, v) => dset env n (VNum v)) nv math_env) in
     body <- lift (match print_python func_expr_for_lambda with
                   | Some x => if Nat.eqb (List.length (sorted_names params)) (List.length params)
                               then inr x else inl SyntaxError
                   | None => inl Unmodelled
                   end) ;;
     upd_ctx (register_function fname params rhs (Some (VFun params body lambda_env))) ;;;
     upd_self (set_result (Some (RFunDefined fname params))) ;;;
     upd_self (set_latex (Some (LFunDef (LSym fname) (map LSym params) (LClean (LTermMul func_expr))))))
    (fun e =>
     upd_self (set_result (Some (RError "Error defining function: " e))) ;;;
     upd_self (set_evaluation_status "error") ;;;
     upd_self (set_error_type (Some (exc_name e))) ;;;
     upd_self (set_error_message (Some (exc_str e))) ;;;
     upd_self (set_latex (Some (LAssign (LSym lhs) (LEscaped rhs)))) ;;;
     register_own_error e).

(** [substitution = self.sympy_expr.subs(...)]; [evaluated = sp.N(...)] in
    the assignment branch. *)
Definition assignment_symbolic (se : option sterm) : B unit :=
  match se with
  | None => raise AttributeError
  | Some t =>
      nv <- get_numeric_values ;;
      ev <- lift (s_subs nv t) ;;
      match s_real ev with
      | Some q => set_number q
      | None => upd_self (set_result (Some (RStr ev)))
      end
  end.

Definition classify_assignment (lhs rhs : string) (se : option sterm) (v : nres) : B unit :=
  match v with
  | NPy (VList l) =>
      vals <- lift (floats l) ;;
      upd_self (set_is_array true) ;;;
      upd_self (set_array_values (Some vals)) ;;;
      upd_ctx (register_array lhs vals rhs) ;;;
      upd_self (set_result (Some (RArray vals)))
  | NPy (VConst _) => raise Unmodelled
  | NPy x => match to_num x with
             | Some q => set_number q
             | None => assignment_symbolic se
             end
  | NSym t => match s_real t with
              | Some q => set_number q
              | None => assignment_symbolic se
              end
  end.

(** The assignment branch of [evaluate]. *)
Definition assignment (lhs rhs : string) : B unit :=
  upd_self (set_is_assignment true) ;;;
  upd_self (set_variable_name (Some lhs)) ;;;
  se <- parse_assignment rhs ;;
  upd_self (set_sympy_expr se) ;;;
  r <- evaluate_numeric rhs ;;
  match r with
  | inl err =>
      handle_evaluation_error err (match se with Some t => LTerm t | None => LEscaped rhs end) lhs
  | inr v =>
      classify_assignment lhs rhs se v ;;;
      nval <- get_numeric_value ;;
      let expr_latex := LClean (match se with Some t => LTermMul t | None => LEscaped rhs end) in
      upd_self (set_latex (Some (LAssign (LSym lhs) expr_latex))) ;;;
      upd_ctx (register_variable lhs expr_latex nval)
  end.

(** The plain-expression branch: [substitution]/[evaluated] when [eval] gave
    no number. *)
Definition plain_symbolic (se : sterm) : B unit :=
  nv <- get_numeric_values ;;
  ev <- lift (s_subs nv se) ;;
  upd_self (set_result (Some (RStr ev))) ;;;
  match s_real ev with
  | Some q => upd_self (set_numeric_value (Some q))
  | None => ret tt
  end.

Definition plain_expression (raw : string) : B unit :=
  se <- safe_sympify raw ;;
  upd_self (set_sympy_expr (Some se)) ;;;
  r <- evaluate_numeric raw ;;
  match r with
  | inl err =>
      set_error_fields "Error evaluating: " err ;;;
      upd_self (set_latex (Some (LTerm se))) ;;;
      register_own_error err
  | inr v =>
      (match v with
       | NPy (VConst _) => raise Unmodelled
       | NPy x => match to_num x with Some q => set_number q | None => plain_symbolic se end
       | NSym t => match s_real t with Some q => set_number q | None => plain_symbolic se end
       end) ;;;
      upd_self (set_latex (Some (LClean (LTermMul se))))
  end.

(** The body of the [try] of [evaluate] on the stripped text. *)
Definition evaluate_body (raw : string) : B unit :=
  match find_assign raw with
  | Some i =>
      let lhs := strip (substring 0 i raw) in
      let rhs := strip (substring (S i) (String.length raw) raw) in
      if String.eqb lhs "" then plain_expression raw else
      match parse_function_definition lhs with
      | Some (fname, params) => function_definition fname params lhs rhs
      | None => assignment lhs rhs
      end
  | None => plain_expression raw
  end.

(** [NotebookOptions]: a render-only switch, unused by the evaluation. *)
Record NotebookOptions := mkOptions { hide_logs : bool }.
Definition default_options : NotebookOptions := mkOptions false.

(** The fields [evaluate] resets before it starts. *)
Definition reset_fields (f : formula) : formula :=
  set_evaluation_time_ms None (set_error_message None (set_error_type None
    (set_evaluation_status "ok" (set_numeric_value None (set_variable_name None
      (set_is_assignment false f)))))).

(** [FormulaBlock.evaluate(context, options)]; [duration] is the time
    [perf_counter] measures for the run, in milliseconds. *)
Definition evaluate (options : NotebookOptions) (duration : Q) (f : formula)
           (c : EvaluationContext) : formula * EvaluationContext :=
  let f0 := reset_fields f in
  let raw_text := strip (raw f0) in
  let '((f1, c1), res) := evaluate_body raw_text (f0, c) in
  let '(f2, c2) :=
    match res with
    | inr _ => (f1, c1)
    | inl e =>
        let f' := set_error_message (Some (exc_str e)) (set_error_type (Some (exc_name e))
                    (set_evaluation_status "error" (set_latex None
                      (set_result (Some (RError "Error: " e)) (set_sympy_expr None f1))))) in
        (f', register_error (block_id f') (exc_str e) (exc_name e) c1)
    end in
  let f3 := set_evaluation_time_ms (Some duration) f2 in
  let substitutions :=
    match sympy_expr f3 with
    | Some t => flat_map (fun n => match dget (numeric_values c2) n with
                                   | Some v => [(n, v)] | None => [] end)
                         (sorted_names (free_symbols t))
    | None => []
    end in
  (f3, log_run (block_id f3) raw_text duration substitutions c2).

(** ** [Document] *)

Record Document := mkDocument {
  blocks : list block;
  undo_stack : list (list block);
  redo_stack : list (list block)
}.

Fixpoint evaluate_blocks (options : NotebookOptions) (durations : nat -> Q) (i : nat)
         (bs : list block) (c : EvaluationContext) : list block * EvaluationContext :=
  match bs with
  | [] => ([], c)
  | FormulaBlock f :: r =>
      let '(f', c') := evaluate options (durations i) f c in
      let '(r', c'') := evaluate_blocks options durations (S i) r c' in
      (FormulaBlock f' :: r', c'')
  | TextBlock t id :: r =>
      let '(r', c') := evaluate_blocks options durations (S i) r c in
      (TextBlock t id :: r', c')
  end.

(** [Document.evaluate(options)]: a fresh context threaded through the
    blocks in order; the blocks are updated in place. *)
Definition document_evaluate (options : NotebookOptions) (durations : nat -> Q) (d : Document)
  : Document * EvaluationContext :=
  let '(bs, c) := evaluate_blocks options durations 0 (blocks d) new_context in
  (mkDocument bs (undo_stack d) (redo_stack d), c).

(** *** Persistence of blocks: [Block.to_dict] and [Block.from_dict] *)

(** The payload dict of [to_dict]: [type], [raw], [id] and, for a
    [FormulaBlock], [result], [latex], [numeric_value], [is_assignment] and
    [variable_name]. *)
Record block_payload := mkPayload {
  p_type : string;
  p_raw : string;
  p_id : string;
  p_formula : option (option display * option latex_text * option Q * bool * option string)
}.

Definition block_to_dict (b : block) : block_payload :=
  match b with
  | TextBlock r id => mkPayload "TextBlock" r id None
  | FormulaBlock f =>
      mkPayload "FormulaBlock" (raw f) (block_id f)
                (Some (result f, latex f, numeric_value f, is_assignment f, variable_name f))
  end.

(** [Block.from_dict]: a missing key reads as its [payload.get] default. *)
Definition block_from_dict (p : block_payload) : block :=
  if String.eqb (p_type p) "FormulaBlock" then
    let '(r, l, n, a, v) :=
      match p_formula p with Some x => x | None => (None, None, None, false, None) end in
    FormulaBlock (mkFormula (p_raw p) (p_id p) None r l n a v
                            false None None false None "ok" None None None)
  else TextBlock (p_raw p) (p_id p).

(** [[Block.from_dict(block.to_dict()) for block in blocks]] *)
Definition snapshot (bs : list block) : list block :=
  map (fun b => block_from_dict (block_to_dict b)) bs.

(** *** History: [_push_history], [add_block], [undo], [redo] *)

Definition HISTORY_LIMIT : nat := 20.

(** The Python lists [_undo_stack] and [_redo_stack] have their top at the
    end: [append] adds there and [pop()] takes from there. *)
Definition pop_last {A} (l : list A) : option (A * list A) :=
  match rev l with
  | [] => None
  | x :: r => Some (x, rev r)
  end.

Definition push_history (d : Document) : Document :=
  let u := undo_stack d ++ [snapshot (blocks d)] in
  mkDocument (blocks d)
             (if Nat.ltb HISTORY_LIMIT (List.length u) then tl u else u)
             (redo_stack d).

Definition add_block (b : block) (d : Document) : Document :=
  let d1 := push_history d in
  mkDocument (blocks d1 ++ [b]) (undo_stack d1) [].

Definition undo (d : Document) : bool * Document :=
  match pop_last (undo_stack d) with
  | None => (false, d)
  | Some (prev, u) => (true, mkDocument prev u (redo_stack d ++ [snapshot (blocks d)]))
  end.

Definition redo (d : Document) : bool * Document :=
  match pop_last (redo_stack d) with
  | None => (false, d)
  | Some (next, r) => (true, mkDocument next (undo_stack d ++ [snapshot (blocks d)]) r)
  end.

(** [for b in bs: document.add_block(b)] *)
Definition add_blocks (bs : list block) (d : Document) : Document :=
  fold_left (fun d b => add_block b d) bs d.

(** The snapshots [_push_history] takes while [bs] are added one by one to
    the block list [L]. *)
Fixpoint history_of (L : list block) (bs : list block) : list (list block) :=
  match bs with
  | [] => []
  | b :: r => snapshot L :: history_of (L ++ [b]) r
  end.

(** [n] calls of [document.undo()], with the values they return. *)
Fixpoint undo_n (n : nat) (d : Document) : list bool * Document :=
  match n with
  | O => ([], d)
  | S n' =>
      let '(ok, d1) := undo d in
      let '(oks, d2) := undo_n n' d1 in
      (ok :: oks, d2)
  end.

(** ** Documents and projections used by the statements below *)

(** [FormulaBlock(raw)] with a given [block_id]. *)
Definition fblock (r id : string) : block := FormulaBlock (new_formula r id).

(** [Document(blocks=bs)] with empty histories. *)
Definition document_of (bs : list block) : Document := mkDocument bs [] [].

(** The [FormulaBlock]s of a block list, in order. *)
Definition formulas (bs : list block) : list formula :=
  flat_map (fun b => match b with FormulaBlock f => [f] | TextBlock _ _ => [] end) bs.

(** The fields a reader of the evaluated document sees. *)
Definition outputs (f : formula) : option Q * option display * option latex_text :=
  (numeric_value f, result f, latex f).

Definition status_of (f : formula) : string * option Q := (evaluation_status f, numeric_value f).

Definition failure_isolation_doc : Document :=
  document_of [fblock "X = 5 / 0" "b1"; fblock "Y = 2 + 2" "b2"].

Definition unit_literal_doc : Document := document_of [fblock "M = 3500 N*m" "b1"].

Definition forward_reference_doc : Document :=
  document_of [fblock "y = x + 1" "b1"; fblock "x = 2" "b2"].

Definition reordered_reference_doc : Document :=
  document_of [fblock "x = 2" "b2"; fblock "y = x + 1" "b1"].

(** A forward reference through a call. *)
Definition forward_call_doc : Document :=
  document_of [fblock "y = x(2)" "b1"; fblock "x = 2" "b2"].

Definition reassignment_doc : Document :=
  document_of [fblock "a = 2" "b1"; fblock "a = 5/0" "b2"; fblock "b = a" "b3"].

Definition composition_doc : Document :=
  document_of [fblock "f(x) = x**2" "b1"; fblock "g(x) = f(x) + 10" "b2"; fblock "g(3)" "b3"].

(** ** The registry operations of one evaluation context

    Every change the pipeline makes to [context.symbols]: a lookup
    [symbols[name]] (which inserts through [__missing__]), the preparation
    [_safe_sympify] runs before [parse_expr], and the binding of a function
    parameter [context.symbols[p] = sp.Symbol(p)]. *)
Inductive reg_op :=
| OpLookup (name : string)
| OpPrepare (function_names : list string)
| OpBindParam (p : string).

Definition run_reg_op (r : registry) (op : reg_op) : registry :=
  match op with
  | OpLookup n => snd (reg_get r n)
  | OpPrepare fs => prepare_registry fs r
  | OpBindParam p => reg_set r p (OSymbol p)
  end.

Definition run_reg_ops (ops : list reg_op) (r : registry) : registry :=
  fold_left run_reg_op ops r.

(** An operation that does not bind a parameter named [k]. *)
Definition binds_param_other (k : string) (op : reg_op) : bool :=
  match op with OpBindParam p => negb (String.eqb p k) | _ => true end.

(** ** Reading a [Piecewise] under bindings

    The condition of a pair as [ExprCondPair] stores it, after
    [subs(numeric_values)]; [Some b] when it is decided. *)
Definition cond_value (nv : dict Q) (c : sterm) : option bool :=
  match (c' <-! piece_cond c ;; s_subs nv c') with
  | inr (SBool b) => Some b
  | _ => None
  end.

Definition value_ok (t : sterm) : bool :=
  match t with SList _ | SFunObj _ => false | _ => true end.

(** A pair whose condition is decided and whose value substitutes. *)
Definition pair_decided (nv : dict Q) (p : sterm * sterm) : bool :=
  let '(v, c) := p in
  match cond_value nv c, s_subs nv v with
  | Some _, inr v' => value_ok v'
  | _, _ => false
  end.

(** The value of the first pair whose condition holds; [nan] if none does. *)
Fixpoint pw_select (nv : dict Q) (ps : list (sterm * sterm)) : sterm :=
  match ps with
  | [] => SNaN
  | (v, c) :: r =>
      match cond_value nv c with
      | Some true => match s_subs nv v with inr v' => v' | inl _ => SNaN end
      | _ => pw_select nv r
      end
  end.

(** The branches of an [if] statement in source order, as the loop of
    [_parse_conditional_expr] walks them: the (body, test) nodes of the
    [if] and of each [elif], and the node of the [else] if there is one;
    [None] when a body or the [else] is not a single expression. *)
Fixpoint chain_branches (st : stmt) : option (list (cnode * cnode) * option cnode) :=
  match st with
  | SIf test [SExpr b] orelse =>
      match orelse with
      | [] => Some ([(b, test)], None)
      | [next] =>
          match next with
          | SIf _ _ _ =>
              match chain_branches next with
              | Some (l, last) => Some ((b, test) :: l, last)
              | None => None
              end
          | SExpr o => Some ([(b, test)], Some o)
          end
      | _ => None
      end
  | _ => None
  end.

(** The branches of a conditional module: an inline [b if t else o], or an
    [if]/[elif]/[else] statement. *)
Definition tree_branches (tree : list stmt) : option (list (cnode * cnode) * option cnode) :=
  match tree with
  | [SExpr (CIf t b o)] => Some ([(b, t)], Some o)
  | [SIf _ _ _ as first] => chain_branches first
  | _ => None
  end.

(** [_convert_expr] turns the node [n] into [v] (from some state). *)
Definition converts (n : cnode) (v : sterm) : Prop :=
  exists s1 s2, convert_expr n s1 = (s2, inr v).

(** The pairs loop of [s_subs] on a [Piecewise]. *)
Fixpoint subs_pairs (nv : dict Q) (l : list (sterm * sterm)) : exc + list (sterm * sterm) :=
  match l with
  | [] => inr []
  | (v, c) :: r => v' <-! s_subs nv v ;; c' <-! s_subs nv c ;; r' <-! subs_pairs nv r ;;
                   inr ((v', c') :: r')
  end.

(** A condition that evaluates to [false] under the bindings. *)
Definition cond_fails (nv : dict Q) (c : sterm) : bool :=
  match cond_value nv c with Some false => true | _ => false end.

(** An [if]/[elif] chain with no [else]. *)
Definition no_else_text : string :=
  "if x > 0:" ++ String "010" "    1" ++ String "010" "elif x > 5:" ++ String "010" "    2".

(** The same chain as [ast.parse] gives it. *)
Definition no_else_chain : list stmt :=
  [SIf (CCmp (CSeg "x") [(Gt, CSeg "0")]) [SExpr (CSeg "1")]
       [SIf (CCmp (CSeg "x") [(Gt, CSeg "5")]) [SExpr (CSeg "2")] []]].

Definition no_else_piecewise : sterm :=
  SPiecewise [(SNum 1, SRel Gt (SSym "x") (SNum 0)); (SNum 2, SRel Gt (SSym "x") (SNum 5));
              (SNaN, SBool true)].

Definition conditional_state : St := (new_formula "" "", new_context).

(** The multi-line conditionals of [test_numeric_eval.py], with the
    leading and trailing newline of their triple-quoted text. *)
Definition multiline_conditional_doc : Document :=
  document_of
    [fblock "x = -1" "b1";
     fblock (String "010" ("if x > 0:" ++ String "010" ("    10" ++ String "010" ("elif x > -2:"
               ++ String "010" ("    20" ++ String "010" ("else:" ++ String "010" ("    30"
               ++ String "010" ""))))))) "b2"].

Definition multiline_equality_doc : Document :=
  document_of
    [fblock "x = -3" "b1";
     fblock (String "010" ("if x > 0:" ++ String "010" ("    10" ++ String "010" ("elif x == -3:"
               ++ String "010" ("    30" ++ String "010" ("else:" ++ String "010" ("    -5"
               ++ String "010" ""))))))) "b2"].

(** A ternary whose condition is a Python [and]. *)
Definition and_condition_doc : Document :=
  document_of [fblock "x = 3" "b1"; fblock "1 if x > 0 and x < 5 else 2" "b2"].

Definition plain_condition_doc : Document :=
  document_of [fblock "x = 3" "b1"; fblock "1 if x > 0 else 2" "b2"].

(** A [FormulaBlock] with non-default values in the fields a snapshot drops. *)
Definition stale_function_block : formula :=
  mkFormula "f(x) = x**2" "b1" (Some (SPow (SSym "x") (SNum 2))) (Some (RFunDefined "f" ["x"]))
            None None false None true (Some "f") (Some ["x"]) false None "ok" None None (Some 1%Q).

(** ** What a run reads: the relation between two runs of the evaluation

    [view] gathers the block attributes the pipeline reads or resets;
    [result] and [latex] are written, never read, and [follows] says a
    field was either written alike in both runs or left as it was. *)
Definition view (f : formula) :=
  (raw f, block_id f, numeric_value f, is_assignment f, variable_name f,
   evaluation_status f, error_type f, error_message f, evaluation_time_ms f).

Definition follows {T} (x : formula -> T) (f g f' g' : formula) : Prop :=
  x f' = x g' \/ (x f' = x f /\ x g' = x g).

(** The text and the id of a block, which no run changes. *)
Definition key (f : formula) : string * string := (raw f, block_id f).

(** The context without its timing logs, which nothing reads back. *)
Definition drop_logs (c : EvaluationContext) : EvaluationContext :=
  mkContext (symbols c) (numeric_values c) (functions c) (arrays c) (variables c) (errors c) [].

Definition oblivious {A} (m : B A) : Prop :=
  forall f g c c',
    view f = view g -> drop_logs c = drop_logs c' ->
    let '((f', c1), r1) := m (f, c) in
    let '((g', c2), r2) := m (g, c') in
    r1 = r2 /\ drop_logs c1 = drop_logs c2 /\ view f' = view g' /\
    follows result f g f' g' /\ follows latex f g f' g' /\ key f' = key f.

Definition ctx_respectful (F : EvaluationContext -> EvaluationContext) : Prop :=
  forall c c', drop_logs c = drop_logs c' -> drop_logs (F c) = drop_logs (F c').

Definition self_respectful (u : formula -> formula) : Prop :=
  forall f g, view f = view g ->
    view (u f) = view (u g) /\ follows result f g (u f) (u g) /\ follows latex f g (u f) (u g) /\
    key (u f) = key f.

(** ** Editing helpers of [Document] *)

(** [list.pop(i)] for an index in range: the list without its [i]-th element. *)
Definition list_remove {A} (i : nat) (l : list A) : list A := firstn i l ++ skipn (S i) l.

(** [list.insert(i, x)] for [i >= 0]: [x] at position [i], at the end when [i] is past it. *)
Definition list_insert {A} (i : nat) (x : A) (l : list A) : list A := firstn i l ++ x :: skipn i l.

(** [Document.move_block(from_idx, to_idx)] *)
Definition move_block (from_idx to_idx : Z) (d : Document) : bool * Document :=
  let n := Z.of_nat (List.length (blocks d)) in
  if negb (Z.leb 0 from_idx && Z.ltb from_idx n) then (false, d) else
  let to_idx := Z.max 0 (Z.min (n - 1) to_idx) in
  if Z.eqb from_idx to_idx then (false, d) else
  let d1 := push_history d in
  match nth_error (blocks d1) (Z.to_nat from_idx) with
  | Some b =>
      (true, mkDocument (list_insert (Z.to_nat to_idx) b (list_remove (Z.to_nat from_idx) (blocks d1)))
                        (undo_stack d1) [])
  | None => (false, d) (* not reached: [from_idx] is in range *)
  end.

(** [Document.delete_block(index)] *)
Definition delete_block (index : Z) (d : Document) : bool * Document :=
  let n := Z.of_nat (List.length (blocks d)) in
  if negb (Z.leb 0 index && Z.ltb index n) then (false, d) else
  let d1 := push_history d in
  (true, mkDocument (list_remove (Z.to_nat index) (blocks d1)) (undo_stack d1) []).

(** [Document.insert_block(index, block)] *)
Definition insert_block (index : Z) (b : block) (d : Document) : bool * Document :=
  let n := Z.of_nat (List.length (blocks d)) in
  if negb (Z.leb 0 index && Z.leb index n) then (false, d) else
  let d1 := push_history d in
  (true, mkDocument (list_insert (Z.to_nat index) b (blocks d1)) (undo_stack d1) []).

(** The operations a user applies to a document. *)
Inductive doc_op :=
| DAdd (b : block)
| DInsert (index : Z) (b : block)
| DDelete (index : Z)
| DMove (from_idx to_idx : Z)
| DUndo
| DRedo
| DEvaluate (options : NotebookOptions) (durations : nat -> Q).

Definition run_doc_op (d : Document) (op : doc_op) : Document :=
  match op with
  | DAdd b => add_block b d
  | DInsert i b => snd (insert_block i b d)
  | DDelete i => snd (delete_block i d)
  | DMove i j => snd (move_block i j d)
  | DUndo => snd (undo d)
  | DRedo => snd (redo d)
  | DEvaluate o ds => fst (document_evaluate o ds d)
  end.

Definition run_doc_ops (ops : list doc_op) (d : Document) : Document :=
  fold_left run_doc_op ops d.

(** The editing operations, with the value they return ([add_block]
    returns nothing and always edits). *)
Inductive edit_op :=
| EAdd (b : block)
| EInsert (index : Z) (b : block)
| EDelete (index : Z)
| EMove (from_idx to_idx : Z).

Definition run_edit (e : edit_op) (d : Document) : bool * Document :=
  match e with
  | EAdd b => (true, add_block b d)
  | EInsert i b => insert_block i b d
  | EDelete i => delete_block i d
  | EMove i j => move_block i j d
  end.

(** *** Persistence of documents: [Document.to_dict] and [Document.from_dict] *)

(** The payload dict of a document: [version] and [blocks], each possibly missing. *)
Record doc_payload := mkDocPayload {
  dp_version : option Z;
  dp_blocks : option (list block_payload)
}.

Definition document_to_dict (d : Document) : doc_payload :=
  mkDocPayload (Some 1%Z) (Some (map block_to_dict (blocks d))).

Definition document_from_dict (p : doc_payload) : Document :=
  mkDocument (map block_from_dict (match dp_blocks p with Some l => l | None => [] end)) [] [].

(** ** What one evaluation adds to the context *)

(** From [s] to [s']: the block keeps its id, the logs are unchanged, and the
    errors only grow, by entries that carry the block's id. *)
Definition grows_in (s s' : St) : Prop :=
  block_id (fst s') = block_id (fst s) /\ logs (snd s') = logs (snd s) /\
  exists es, errors (snd s') = errors (snd s) ++ es /\
             Forall (fun e => err_block_id e = block_id (fst s)) es.

Definition keeps_logs {A} (m : B A) : Prop := forall s, grows_in s (fst (m s)).

Definition is_formula_block (b : block) : bool :=
  match b with FormulaBlock _ => true | TextBlock _ _ => false end.

(** What [Document.evaluate] may change in a block: a [TextBlock] stays as
    it is, a [FormulaBlock] keeps its text and id. *)
Definition same_shape (b b' : block) : Prop :=
  match b, b' with
  | TextBlock _ _, _ => b' = b
  | FormulaBlock f, FormulaBlock f' => key f' = key f
  | FormulaBlock _, TextBlock _ _ => False
  end.

(** The regular expression [(?<![<>=!])=(?![=])] matching at position [k]
    of [l], with [prev] the character before [l] if any. *)
Definition assign_at_from (prev : option ascii) (l : list ascii) (k : nat) : bool :=
  let before := match k with O => prev | S k' => nth_error l k' end in
  match nth_error l k with
  | Some c =>
      Ascii.eqb c "=" &&
      negb (match before with
            | Some p => ascii_in p ["<"%char; ">"%char; "="%char; "!"%char]
            | None => false end) &&
      negb (match nth_error l (S k) with Some d => Ascii.eqb d "=" | None => false end)
  | None => false
  end.

Definition assign_at (s : string) (k : nat) : bool := assign_at_from None (chars s) k.

(** [f"{name}({', '.join(params)})"]: the header of a function definition
    as a user writes it. *)
Definition function_header (name : string) (params : list string) : string :=
  (name ++ "(" ++ String.concat ", " params ++ ")")%string.

(** The characters after the first parameter of such a header. *)
Definition rest_params (ps : list string) : list ascii :=
  flat_map (fun q => ","%char :: " "%char :: chars q) ps.

Definition param_char (x : ascii) : bool :=
  is_ident_char x || Ascii.eqb x ","%char || Ascii.eqb x " "%char.

Definition not_star (c : ascii) : bool := negb (Ascii.eqb c "*"%char).

(** What a log entry and a block say about one run: the block id and the
    stripped text. *)
Definition log_key (e : LogEntry) : string * string := (log_block_id e, log_expression e).
Definition formula_key (f : formula) : string * string := (block_id f, strip (raw f)).

Definition history_bounded (d : Document) : Prop :=
  List.length (undo_stack d) + List.length (redo_stack d) <= HISTORY_LIMIT.

(** Documents and edit sessions the witnesses below run on. *)
Definition edit_doc : Document :=
  document_of [fblock "x = 1" "b1"; TextBlock "note" "b2"; fblock "y = x + 1" "b3"].

Definition edit_session : list doc_op :=
  [DAdd (TextBlock "end" "b4"); DMove 0 2; DDelete 1; DUndo; DUndo; DRedo;
   DEvaluate default_options (fun _ => 1%Q); DInsert 0 (fblock "z = 3" "b5")].

Definition undone_doc : Document := snd (undo (add_block (TextBlock "end" "b4") edit_doc)).

(** * Proofs *)

(** ** Two runs of the evaluation monad *)

Section Oblivious.

Lemma follows_same {T} (x : formula -> T) f g : follows x f g f g.
Proof. right; split; reflexivity. Qed.

Lemma follows_trans {T} (x : formula -> T) f g f1 g1 f2 g2 :
  follows x f g f1 g1 -> follows x f1 g1 f2 g2 -> follows x f g f2 g2.
Proof. unfold follows; intros [H1 | [H1 H1']] [H2 | [H2 H2']]; [left | left | left | right; split]; congruence. Qed.

Lemma obl_ret {A} (a : A) : oblivious (ret a).
Proof. intros f g c c' Hv Hc; cbn; repeat split; auto using follows_same. Qed.

Lemma obl_raise {A} (e : exc) : oblivious (@raise A e).
Proof. intros f g c c' Hv Hc; cbn; repeat split; auto using follows_same. Qed.

Lemma obl_lift {A} (r : exc + A) : oblivious (lift r).
Proof. intros f g c c' Hv Hc; destruct r; cbn; repeat split; auto using follows_same. Qed.

Lemma obl_bind {A C} (m : B A) (k : A -> B C) :
  oblivious m -> (forall a, oblivious (k a)) -> oblivious (bind m k).
Proof.
  intros Hm Hk f g c c' Hv Hc. unfold bind.
  specialize (Hm f g c c' Hv Hc).
  destruct (m (f, c)) as [[f1 c1] r1], (m (g, c')) as [[g1 c2] r2].
  destruct Hm as (-> & Hc1 & Hv1 & Hr1 & Hl1 & Hk1).
  destruct r2 as [e | a].
  - repeat split; auto.
  - specialize (Hk a f1 g1 c1 c2 Hv1 Hc1).
    destruct (k a (f1, c1)) as [[f2 c3] r3], (k a (g1, c2)) as [[g2 c4] r4].
    destruct Hk as (-> & ? & ? & ? & ? & ?).
    repeat split; eauto using follows_trans; congruence.
Qed.

Lemma obl_catch {A} (m : B A) (h : exc -> B A) :
  oblivious m -> (forall e, oblivious (h e)) -> oblivious (catch m h).
Proof.
  intros Hm Hh f g c c' Hv Hc. unfold catch.
  specialize (Hm f g c c' Hv Hc).
  destruct (m (f, c)) as [[f1 c1] r1], (m (g, c')) as [[g1 c2] r2].
  destruct Hm as (-> & Hc1 & Hv1 & Hr1 & Hl1 & Hk1).
  destruct r2 as [e | a].
  - specialize (Hh e f1 g1 c1 c2 Hv1 Hc1).
    destruct (h e (f1, c1)) as [[f2 c3] r3], (h e (g1, c2)) as [[g2 c4] r4].
    destruct Hh as (-> & ? & ? & ? & ? & ?).
    repeat split; eauto using follows_trans; congruence.
  - repeat split; auto.
Qed.

Lemma drop_logs_fields c c' :
  drop_logs c = drop_logs c' ->
  symbols c = symbols c' /\ numeric_values c = numeric_values c' /\
  functions c = functions c' /\ arrays c = arrays c' /\
  variables c = variables c' /\ errors c = errors c'.
Proof. destruct c, c'; cbn; intros H; injection H; intros; subst; auto 10. Qed.

Lemma view_fields f g :
  view f = view g -> block_id f = block_id g /\ numeric_value f = numeric_value g.
Proof. destruct f, g; cbn; intros H; injection H; intros; subst; auto. Qed.

Ltac obl_get := intros f g c c' Hv Hc; cbn;
  pose proof (drop_logs_fields c c' Hc) as (? & ? & ? & ? & ? & ?);
  pose proof (view_fields f g Hv) as (? & ?);
  repeat split; auto using follows_same; congruence.

Lemma obl_get_symbols : oblivious get_symbols.
Proof. obl_get. Qed.
Lemma obl_get_numeric_values : oblivious get_numeric_values.
Proof. obl_get. Qed.
Lemma obl_get_functions : oblivious get_functions.
Proof. obl_get. Qed.
Lemma obl_get_arrays : oblivious get_arrays.
Proof. obl_get. Qed.
Lemma obl_get_block_id : oblivious get_block_id.
Proof. obl_get. Qed.
Lemma obl_get_numeric_value : oblivious get_numeric_value.
Proof. obl_get. Qed.

Lemma obl_upd_ctx F : ctx_respectful F -> oblivious (upd_ctx F).
Proof. intros HF f g c c' Hv Hc; cbn; repeat split; auto using follows_same. Qed.

Lemma obl_upd_self u : self_respectful u -> oblivious (upd_self u).
Proof. intros Hu f g c c' Hv Hc; cbn; destruct (Hu f g Hv) as (? & ? & ? & ?); repeat split; auto. Qed.

End Oblivious.

Create HintDb obl.
#[export] Hint Resolve obl_ret obl_raise obl_lift obl_get_symbols obl_get_numeric_values
  obl_get_functions obl_get_arrays obl_get_block_id obl_get_numeric_value : obl.

Ltac solve_ctx_resp :=
  let c := fresh "c" in let c' := fresh "c'" in let H := fresh "H" in
  intros c c' H; destruct c, c'; unfold drop_logs in H; cbn in H; injection H; intros; subst;
  cbv [register_variable register_error register_function register_array set_symbols
       log_run drop_logs];
  cbn;
  repeat match goal with |- context [match ?x with _ => _ end] => destruct x end;
  reflexivity.

Ltac solve_self_resp :=
  let f := fresh "f" in let g := fresh "g" in let H := fresh "H" in
  intros f g H; destruct f, g; unfold view in H; cbn in H; injection H; intros; subst;
  cbv [view key follows set_sympy_expr set_result set_latex set_numeric_value set_is_assignment
       set_variable_name set_is_function_def set_function_name set_function_params set_is_array
       set_array_values set_evaluation_status set_error_type set_error_message
       set_evaluation_time_ms];
  cbn; repeat split; first [reflexivity | left; reflexivity | right; split; reflexivity].

Ltac obl_auto :=
  repeat match goal with
  | |- oblivious (bind _ _) => apply obl_bind; [ | intro ]
  | |- oblivious (catch _ _) => apply obl_catch; [ | intro ]
  | |- oblivious (upd_ctx _) => apply obl_upd_ctx; solve_ctx_resp
  | |- oblivious (upd_self _) => apply obl_upd_self; solve_self_resp
  | |- oblivious (match ?x with _ => _ end) => destruct x
  | |- oblivious (if ?x then _ else _) => destruct x
  | |- oblivious (let _ := _ in _) => cbv zeta
  | |- oblivious _ => solve [eauto with obl]
  end.

Lemma obl_prepare_symbols : oblivious prepare_symbols.
Proof. unfold prepare_symbols; obl_auto. Qed.
#[export] Hint Resolve obl_prepare_symbols : obl.

Lemma obl_sympify_node x b : oblivious (sympify_node x b).
Proof. unfold sympify_node; obl_auto. Qed.
#[export] Hint Resolve obl_sympify_node : obl.

Lemma obl_safe_sympify_plain s : oblivious (safe_sympify_plain s).
Proof. unfold safe_sympify_plain; obl_auto. Qed.
#[export] Hint Resolve obl_safe_sympify_plain : obl.

Lemma obl_convert_expr : forall x, oblivious (convert_expr x).
Proof.
  fix IH 1. intros x; destruct x as [t b o | l rest | src]; cbn [convert_expr].
  - apply obl_bind; [apply IH | intros test].
    apply obl_bind; [apply IH | intros body].
    apply obl_bind; [apply IH | intros orelse]. apply obl_lift.
  - apply obl_bind; [apply IH | intros left].
    apply obl_bind; [ | intros comparators].
    + clear left. revert rest. fix IHl 1. intros [| [o y] r].
      * apply obl_ret.
      * apply obl_bind; [apply IH | intros y'].
        apply obl_bind; [apply IHl | intros r']. apply obl_ret.
    + obl_auto.
  - apply obl_safe_sympify_plain.
Qed.
#[export] Hint Resolve obl_convert_expr : obl.

Lemma obl_extract_branch_expr body : oblivious (extract_branch_expr body).
Proof. unfold extract_branch_expr; obl_auto. Qed.
#[export] Hint Resolve obl_extract_branch_expr : obl.

Lemma obl_if_chain : forall current branches, oblivious (if_chain branches current).
Proof.
  fix IH 1. intros current branches; destruct current as [e | test body orelse];
    cbn [if_chain]; [apply obl_ret | ].
  apply obl_bind; [apply obl_extract_branch_expr | intros [be |]]; [ | apply obl_ret].
  apply obl_bind; [apply obl_convert_expr | intros test_expr].
  destruct orelse as [| next [| n2 r]].
  - apply obl_ret.
  - destruct next eqn:Hn; [obl_auto | rewrite <- Hn; apply IH].
  - obl_auto.
Qed.
#[export] Hint Resolve obl_if_chain : obl.

Lemma obl_parse_conditional_tree tree : oblivious (parse_conditional_tree tree).
Proof. unfold parse_conditional_tree; obl_auto. Qed.
#[export] Hint Resolve obl_parse_conditional_tree : obl.

Lemma obl_safe_sympify s : oblivious (safe_sympify s).
Proof. unfold safe_sympify, parse_conditional_expr; obl_auto. Qed.
#[export] Hint Resolve obl_safe_sympify : obl.

Lemma obl_sympy_fallback s : oblivious (sympy_fallback s).
Proof. unfold sympy_fallback; obl_auto. Qed.
#[export] Hint Resolve obl_sympy_fallback : obl.

Lemma obl_evaluate_numeric s : oblivious (evaluate_numeric s).
Proof. unfold evaluate_numeric; obl_auto. Qed.
#[export] Hint Resolve obl_evaluate_numeric : obl.

Lemma obl_parse_assignment s : oblivious (parse_assignment s).
Proof. unfold parse_assignment; obl_auto. Qed.
#[export] Hint Resolve obl_parse_assignment : obl.

Lemma obl_set_error_fields p e : oblivious (set_error_fields p e).
Proof. unfold set_error_fields; obl_auto. Qed.
#[export] Hint Resolve obl_set_error_fields : obl.

Lemma obl_register_own_error e : oblivious (register_own_error e).
Proof. unfold register_own_error; obl_auto. Qed.
#[export] Hint Resolve obl_register_own_error : obl.

Lemma obl_set_number q : oblivious (set_number q).
Proof. unfold set_number; obl_auto. Qed.
#[export] Hint Resolve obl_set_number : obl.

Lemma obl_handle_evaluation_error e l lhs : oblivious (handle_evaluation_error e l lhs).
Proof. unfold handle_evaluation_error; obl_auto. Qed.
#[export] Hint Resolve obl_handle_evaluation_error : obl.

Lemma obl_function_definition fname params lhs rhs :
  oblivious (function_definition fname params lhs rhs).
Proof. unfold function_definition; obl_auto. Qed.
#[export] Hint Resolve obl_function_definition : obl.

Lemma obl_assignment_symbolic se : oblivious (assignment_symbolic se).
Proof. unfold assignment_symbolic; obl_auto. Qed.
#[export] Hint Resolve obl_assignment_symbolic : obl.

Lemma obl_classify_assignment lhs rhs se v : oblivious (classify_assignment lhs rhs se v).
Proof. unfold classify_assignment; obl_auto. Qed.
#[export] Hint Resolve obl_classify_assignment : obl.

Lemma obl_assignment lhs rhs : oblivious (assignment lhs rhs).
Proof. unfold assignment; obl_auto. Qed.
#[export] Hint Resolve obl_assignment : obl.

Lemma obl_plain_symbolic se : oblivious (plain_symbolic se).
Proof. unfold plain_symbolic; obl_auto. Qed.
#[export] Hint Resolve obl_plain_symbolic : obl.

Lemma obl_plain_expression s : oblivious (plain_expression s).
Proof. unfold plain_expression; obl_auto. Qed.
#[export] Hint Resolve obl_plain_expression : obl.

Lemma obl_evaluate_body s : oblivious (evaluate_body s).
Proof. unfold evaluate_body; obl_auto. Qed.

Lemma ctx_resp_register_error bid m t : ctx_respectful (register_error bid m t).
Proof. solve_ctx_resp. Qed.

Lemma view_reset f g : key f = key g -> view (reset_fields f) = view (reset_fields g).
Proof. destruct f, g; cbv; intros H; injection H; intros; subst; reflexivity. Qed.

Lemma drop_logs_log_run bid e d s c : drop_logs (log_run bid e d s c) = drop_logs c.
Proof. reflexivity. Qed.

(** One block evaluated in two runs that see the same context (up to the
    timing logs) and the same text and id: the context that follows, the
    number, and the [result] and [latex] the runs write agree. *)
Lemma evaluate_two_runs o1 o2 dur1 dur2 f g c c' :
  key f = key g -> drop_logs c = drop_logs c' ->
  let '(f', c1) := evaluate o1 dur1 f c in
  let '(g', c2) := evaluate o2 dur2 g c' in
  drop_logs c1 = drop_logs c2 /\ numeric_value f' = numeric_value g' /\
  follows result f g f' g' /\ follows latex f g f' g' /\ key f' = key f.
Proof.
  intros Hk Hc. unfold evaluate.
  assert (Hr : raw (reset_fields f) = raw (reset_fields g))
    by (destruct f, g; cbv in Hk |- *; injection Hk; auto).
  rewrite Hr.
  pose proof (obl_evaluate_body (strip (raw (reset_fields g))) _ _ c c' (view_reset f g Hk) Hc) as H.
  destruct (evaluate_body _ (reset_fields f, c)) as [[f1 c1] r1].
  destruct (evaluate_body _ (reset_fields g, c')) as [[g1 c2] r2].
  destruct H as (<- & Hc1 & Hv1 & Hres & Hlat & Hk1).
  pose proof (view_fields _ _ Hv1) as [Hid Hnum].
  destruct r1 as [e | u]; cbn -[drop_logs].
  - rewrite !drop_logs_log_run. repeat split.
    + rewrite Hid; apply ctx_resp_register_error; exact Hc1.
    + destruct f1, g1; cbv in Hnum |- *; congruence.
    + left; reflexivity.
    + left; reflexivity.
    + destruct f1, f; cbv in Hk1 |- *; exact Hk1.
  - rewrite !drop_logs_log_run. repeat split.
    all: first [exact Hc1 | exact Hnum | exact Hres | exact Hlat | exact Hk1
               | destruct f1, g1, f, g; first [exact Hres | exact Hlat | exact Hnum | exact Hk1]].
Qed.

Lemma follows_rerun {T} (x : formula -> T) f f1 f2 :
  follows x f f1 f1 f2 -> x f1 = x f2.
Proof. unfold follows; intros [H | [H1 H2]]; congruence. Qed.

Lemma evaluate_blocks_two_runs o dA dB bs : forall i j c c',
  drop_logs c = drop_logs c' ->
  let bs1 := fst (evaluate_blocks o dA i bs c) in
  map outputs (formulas bs1) = map outputs (formulas (fst (evaluate_blocks o dB j bs1 c'))).
Proof.
  induction bs as [| [t id | f] r IH]; intros i j c c' Hc; cbn zeta; cbn [evaluate_blocks].
  - reflexivity.
  - specialize (IH (S i) (S j) c c' Hc). cbn zeta in IH.
    destruct (evaluate_blocks o dA (S i) r c) as [r1 c1]; cbn [fst evaluate_blocks] in *.
    destruct (evaluate_blocks o dB (S j) r1 c') as [r2 c2]; cbn in *. exact IH.
  - pose proof (evaluate_two_runs o o (dA i) (dA i) f f c c eq_refl eq_refl) as H0.
    destruct (evaluate o (dA i) f c) as [f1 c1] eqn:E1.
    destruct H0 as (_ & _ & _ & _ & Hk1).
    pose proof (evaluate_two_runs o o (dA i) (dB j) f f1 c c' (eq_sym Hk1) Hc) as H.
    rewrite E1 in H.
    destruct (evaluate o (dB j) f1 c') as [f2 c2] eqn:E2.
    destruct H as (Hc2 & Hnum & Hres & Hlat & _).
    specialize (IH (S i) (S j) c1 c2 Hc2). cbn zeta in IH.
    destruct (evaluate_blocks o dA (S i) r c1) as [r1 c3]; cbn [fst evaluate_blocks] in *.
    rewrite E2.
    destruct (evaluate_blocks o dB (S j) r1 c2) as [r2 c4]; cbn in *.
    unfold outputs at 1 3. rewrite Hnum, (follows_rerun _ _ _ _ Hres), (follows_rerun _ _ _ _ Hlat).
    f_equal. exact IH.
Qed.

(** ** Translating and reading conditionals *)

Lemma bind_inr {A C} (m : B A) (k : A -> B C) s s' y :
  bind m k s = (s', inr y) -> exists s1 x, m s = (s1, inr x) /\ k x s1 = (s', inr y).
Proof.
  unfold bind. destruct (m s) as [s1 [e | x]]; [discriminate | eauto].
Qed.

Lemma lift_inr {A} (r : exc + A) s s' y : lift r s = (s', inr y) -> r = inr y /\ s' = s.
Proof. unfold lift; destruct r; intros H; inversion H; auto. Qed.

Lemma ret_inr {A} (a : A) s s' y : ret a s = (s', inr y) -> a = y /\ s' = s.
Proof. unfold ret; intros H; inversion H; auto. Qed.

Lemma s_subs_piecewise nv ps :
  s_subs nv (SPiecewise ps) = (ps' <-! subs_pairs nv ps ;; s_piecewise ps').
Proof.
  cbn [s_subs].
  match goal with |- ebind (?F ps) _ = _ =>
    assert (E : forall l, F l = subs_pairs nv l) end.
  { induction l as [| [v c] r IH]; [reflexivity |].
    cbn [subs_pairs]. rewrite <- IH. reflexivity. }
  rewrite E; reflexivity.
Qed.

Lemma piece_cond_normal c c' : piece_cond c = inr c' -> piece_cond c' = inr c'.
Proof. destruct c; cbn; intros H; inversion H; reflexivity. Qed.

Lemma cond_value_normal nv c c' : piece_cond c = inr c' -> cond_value nv c' = cond_value nv c.
Proof.
  intros H. unfold cond_value. rewrite H, (piece_cond_normal _ _ H). reflexivity.
Qed.

Lemma piece_filter_cons v c r :
  piece_filter ((v, c) :: r) =
  (c' <-! piece_cond c ;;
   if value_ok v then
     match c' with
     | SBool false => piece_filter r
     | SBool true => inr [(v, c')]
     | _ => r' <-! piece_filter r ;; inr ((v, c') :: r')
     end
   else inl Unmodelled).
Proof. cbn [piece_filter]. destruct (piece_cond c); [reflexivity |]. destruct v; reflexivity. Qed.

Lemma piece_filter_select nv ps r :
  forallb (pair_decided nv) ps = true -> piece_filter ps = inr r ->
  forallb (pair_decided nv) r = true /\ pw_select nv r = pw_select nv ps /\
  Forall (fun p => piece_cond (snd p) = inr (snd p)) r.
Proof.
  revert r; induction ps as [| [v c] ps IH]; intros r Hd Hf.
  - cbn in Hf; inversion Hf; subst; auto.
  - cbn [forallb] in Hd; apply andb_prop in Hd as [Hd1 Hd].
    rewrite piece_filter_cons in Hf.
    destruct (piece_cond c) as [e | c'] eqn:Hc; [discriminate |]; cbn [ebind] in Hf.
    assert (Hcv := cond_value_normal nv c c' Hc).
    assert (Hn := piece_cond_normal c c' Hc).
    assert (Hd1' : pair_decided nv (v, c') = pair_decided nv (v, c))
      by (cbn; rewrite Hcv; reflexivity).
    destruct (value_ok v); [| discriminate].
    destruct c'; try destruct b;
      try (destruct (piece_filter ps) as [e | r'] eqn:Hp; cbn [ebind] in Hf; [discriminate |];
           inversion Hf; subst r;
           destruct (IH r' Hd eq_refl) as (IH1 & IH2 & IH3);
           split; [cbn [forallb]; rewrite Hd1', Hd1; exact IH1 |];
           split; [cbn [pw_select]; rewrite Hcv, IH2; reflexivity |];
           constructor; [exact Hn | exact IH3]).
    + inversion Hf; subst r.
      split; [cbn [forallb]; rewrite Hd1', Hd1; reflexivity |].
      split; [cbn [pw_select]; rewrite <- Hcv; reflexivity |].
      constructor; [exact Hn | constructor].
    + destruct (IH r Hd Hf) as (IH1 & IH2 & IH3).
      split; [exact IH1 |]. split; [| exact IH3].
      rewrite IH2. cbn [pw_select]. rewrite <- Hcv. reflexivity.
Qed.

Lemma subs_decided_select nv r :
  forallb (pair_decided nv) r = true ->
  Forall (fun p => piece_cond (snd p) = inr (snd p)) r ->
  exists r', subs_pairs nv r = inr r' /\ s_piecewise r' = inr (pw_select nv r).
Proof.
  induction r as [| [v c] r IH]; intros Hd Hn.
  - exists []; split; reflexivity.
  - cbn [forallb] in Hd; apply andb_prop in Hd as [Hd1 Hd].
    inversion Hn as [| ? ? Hc Hn']; subst. cbn [snd] in Hc.
    destruct (IH Hd Hn') as (r' & Hr1 & Hr2).
    cbn [pair_decided] in Hd1.
    destruct (cond_value nv c) as [b |] eqn:Hcvc; [| discriminate].
    assert (Hsc : s_subs nv c = inr (SBool b)).
    { unfold cond_value in Hcvc; rewrite Hc in Hcvc; cbn [ebind] in Hcvc.
      destruct (s_subs nv c) as [e | [| | | b' | | | | | | | | | | | | | | | |]];
        try discriminate; inversion Hcvc; reflexivity. }
    destruct (s_subs nv v) as [e | v'] eqn:Hsv; [discriminate |].
    exists ((v', SBool b) :: r'). split.
    + cbn [subs_pairs]. rewrite Hsv, Hsc, Hr1. reflexivity.
    + unfold s_piecewise. rewrite piece_filter_cons. cbn [piece_cond ebind].
      rewrite Hd1. cbn [pw_select]. rewrite Hcvc, Hsv. destruct b.
      * reflexivity.
      * rewrite <- Hr2. reflexivity.
Qed.

Lemma piecewise_subs_select nv ps t :
  forallb (pair_decided nv) ps = true -> s_piecewise ps = inr t ->
  s_subs nv t = inr (pw_select nv ps).
Proof.
  intros Hd Ht. unfold s_piecewise in Ht.
  destruct (piece_filter ps) as [e | r] eqn:Hf; [discriminate |]; cbn [ebind] in Ht.
  destruct (piece_filter_select nv ps r Hd Hf) as (H1 & H2 & H3).
  rewrite <- H2.
  destruct r as [| [v c] r'].
  - inversion Ht; reflexivity.
  - assert (Hgen : s_subs nv (SPiecewise ((v, c) :: r')) = inr (pw_select nv ((v, c) :: r'))).
    { rewrite s_subs_piecewise.
      destruct (subs_decided_select nv _ H1 H3) as (r'' & E1 & E2).
      rewrite E1; exact E2. }
    destruct c as [| | | [|] | | | | | | | | | | | | | | | |];
      try (inversion Ht; subst t; exact Hgen).
    inversion Ht; subst t.
    cbn [forallb pair_decided] in H1. apply andb_prop in H1 as [H1 _].
    cbn [pw_select]. replace (cond_value nv (SBool true)) with (Some true) by reflexivity.
    replace (cond_value nv (SBool true)) with (Some true) in H1 by reflexivity.
    destruct (s_subs nv v); [discriminate | reflexivity].
Qed.

Lemma extract_branch_some body s s1 be :
  extract_branch_expr body s = (s1, inr (Some be)) ->
  exists e, body = [SExpr e] /\ converts e be.
Proof.
  unfold extract_branch_expr. intros H.
  destruct body as [| [e | t b o] [| st r]];
    try (apply ret_inr in H as [H _]; discriminate).
  apply bind_inr in H as (s2 & x & H1 & H2). apply ret_inr in H2 as [H2 _].
  injection H2 as <-. exists e. split; [reflexivity | exists s, s2; exact H1].
Qed.

Lemma if_chain_branches : forall current branches s s' l,
  if_chain branches current s = (s', inr (Some l)) ->
  exists nodes last l0 v,
    chain_branches current = Some (nodes, last) /\
    Forall2 (fun n p => converts (fst n) (fst p) /\ converts (snd n) (snd p)) nodes l0 /\
    match last with Some o => converts o v | None => v = SNaN end /\
    l = branches ++ l0 ++ [(v, SBool true)].
Proof.
  fix IH 1. intros current branches s s' l H.
  destruct current as [e | test body orelse]; cbn [if_chain] in H;
    [apply ret_inr in H as [H _]; discriminate | ].
  apply bind_inr in H as (s1 & be & Hb & H).
  destruct be as [be |]; [| apply ret_inr in H as [H _]; discriminate].
  destruct (extract_branch_some _ _ _ _ Hb) as (b & -> & Cb).
  apply bind_inr in H as (s2 & te & Ht & H).
  assert (Ct : converts test te) by (exists s1, s2; exact Ht).
  assert (with_else : forall o s0,
    (oe <- extract_branch_expr o ;;
     match oe with
     | Some oe => ret (Some ((branches ++ [(be, te)]) ++ [(oe, SBool true)]))
     | None => ret None
     end) s0 = (s', inr (Some l)) ->
    exists e, o = [SExpr e] /\ exists oe, converts e oe /\
      l = branches ++ [(be, te)] ++ [(oe, SBool true)]).
  { intros o s0 H0. apply bind_inr in H0 as (s3 & x & Hx & H0).
    destruct x as [oe |]; apply ret_inr in H0 as [H0 _]; [| discriminate].
    injection H0 as <-. destruct (extract_branch_some _ _ _ _ Hx) as (e & -> & Ce).
    exists e. split; [reflexivity |]. exists oe. split; [exact Ce |].
    rewrite app_assoc. reflexivity. }
  destruct orelse as [| next [| n2 r]].
  - apply ret_inr in H as [H _]. injection H as <-.
    exists [(b, test)], None, [(be, te)], SNaN.
    split; [reflexivity |]. split; [constructor; [split; assumption | constructor] |].
    split; [reflexivity |]. rewrite app_assoc. reflexivity.
  - destruct next as [e | t2 b2 o2] eqn:Hn.
    + destruct (with_else _ _ H) as (e' & E1 & oe & Ce & E). injection E1 as <-.
      exists [(b, test)], (Some e), [(be, te)], oe.
      split; [reflexivity |]. split; [constructor; [split; assumption | constructor] |].
      split; [exact Ce | exact E].
    + rewrite <- Hn in H. rewrite <- Hn.
      destruct (IH next _ _ _ _ H) as (nodes & last & l0 & v & Ec & F & Hl & E).
      exists ((b, test) :: nodes), last, ((be, te) :: l0), v.
      assert (Eq : chain_branches (SIf test [SExpr b] [next])
                   = match chain_branches next with
                     | Some (l1, last1) => Some ((b, test) :: l1, last1)
                     | None => None
                     end) by (rewrite Hn; reflexivity).
      split; [rewrite Eq, Ec; reflexivity |].
      split; [constructor; [split; assumption | exact F] |].
      split; [exact Hl |]. rewrite E, <- app_assoc. reflexivity.
  - destruct (with_else _ _ H) as (e' & E1 & _). discriminate E1.
Qed.

Lemma pw_select_all_fail nv ps0 v :
  forallb (fun p => cond_fails nv (snd p)) ps0 = true ->
  pw_select nv (ps0 ++ [(v, SBool true)]) =
  match s_subs nv v with inr v' => v' | inl _ => SNaN end.
Proof.
  induction ps0 as [| [v0 c0] ps0 IH]; intros H; [reflexivity |].
  cbn [forallb] in H; apply andb_prop in H as [H1 H]. cbn [snd] in H1.
  cbn [app pw_select]. unfold cond_fails in H1.
  destruct (cond_value nv c0) as [[|] |]; try discriminate. apply IH, H.
Qed.

(** * The claims *)

(** ** Failure isolation *)

(** C1: evaluating [[FormulaBlock("X = 5 / 0"), FormulaBlock("Y = 2 + 2")]]
    registers exactly one error, for block X, leaves X in the error state
    and gives Y the numeric value 4: the failure of X neither aborts the pass
    nor affects Y. *)
Theorem failure_isolation_two_blocks (o : NotebookOptions) (durations : nat -> Q) :
  let '(d, c) := document_evaluate o durations failure_isolation_doc in
  map err_block_id (errors c) = ["b1"] /\
  map status_of (formulas (blocks d)) = [("error", None); ("ok", Some 4%Q)].
Proof. destruct o; vm_compute; split; reflexivity. Qed.

(** ** Unit literals *)

(** C2 (code bug, divergence): the block ["M = 3500 N*m"] does not end
    with the numeric value 3.5. *)
Lemma unit_literal_not_compacted :
  map numeric_value (formulas (blocks (fst (document_evaluate default_options (fun _ => 0%Q)
                                              unit_literal_doc)))) <> [Some (7 # 2)%Q].
Proof. vm_compute; discriminate. Qed.

(** C2 (code bug, what the code does): the evaluation has no notion of
    units ([NotebookOptions] only holds [hide_logs]); ["M = 3500 N*m"] is
    not expression syntax, so the block ends in the error state with no
    numeric value, an error result, and one registered error. *)
Theorem unit_literal_is_error (o : NotebookOptions) (durations : nat -> Q) :
  let '(d, c) := document_evaluate o durations unit_literal_doc in
  map status_of (formulas (blocks d)) = [("error", None)] /\
  map result (formulas (blocks d)) = [Some (RError "Error evaluating: " SyntaxError)] /\
  map err_block_id (errors c) = ["b1"].
Proof. destruct o; vm_compute; repeat split; reflexivity. Qed.

(** ** Forward references *)

(** C3 (counterexample): in [["y = x + 1", "x = 2"]] the block that refers
    to [x] before its assignment is not in the error state. *)
Lemma forward_reference_not_error :
  map evaluation_status (formulas (blocks (fst (document_evaluate default_options (fun _ => 0%Q)
                                                 forward_reference_doc)))) = ["ok"; "ok"].
Proof. vm_compute; reflexivity. Qed.

(** C3 (amended): in [["y = x + 1", "x = 2"]] the block that refers to [x]
    before its assignment evaluates symbolically: it is in the ok state
    with no numeric value and the expression [x + 1] as its result; once
    the assignment of [x] comes first, the same block gets the number 3.
    In [["y = x(2)", "x = 2"]] the first block ends in the error state with
    the error type [TypeError] (the parser's [Function('x')] is an unknown
    name, made a symbol, and calling it fails), not [UnknownIdentifier]. *)
Theorem forward_reference_symbolic (o : NotebookOptions) (durations : nat -> Q) :
  map status_of (formulas (blocks (fst (document_evaluate o durations forward_reference_doc))))
    = [("ok", None); ("ok", Some 2%Q)] /\
  map result (formulas (blocks (fst (document_evaluate o durations forward_reference_doc))))
    = [Some (RStr (SAdd (SSym "x") (SNum 1))); Some (RFixed2 2)] /\
  map status_of (formulas (blocks (fst (document_evaluate o durations reordered_reference_doc))))
    = [("ok", Some 2%Q); ("ok", Some 3%Q)] /\
  map (fun f => (evaluation_status f, error_type f))
      (formulas (blocks (fst (document_evaluate o durations forward_call_doc))))
    = [("error", Some "TypeError"); ("ok", None)].
Proof. destruct o; vm_compute; repeat split; reflexivity. Qed.

(** ** Function composition *)

(** C8: evaluating ["f(x) = x**2"], ["g(x) = f(x) + 10"] and ["g(3)"] in
    order gives the last block the numeric value 19. *)
Theorem function_composition (o : NotebookOptions) (durations : nat -> Q) :
  map numeric_value (formulas (blocks (fst (document_evaluate o durations composition_doc))))
    = [None; None; Some 19%Q].
Proof. destruct o; vm_compute; reflexivity. Qed.

(** ** Determinism *)

(** C9: evaluating a document, then evaluating the result again with the
    same options, gives every [FormulaBlock] the same [numeric_value],
    [result] and [latex] after both calls, whatever time each block takes. *)
Theorem document_evaluate_deterministic (o : NotebookOptions) (dA dB : nat -> Q) (d : Document) :
  let d1 := fst (document_evaluate o dA d) in
  let d2 := fst (document_evaluate o dB d1) in
  map outputs (formulas (blocks d1)) = map outputs (formulas (blocks d2)).
Proof.
  cbn zeta. unfold document_evaluate.
  pose proof (evaluate_blocks_two_runs o dA dB (blocks d) 0 0 new_context new_context eq_refl) as H.
  cbn zeta in H.
  destruct (evaluate_blocks o dA 0 (blocks d) new_context) as [bs1 c1]; cbn in *.
  destruct (evaluate_blocks o dB 0 bs1 new_context) as [bs2 c2]; cbn in *. exact H.
Qed.

(** ** Re-assignment *)


(** *** Lemmas on dicts *)

Lemma dget_dset {A} (d : dict A) k v n :
  dget (dset d k v) n = if String.eqb n k then Some v else dget d n.
Proof.
  induction d as [| [k' v'] d' IH]; cbn.
  - destruct (String.eqb n k); reflexivity.
  - destruct (String.eqb_spec k k') as [-> | Hne]; cbn.
    + destruct (String.eqb n k'); reflexivity.
    + rewrite IH. destruct (String.eqb_spec n k') as [-> | Hn'].
      * destruct (String.eqb_spec k' k); [congruence | reflexivity].
      * reflexivity.
Qed.

Lemma dget_dsetdefault {A} (d : dict A) k v n :
  dget (dsetdefault d k v) n =
  match dget d n with Some x => Some x | None => if String.eqb n k then Some v else None end.
Proof.
  unfold dsetdefault. destruct (dget d k) eqn:Ek.
  - destruct (dget d n) eqn:En; [reflexivity |].
    destruct (String.eqb_spec n k) as [-> | _]; [congruence | reflexivity].
  - rewrite dget_dset. destruct (String.eqb_spec n k) as [-> | _].
    + rewrite Ek; reflexivity.
    + destruct (dget d n); reflexivity.
Qed.


(** ** The symbol table *)

(** C5 (counterexample): after a lookup of [sum] (a [Symbol]), the
    symbolic parse of ["a + 1"] in the same context rebinds [sum] to a new
    class: the next lookup of [sum] returns another object. *)
Lemma sum_lookup_rebound :
  let c0 := new_context in
  let '(o1, r1) := reg_get (symbols c0) "sum" in
  let '((_, c2), _) := safe_sympify "a + 1" (new_formula "a + 1" "b1", set_symbols r1 c0) in
  fst (reg_get (symbols c2) "sum") <> o1.
Proof. vm_compute. intros H; discriminate H. Qed.

Lemma reg_get_present r k o : dget (reg_map r) k = Some o -> reg_get r k = (o, r).
Proof. unfold reg_get; intros ->; reflexivity. Qed.

Lemma fold_keeps_binding {A X} (step : dict A -> X -> dict A) (k : string) (o : A) :
  (forall m x, dget m k = Some o -> dget (step m x) k = Some o) ->
  forall l m, dget m k = Some o -> dget (fold_left step l m) k = Some o.
Proof. intros Hs l; induction l as [| x l IH]; intros m Hm; cbn; auto. Qed.

Lemma fold_fresh_keeps_binding (k : string) (o : obj) (l : list string) :
  existsb (String.eqb k) l = false ->
  forall m i, dget m k = Some o ->
  dget (fst (fold_left (fun '(m, i) f => (dset m f (OFreshFunction f i), S i)) l (m, i))) k = Some o.
Proof.
  induction l as [| f l IH]; intros Hl m i Hm; cbn in *; auto.
  apply Bool.orb_false_iff in Hl as [Hf Hl].
  apply IH; auto. rewrite dget_dset, Hf. exact Hm.
Qed.

Lemma prepare_registry_keeps k o fs r :
  existsb (String.eqb k) fresh_function_names = false ->
  dget (reg_map r) k = Some o -> dget (reg_map (prepare_registry fs r)) k = Some o.
Proof.
  intros Hk Hr. unfold prepare_registry.
  pose proof (fold_keeps_binding (fun m '(k', o') => dsetdefault m k' o') k o) as H1.
  pose proof (fold_keeps_binding (fun m f => if dmem m f then m else dset m f (OFunction f)) k o)
    as H2.
  match goal with
  | |- context [fold_left ?st fresh_function_names (?m2, reg_next r)] =>
      pose proof (fold_fresh_keeps_binding k o fresh_function_names Hk m2 (reg_next r)) as H3;
      destruct (fold_left st fresh_function_names (m2, reg_next r)) as [m3 next];
      cbn [reg_map fst] in *
  end.
  apply H3, H2; [| apply H1; [| exact Hr]].
  - intros m f Hm. unfold dmem. destruct (dget m f) eqn:Ef; auto.
    rewrite dget_dset. destruct (String.eqb_spec k f) as [-> | _]; congruence.
  - intros m [k' o'] Hm. rewrite dget_dsetdefault, Hm. reflexivity.
Qed.

Lemma run_reg_ops_keeps k o ops : forall r,
  existsb (String.eqb k) fresh_function_names = false ->
  forallb (binds_param_other k) ops = true ->
  dget (reg_map r) k = Some o -> dget (reg_map (run_reg_ops ops r)) k = Some o.
Proof.
  induction ops as [| op ops IH]; intros r Hk Hops Hr; cbn in *; auto.
  apply Bool.andb_true_iff in Hops as [Hop Hops].
  apply IH; auto.
  destruct op as [n | fs | p]; cbn.
  - unfold reg_get. destruct (dget (reg_map r) n) eqn:En; cbn; auto.
    rewrite dget_dset. destruct (String.eqb_spec k n) as [-> | _]; congruence.
  - apply prepare_registry_keeps; auto.
  - cbn in Hop. rewrite dget_dset. destruct (String.eqb_spec k p) as [-> | _]; auto.
    rewrite String.eqb_refl in Hop; discriminate.
Qed.

Lemma reg_get_binds r k : dget (reg_map (snd (reg_get r k))) k = Some (fst (reg_get r k)).
Proof.
  unfold reg_get. destruct (dget (reg_map r) k) eqn:E; cbn; auto.
  rewrite dget_dset, String.eqb_refl. reflexivity.
Qed.

(** C5 (amended): a lookup [symbols[k]] never fails, and a later lookup of
    [k] in the same context returns the same object, whatever lookups,
    symbolic parses and parameter bindings come in between, provided [k] is
    not one of [linspace], [arange], [sweep], [sum], [min], [max], [range]
    (which every symbolic parse rebinds to new classes) and no function
    definition in between has a parameter named [k]. *)
Theorem registry_lookup_stable (r : registry) (k : string) (ops : list reg_op)
        (Hk : existsb (String.eqb k) fresh_function_names = false)
        (Hp : forallb (binds_param_other k) ops = true) :
  fst (reg_get (run_reg_ops ops (snd (reg_get r k))) k) = fst (reg_get r k).
Proof.
  rewrite (reg_get_present _ k (fst (reg_get r k))); [reflexivity |].
  apply run_reg_ops_keeps; auto using reg_get_binds.
Qed.

Lemma registry_lookup_stable_witness :
  existsb (String.eqb "x") fresh_function_names = false /\
  forallb (binds_param_other "x") [OpPrepare ["f"]; OpLookup "y"; OpBindParam "t"] = true /\
  fst (reg_get (run_reg_ops [OpPrepare ["f"]; OpLookup "y"; OpBindParam "t"]
                            (snd (reg_get (mkRegistry [] 0) "x"))) "x")
    = fst (reg_get (mkRegistry [] 0) "x").
Proof.
  split; [reflexivity | split; [reflexivity |]].
  apply (registry_lookup_stable (mkRegistry [] 0) "x"
           [OpPrepare ["f"]; OpLookup "y"; OpBindParam "t"]); reflexivity.
Defined.

(** ** Undo and redo *)

Lemma snapshot_idem bs : snapshot (snapshot bs) = snapshot bs.
Proof.
  unfold snapshot. rewrite map_map. apply map_ext. intros [t id | f]; reflexivity.
Qed.

Lemma pop_last_snoc {A} (l : list A) x : pop_last (l ++ [x]) = Some (x, l).
Proof. unfold pop_last. rewrite rev_app_distr; cbn. rewrite rev_involutive. reflexivity. Qed.

Lemma history_of_snoc bs : forall L b,
  history_of L (bs ++ [b]) = history_of L bs ++ [snapshot (L ++ bs)].
Proof.
  induction bs as [| b' bs IH]; intros L b; cbn.
  - rewrite app_nil_r. reflexivity.
  - rewrite IH, <- app_assoc. reflexivity.
Qed.

Lemma history_of_length bs : forall L, List.length (history_of L bs) = List.length bs.
Proof. induction bs; intros; cbn; auto. Qed.

Lemma add_blocks_snoc bs b d : add_blocks (bs ++ [b]) d = add_block b (add_blocks bs d).
Proof. unfold add_blocks. rewrite fold_left_app. reflexivity. Qed.

Lemma add_blocks_shape bs : forall d,
  List.length bs <= HISTORY_LIMIT ->
  exists U', undo_stack (add_blocks bs d) = U' ++ history_of (blocks d) bs /\
             blocks (add_blocks bs d) = blocks d ++ bs /\
             (bs <> [] -> redo_stack (add_blocks bs d) = []).
Proof.
  induction bs as [| b bs IH] using rev_ind; intros d Hlen.
  - exists (undo_stack d). cbn. rewrite !app_nil_r. split; [| split]; auto. congruence.
  - rewrite length_app in Hlen; cbn in Hlen.
    destruct (IH d ltac:(lia)) as (U' & Hu & Hb & _).
    rewrite add_blocks_snoc. unfold add_block, push_history; cbn [blocks undo_stack redo_stack].
    rewrite Hu, Hb, history_of_snoc.
    set (s := snapshot (blocks d ++ bs)).
    set (H := history_of (blocks d) bs).
    assert (HH : List.length H = List.length bs) by apply history_of_length.
    destruct (Nat.ltb HISTORY_LIMIT (List.length ((U' ++ H) ++ [s]))) eqn:E;
      cbn [blocks undo_stack redo_stack].
    + apply Nat.ltb_lt in E. rewrite !length_app in E; cbn in E.
      destruct U' as [| u U'']; [cbn in E; unfold HISTORY_LIMIT in *; lia |].
      exists U''. cbn. rewrite <- !app_assoc. split; [reflexivity | split]; auto.
    + exists U'. rewrite <- !app_assoc. split; [reflexivity | split]; auto.
Qed.

Lemma undo_n_pops H : forall U L R,
  H <> [] ->
  undo_n (List.length H) (mkDocument L (U ++ H) R) =
  (repeat true (List.length H),
   mkDocument (hd [] H) U (R ++ snapshot L :: map snapshot (rev (tl H)))).
Proof.
  induction H as [| s H0 IH] using rev_ind; intros U L R Hne; [congruence |].
  rewrite length_app; cbn [List.length]; rewrite Nat.add_1_r; cbn [undo_n].
  unfold undo; cbn [undo_stack blocks redo_stack].
  rewrite app_assoc, pop_last_snoc.
  destruct H0 as [| h H1].
  - cbn. rewrite app_nil_r. reflexivity.
  - rewrite (IH U s (R ++ [snapshot L])) by discriminate.
    cbn. rewrite <- app_assoc, rev_app_distr, map_app. reflexivity.
Qed.

Lemma redo_after_add_block b d : redo (add_block b d) = (false, add_block b d).
Proof. reflexivity. Qed.

Lemma add_blocks_blocks bs : forall d, blocks (add_blocks bs d) = blocks d ++ bs.
Proof.
  induction bs as [| b bs IH] using rev_ind; intros d; [cbn; rewrite app_nil_r; reflexivity |].
  rewrite add_blocks_snoc. unfold add_block, push_history; cbn [blocks].
  rewrite IH, app_assoc. reflexivity.
Qed.

Lemma add_blocks_undo_bound bs : forall d,
  List.length (undo_stack d) <= HISTORY_LIMIT ->
  List.length (undo_stack (add_blocks bs d)) <= HISTORY_LIMIT.
Proof.
  induction bs as [| b bs IH] using rev_ind; intros d Hd; [exact Hd |].
  rewrite add_blocks_snoc. specialize (IH d Hd).
  unfold add_block, push_history; cbn [undo_stack].
  remember (undo_stack (add_blocks bs d) ++ [snapshot (blocks (add_blocks bs d))]) as u eqn:Eu.
  assert (Hu : List.length u = S (List.length (undo_stack (add_blocks bs d))))
    by (subst u; rewrite length_app; cbn; lia).
  destruct (Nat.ltb HISTORY_LIMIT (List.length u)) eqn:E.
  - destruct u as [| x u']; cbn in Hu |- *; [discriminate | lia].
  - apply Nat.ltb_ge in E. lia.
Qed.

Lemma undo_n_add m : forall n d,
  undo_n (m + n) d =
  let '(o1, d1) := undo_n m d in let '(o2, d2) := undo_n n d1 in (o1 ++ o2, d2).
Proof.
  induction m as [| m IH]; intros n d; cbn [Nat.add undo_n].
  - destruct (undo_n n d); reflexivity.
  - destruct (undo d) as [ok d1]. rewrite IH.
    destruct (undo_n m d1) as [o1 d1']. destruct (undo_n n d1'). reflexivity.
Qed.

Lemma undo_n_empty n : forall d, undo_stack d = [] -> undo_n n d = (repeat false n, d).
Proof.
  induction n as [| n IH]; intros d Hd; cbn [undo_n repeat]; [reflexivity |].
  unfold undo at 1. rewrite Hd. cbn [pop_last rev]. rewrite (IH d Hd). reflexivity.
Qed.

Lemma undo_past_limit (d : Document) (bs : list block)
      (H1 : HISTORY_LIMIT < List.length bs) (H2 : List.length (undo_stack d) <= HISTORY_LIMIT) :
  let '(oks, d2) := undo_n (List.length bs) (add_blocks bs d) in
  oks = repeat true HISTORY_LIMIT ++ repeat false (List.length bs - HISTORY_LIMIT) /\
  blocks d2 = snapshot (blocks d ++ firstn (List.length bs - HISTORY_LIMIT) bs) /\
  fst (redo d2) = true /\
  blocks (snd (redo d2)) = snapshot (blocks d ++ firstn (List.length bs - HISTORY_LIMIT + 1) bs).
Proof.
  set (k := List.length bs - HISTORY_LIMIT).
  set (bs1 := firstn k bs). set (bs2 := skipn k bs).
  assert (Hl2 : List.length bs2 = HISTORY_LIMIT) by (unfold bs2, k; rewrite length_skipn; lia).
  assert (Hsplit : bs = bs1 ++ bs2) by (symmetry; apply firstn_skipn).
  assert (Hn : List.length bs = HISTORY_LIMIT + k) by (unfold k; lia).
  assert (Hadd : add_blocks bs d = add_blocks bs2 (add_blocks bs1 d))
    by (rewrite Hsplit at 1; unfold add_blocks; rewrite fold_left_app; reflexivity).
  rewrite Hn, Hadd, undo_n_add.
  set (d1 := add_blocks bs1 d).
  assert (Hd1 : List.length (undo_stack d1) <= HISTORY_LIMIT) by (apply add_blocks_undo_bound; exact H2).
  assert (Hb1 : blocks d1 = blocks d ++ bs1) by apply add_blocks_blocks.
  destruct (add_blocks_shape bs2 d1 ltac:(lia)) as (U' & Hu & Hb & Hr).
  assert (Hne : bs2 <> []) by (intros E; rewrite E in Hl2; unfold HISTORY_LIMIT in Hl2; discriminate).
  specialize (Hr Hne).
  assert (Hbound := add_blocks_undo_bound bs2 d1 Hd1).
  assert (HU : U' = []).
  { rewrite Hu, length_app, history_of_length, Hl2 in Hbound.
    destruct U'; [reflexivity | cbn in Hbound; lia]. }
  subst U'.
  destruct (add_blocks bs2 d1) as [bl us rs] eqn:E; cbn in Hu, Hb, Hr; subst us rs.
  replace (undo_n HISTORY_LIMIT (mkDocument bl (history_of (blocks d1) bs2) []))
    with (undo_n (List.length (history_of (blocks d1) bs2)) (mkDocument bl ([] ++ history_of (blocks d1) bs2) []))
    by (rewrite history_of_length, Hl2; reflexivity).
  rewrite (undo_n_pops (history_of (blocks d1) bs2) [] bl [])
    by (destruct bs2; [congruence | discriminate]).
  rewrite undo_n_empty by reflexivity.
  destruct bs2 as [| b1 [| b2 bs'']]; [congruence | cbn in Hl2; unfold HISTORY_LIMIT in Hl2; discriminate |].
  cbn [hd tl history_of].
  split; [rewrite <- Hl2; cbn [List.length]; rewrite history_of_length; reflexivity |].
  split; [rewrite Hb1; reflexivity |].
  assert (Hk1 : firstn (k + 1) bs = bs1 ++ [b1]).
  { assert (Hlen1 : List.length bs1 = k) by (unfold bs1; rewrite length_firstn; lia).
    rewrite Hsplit, firstn_app, Hlen1, firstn_all2 by lia.
    replace (k + 1 - k) with 1 by lia. reflexivity. }
  unfold redo; cbn [redo_stack]. cbn [history_of rev map]. rewrite map_app; cbn [map].
  rewrite app_nil_l, app_comm_cons, pop_last_snoc. cbn [fst snd blocks].
  split; [reflexivity |].
  rewrite snapshot_idem, Hk1, Hb1, app_assoc. reflexivity.
Qed.

(** C4 (counterexample): with 21 [add_block] calls on an empty document,
    21 [undo()] calls do not bring back the empty block list: the first
    snapshot was dropped by [HISTORY_LIMIT]. *)
Lemma undo_past_history_limit :
  blocks (snd (undo_n 21 (add_blocks (repeat (TextBlock "t" "b") 21) (document_of []))))
    <> [].
Proof. vm_compute. intros H; discriminate H. Qed.

(** Within [HISTORY_LIMIT]: [N] undos after [N] additions bring back the
    initial list. *)
Lemma undo_within_limit (d : Document) (bs : list block)
        (H1 : 1 <= List.length bs) (H2 : List.length bs <= HISTORY_LIMIT) :
  let '(oks, d2) := undo_n (List.length bs) (add_blocks bs d) in
  oks = repeat true (List.length bs) /\
  blocks d2 = snapshot (blocks d) /\
  fst (redo d2) = true /\
  blocks (snd (redo d2)) = snapshot (blocks d ++ firstn 1 bs).
Proof.
  destruct (add_blocks_shape bs d H2) as (U' & Hu & Hb & Hr).
  assert (Hne : bs <> []) by (destruct bs; cbn in H1; [lia | discriminate]).
  specialize (Hr Hne).
  destruct (add_blocks bs d) as [bl us rs] eqn:E; cbn in Hu, Hb, Hr; subst.
  replace (List.length bs) with (List.length (history_of (blocks d) bs))
    by apply history_of_length.
  rewrite undo_n_pops by (destruct bs; [congruence | discriminate]).
  split; [reflexivity |].
  destruct bs as [| b1 bs']; [congruence |].
  cbn [hd tl history_of firstn].
  split; [reflexivity |].
  split.
  - unfold redo; cbn [redo_stack]. destruct bs' as [| b2 bs''].
    + reflexivity.
    + cbn [history_of rev map]. rewrite map_app; cbn [map].
      rewrite app_nil_l, app_comm_cons, pop_last_snoc. reflexivity.
  - unfold redo; cbn [redo_stack]. destruct bs' as [| b2 bs''].
    + reflexivity.
    + cbn [history_of rev map]. rewrite map_app; cbn [map].
      rewrite app_nil_l, app_comm_cons, pop_last_snoc. cbn. apply snapshot_idem.
Qed.

(** C4 (amended): for every document and every [N >= 1] (the length of
    the list [bs] of added blocks), [N] calls of [add_block] then [N] calls
    of [undo()]: when [N <= HISTORY_LIMIT] (20), all undos succeed and leave
    the initial block list, as its [to_dict]/[from_dict] round trip, and
    one [redo()] then succeeds and gives back the list as it was before the
    last undo (the initial list with the first added block), round-tripped;
    when [N > HISTORY_LIMIT] and the undo stack held at most
    [HISTORY_LIMIT] snapshots (as every document built by the code does),
    only the first 20 undos succeed, the other [N - 20] return [False], and
    the list left is the initial one with the first [N - 20] added blocks,
    round-tripped, so it is not the initial list; in both cases, after any
    [add_block] the redo stack is empty, so [redo()] returns [False] and
    changes nothing. *)
Theorem undo_redo_history (d : Document) (bs : list block) (H1 : 1 <= List.length bs) :
  let '(oks, d2) := undo_n (List.length bs) (add_blocks bs d) in
  (List.length bs <= HISTORY_LIMIT ->
     oks = repeat true (List.length bs) /\
     blocks d2 = snapshot (blocks d) /\
     fst (redo d2) = true /\
     blocks (snd (redo d2)) = snapshot (blocks d ++ firstn 1 bs)) /\
  (HISTORY_LIMIT < List.length bs -> List.length (undo_stack d) <= HISTORY_LIMIT ->
     oks = repeat true HISTORY_LIMIT ++ repeat false (List.length bs - HISTORY_LIMIT) /\
     blocks d2 = snapshot (blocks d ++ firstn (List.length bs - HISTORY_LIMIT) bs) /\
     List.length (blocks d2) = List.length (blocks d) + (List.length bs - HISTORY_LIMIT) /\
     blocks d2 <> snapshot (blocks d) /\
     fst (redo d2) = true /\
     blocks (snd (redo d2))
       = snapshot (blocks d ++ firstn (List.length bs - HISTORY_LIMIT + 1) bs)) /\
  (forall b, redo (add_block b d2) = (false, add_block b d2)).
Proof.
  pose proof (undo_within_limit d bs H1) as HW.
  pose proof (undo_past_limit d bs) as HP.
  destruct (undo_n (List.length bs) (add_blocks bs d)) as [oks d2].
  split; [exact HW | split; [| intros b; apply redo_after_add_block]].
  intros H2 H3. destruct (HP H2 H3) as (A & B & C & D).
  assert (L : List.length (blocks d2) = List.length (blocks d) + (List.length bs - HISTORY_LIMIT)).
  { rewrite B. unfold snapshot. rewrite length_map, length_app, length_firstn. lia. }
  split; [exact A |]. split; [exact B |]. split; [exact L |].
  split; [| split; [exact C | exact D]].
  intros Heq. rewrite Heq in L. unfold snapshot in L. rewrite length_map in L. lia.
Qed.

Lemma undo_redo_history_witness :
  1 <= List.length [fblock "x = 1" "b1"; TextBlock "note" "b2"] /\
  (let '(oks, d2) := undo_n (List.length [fblock "x = 1" "b1"; TextBlock "note" "b2"])
                       (add_blocks [fblock "x = 1" "b1"; TextBlock "note" "b2"]
                                   (document_of [fblock "y = 2" "b0"])) in
   (List.length [fblock "x = 1" "b1"; TextBlock "note" "b2"] <= HISTORY_LIMIT ->
      oks = repeat true (List.length [fblock "x = 1" "b1"; TextBlock "note" "b2"]) /\
      blocks d2 = snapshot (blocks (document_of [fblock "y = 2" "b0"])) /\
      fst (redo d2) = true /\
      blocks (snd (redo d2)) = snapshot (blocks (document_of [fblock "y = 2" "b0"]) ++
                                         firstn 1 [fblock "x = 1" "b1"; TextBlock "note" "b2"])) /\
   (HISTORY_LIMIT < List.length [fblock "x = 1" "b1"; TextBlock "note" "b2"] ->
      List.length (undo_stack (document_of [fblock "y = 2" "b0"])) <= HISTORY_LIMIT ->
      oks = repeat true HISTORY_LIMIT ++
            repeat false (List.length [fblock "x = 1" "b1"; TextBlock "note" "b2"] - HISTORY_LIMIT) /\
      blocks d2 = snapshot (blocks (document_of [fblock "y = 2" "b0"]) ++
                    firstn (List.length [fblock "x = 1" "b1"; TextBlock "note" "b2"] - HISTORY_LIMIT)
                           [fblock "x = 1" "b1"; TextBlock "note" "b2"]) /\
      List.length (blocks d2) = List.length (blocks (document_of [fblock "y = 2" "b0"])) +
                    (List.length [fblock "x = 1" "b1"; TextBlock "note" "b2"] - HISTORY_LIMIT) /\
      blocks d2 <> snapshot (blocks (document_of [fblock "y = 2" "b0"])) /\
      fst (redo d2) = true /\
      blocks (snd (redo d2))
        = snapshot (blocks (document_of [fblock "y = 2" "b0"]) ++
            firstn (List.length [fblock "x = 1" "b1"; TextBlock "note" "b2"] - HISTORY_LIMIT + 1)
                   [fblock "x = 1" "b1"; TextBlock "note" "b2"])) /\
   (forall b, redo (add_block b d2) = (false, add_block b d2))).
Proof.
  split; [cbn; lia |].
  apply (undo_redo_history (document_of [fblock "y = 2" "b0"])
           [fblock "x = 1" "b1"; TextBlock "note" "b2"]); cbn; lia.
Defined.

(** C10: a snapshot keeps, of each [FormulaBlock], only [raw], [block_id],
    [result], [latex], [numeric_value], [is_assignment] and
    [variable_name]; every other field of the block that [undo()] brings
    back has its dataclass default ([sympy_expr], [is_function_def],
    [function_name], [function_params], [is_array], [array_values],
    [evaluation_status], [error_type], [error_message],
    [evaluation_time_ms]), whatever it held before. *)
Theorem undo_restores_serialized_fields (d : Document) (b : block) (i : nat) (f : formula)
        (H : nth_error (blocks d) i = Some (FormulaBlock f)) :
  let restored :=
    FormulaBlock (set_variable_name (variable_name f) (set_is_assignment (is_assignment f)
                  (set_numeric_value (numeric_value f) (set_latex (latex f)
                   (set_result (result f) (new_formula (raw f) (block_id f))))))) in
  nth_error (snapshot (blocks d)) i = Some restored /\
  exists d', undo (add_block b d) = (true, d') /\ nth_error (blocks d') i = Some restored.
Proof.
  cbn zeta.
  assert (Hs : nth_error (snapshot (blocks d)) i =
               Some (FormulaBlock (set_variable_name (variable_name f)
                 (set_is_assignment (is_assignment f) (set_numeric_value (numeric_value f)
                 (set_latex (latex f) (set_result (result f) (new_formula (raw f) (block_id f))))))))).
  { unfold snapshot. rewrite nth_error_map, H. reflexivity. }
  split; [exact Hs |].
  unfold add_block, push_history, undo; cbn [undo_stack blocks redo_stack].
  destruct (Nat.ltb HISTORY_LIMIT (List.length (undo_stack d ++ [snapshot (blocks d)]))) eqn:E.
  - destruct (undo_stack d) as [| u U] eqn:EU; [discriminate E |].
    cbn [app tl]. rewrite pop_last_snoc. eexists; split; [reflexivity | exact Hs].
  - rewrite pop_last_snoc. eexists; split; [reflexivity | exact Hs].
Qed.

Lemma undo_restores_serialized_fields_witness :
  nth_error (blocks (document_of [FormulaBlock stale_function_block])) 0
    = Some (FormulaBlock stale_function_block) /\
  (let f := stale_function_block in
   let restored :=
     FormulaBlock (set_variable_name (variable_name f) (set_is_assignment (is_assignment f)
                   (set_numeric_value (numeric_value f) (set_latex (latex f)
                    (set_result (result f) (new_formula (raw f) (block_id f))))))) in
   nth_error (snapshot (blocks (document_of [FormulaBlock f]))) 0 = Some restored /\
   exists d', undo (add_block (TextBlock "t" "b2") (document_of [FormulaBlock f])) = (true, d') /\
              nth_error (blocks d') 0 = Some restored).
Proof.
  split; [reflexivity |].
  apply (undo_restores_serialized_fields (document_of [FormulaBlock stale_function_block])
           (TextBlock "t" "b2") 0 stale_function_block).
  reflexivity.
Defined.

(** ** Conditionals *)




(** The multi-line [if]/[elif]/[else] tests: the second block gets the
    value of the branch whose condition holds, and no error is registered. *)
Lemma multiline_conditional_tests (o : NotebookOptions) (durations : nat -> Q) :
  map status_of (formulas (blocks (fst (document_evaluate o durations multiline_conditional_doc))))
    = [("ok", Some (-1)%Q); ("ok", Some 20%Q)] /\
  errors (snd (document_evaluate o durations multiline_conditional_doc)) = [] /\
  map status_of (formulas (blocks (fst (document_evaluate o durations multiline_equality_doc))))
    = [("ok", Some (-3)%Q); ("ok", Some 30%Q)] /\
  errors (snd (document_evaluate o durations multiline_equality_doc)) = [].
Proof. destruct o; vm_compute; repeat split; reflexivity. Qed.

(** * More of the program *)

(** ** The evaluation pipeline only appends to the logs and errors *)

Section KeepsLogs.

Lemma grows_refl s : grows_in s s.
Proof. repeat split. exists []. rewrite app_nil_r. auto. Qed.

Lemma grows_trans s s1 s2 : grows_in s s1 -> grows_in s1 s2 -> grows_in s s2.
Proof.
  intros (H1 & H2 & es1 & H3 & H4) (H5 & H6 & es2 & H7 & H8).
  split; [congruence |]. split; [congruence |].
  exists (es1 ++ es2). split.
  - rewrite H7, H3, app_assoc. reflexivity.
  - apply Forall_app. split; [exact H4 |]. rewrite <- H1. exact H8.
Qed.

Lemma kl_ret {A} (a : A) : keeps_logs (ret a).
Proof. intros s; apply grows_refl. Qed.

Lemma kl_raise {A} (e : exc) : keeps_logs (@raise A e).
Proof. intros s; apply grows_refl. Qed.

Lemma kl_lift {A} (r : exc + A) : keeps_logs (lift r).
Proof. intros s; destruct r; apply grows_refl. Qed.

Lemma kl_bind {A C} (m : B A) (k : A -> B C) :
  keeps_logs m -> (forall a, keeps_logs (k a)) -> keeps_logs (bind m k).
Proof.
  intros Hm Hk s. specialize (Hm s). unfold bind.
  destruct (m s) as [s1 [e | a]]; [exact Hm |].
  exact (grows_trans _ _ _ Hm (Hk a s1)).
Qed.

Lemma kl_catch {A} (m : B A) (h : exc -> B A) :
  keeps_logs m -> (forall e, keeps_logs (h e)) -> keeps_logs (catch m h).
Proof.
  intros Hm Hh s. specialize (Hm s). unfold catch.
  destruct (m s) as [s1 [e | a]]; [| exact Hm].
  exact (grows_trans _ _ _ Hm (Hh e s1)).
Qed.

Lemma kl_get_symbols : keeps_logs get_symbols.
Proof. intros s; apply grows_refl. Qed.
Lemma kl_get_numeric_values : keeps_logs get_numeric_values.
Proof. intros s; apply grows_refl. Qed.
Lemma kl_get_functions : keeps_logs get_functions.
Proof. intros s; apply grows_refl. Qed.
Lemma kl_get_arrays : keeps_logs get_arrays.
Proof. intros s; apply grows_refl. Qed.
Lemma kl_get_block_id : keeps_logs get_block_id.
Proof. intros s; apply grows_refl. Qed.
Lemma kl_get_numeric_value : keeps_logs get_numeric_value.
Proof. intros s; apply grows_refl. Qed.

Lemma kl_upd_ctx F :
  (forall c, errors (F c) = errors c /\ logs (F c) = logs c) -> keeps_logs (upd_ctx F).
Proof.
  intros HF [f c]. destruct (HF c) as [H1 H2].
  split; [reflexivity |]. split; [exact H2 |]. exists []. rewrite app_nil_r. auto.
Qed.

Lemma kl_upd_self u : (forall f, block_id (u f) = block_id f) -> keeps_logs (upd_self u).
Proof.
  intros Hu [f c]. split; [apply Hu |]. split; [reflexivity |].
  exists []. rewrite app_nil_r. auto.
Qed.

Lemma kl_register_own_error e : keeps_logs (register_own_error e).
Proof.
  intros [f c]. split; [reflexivity |]. split; [reflexivity |].
  exists [mkErrorEntry (block_id f) (exc_str e) (exc_name e)]. split; [reflexivity |].
  constructor; [reflexivity | constructor].
Qed.

End KeepsLogs.

Create HintDb kl.
#[export] Hint Resolve kl_ret kl_raise kl_lift kl_get_symbols kl_get_numeric_values
  kl_get_functions kl_get_arrays kl_get_block_id kl_get_numeric_value
  kl_register_own_error : kl.

Ltac kl_auto :=
  repeat match goal with
  | |- keeps_logs (bind _ _) => apply kl_bind; [ | intro ]
  | |- keeps_logs (catch _ _) => apply kl_catch; [ | intro ]
  | |- keeps_logs (upd_ctx _) =>
      apply kl_upd_ctx; let c := fresh "c" in intros c;
      cbv [register_variable register_function register_array set_symbols];
      repeat match goal with |- context [match ?x with _ => _ end] => destruct x end;
      split; reflexivity
  | |- keeps_logs (upd_self _) =>
      apply kl_upd_self; let f := fresh "f" in intros f; destruct f; reflexivity
  | |- keeps_logs (match ?x with _ => _ end) => destruct x
  | |- keeps_logs (if ?x then _ else _) => destruct x
  | |- keeps_logs (let _ := _ in _) => cbv zeta
  | |- keeps_logs _ => solve [eauto with kl]
  end.

Lemma kl_prepare_symbols : keeps_logs prepare_symbols.
Proof. unfold prepare_symbols; kl_auto. Qed.
#[export] Hint Resolve kl_prepare_symbols : kl.

Lemma kl_sympify_node x b : keeps_logs (sympify_node x b).
Proof. unfold sympify_node; kl_auto. Qed.
#[export] Hint Resolve kl_sympify_node : kl.

Lemma kl_safe_sympify_plain s : keeps_logs (safe_sympify_plain s).
Proof. unfold safe_sympify_plain; kl_auto. Qed.
#[export] Hint Resolve kl_safe_sympify_plain : kl.

Lemma kl_convert_expr : forall x, keeps_logs (convert_expr x).
Proof.
  fix IH 1. intros x; destruct x as [t b o | l rest | src]; cbn [convert_expr].
  - apply kl_bind; [apply IH | intros test].
    apply kl_bind; [apply IH | intros body].
    apply kl_bind; [apply IH | intros orelse]. apply kl_lift.
  - apply kl_bind; [apply IH | intros left].
    apply kl_bind; [ | intros comparators].
    + clear left. revert rest. fix IHl 1. intros [| [o y] r].
      * apply kl_ret.
      * apply kl_bind; [apply IH | intros y'].
        apply kl_bind; [apply IHl | intros r']. apply kl_ret.
    + kl_auto.
  - apply kl_safe_sympify_plain.
Qed.
#[export] Hint Resolve kl_convert_expr : kl.

Lemma kl_extract_branch_expr body : keeps_logs (extract_branch_expr body).
Proof. unfold extract_branch_expr; kl_auto. Qed.
#[export] Hint Resolve kl_extract_branch_expr : kl.

Lemma kl_if_chain : forall current branches, keeps_logs (if_chain branches current).
Proof.
  fix IH 1. intros current branches; destruct current as [e | test body orelse];
    cbn [if_chain]; [apply kl_ret | ].
  apply kl_bind; [apply kl_extract_branch_expr | intros [be |]]; [ | apply kl_ret].
  apply kl_bind; [apply kl_convert_expr | intros test_expr].
  destruct orelse as [| next [| n2 r]].
  - apply kl_ret.
  - destruct next eqn:Hn; [kl_auto | rewrite <- Hn; apply IH].
  - kl_auto.
Qed.
#[export] Hint Resolve kl_if_chain : kl.

Lemma kl_parse_conditional_tree tree : keeps_logs (parse_conditional_tree tree).
Proof. unfold parse_conditional_tree; kl_auto. Qed.
#[export] Hint Resolve kl_parse_conditional_tree : kl.

Lemma kl_safe_sympify s : keeps_logs (safe_sympify s).
Proof. unfold safe_sympify, parse_conditional_expr; kl_auto. Qed.
#[export] Hint Resolve kl_safe_sympify : kl.

Lemma kl_sympy_fallback s : keeps_logs (sympy_fallback s).
Proof. unfold sympy_fallback; kl_auto. Qed.
#[export] Hint Resolve kl_sympy_fallback : kl.

Lemma kl_evaluate_numeric s : keeps_logs (evaluate_numeric s).
Proof. unfold evaluate_numeric; kl_auto. Qed.
#[export] Hint Resolve kl_evaluate_numeric : kl.

Lemma kl_parse_assignment s : keeps_logs (parse_assignment s).
Proof. unfold parse_assignment; kl_auto. Qed.
#[export] Hint Resolve kl_parse_assignment : kl.

Lemma kl_set_error_fields p e : keeps_logs (set_error_fields p e).
Proof. unfold set_error_fields; kl_auto. Qed.
#[export] Hint Resolve kl_set_error_fields : kl.

Lemma kl_set_number q : keeps_logs (set_number q).
Proof. unfold set_number; kl_auto. Qed.
#[export] Hint Resolve kl_set_number : kl.

Lemma kl_handle_evaluation_error e l lhs : keeps_logs (handle_evaluation_error e l lhs).
Proof. unfold handle_evaluation_error; kl_auto. Qed.
#[export] Hint Resolve kl_handle_evaluation_error : kl.

Lemma kl_function_definition fname params lhs rhs :
  keeps_logs (function_definition fname params lhs rhs).
Proof. unfold function_definition; kl_auto. Qed.
#[export] Hint Resolve kl_function_definition : kl.

Lemma kl_assignment_symbolic se : keeps_logs (assignment_symbolic se).
Proof. unfold assignment_symbolic; kl_auto. Qed.
#[export] Hint Resolve kl_assignment_symbolic : kl.

Lemma kl_classify_assignment lhs rhs se v : keeps_logs (classify_assignment lhs rhs se v).
Proof. unfold classify_assignment; kl_auto. Qed.
#[export] Hint Resolve kl_classify_assignment : kl.

Lemma kl_assignment lhs rhs : keeps_logs (assignment lhs rhs).
Proof. unfold assignment; kl_auto. Qed.
#[export] Hint Resolve kl_assignment : kl.

Lemma kl_plain_symbolic se : keeps_logs (plain_symbolic se).
Proof. unfold plain_symbolic; kl_auto. Qed.
#[export] Hint Resolve kl_plain_symbolic : kl.

Lemma kl_plain_expression s : keeps_logs (plain_expression s).
Proof. unfold plain_expression; kl_auto. Qed.
#[export] Hint Resolve kl_plain_expression : kl.

Lemma kl_evaluate_body s : keeps_logs (evaluate_body s).
Proof. unfold evaluate_body; kl_auto. Qed.

Lemma evaluate_appends o dur f c :
  let '(f', c') := evaluate o dur f c in
  block_id f' = block_id f /\
  (exists subs, logs c' = logs c ++ [mkLogEntry (block_id f) (strip (raw f)) dur subs]) /\
  (exists es, errors c' = errors c ++ es /\ Forall (fun e => err_block_id e = block_id f) es).
Proof.
  unfold evaluate.
  pose proof (kl_evaluate_body (strip (raw (reset_fields f))) (reset_fields f, c)) as H.
  destruct (evaluate_body _ (reset_fields f, c)) as [[f1 c1] r1].
  destruct H as (Hid & Hlog & es & Herr & Hall). cbn [fst snd] in *.
  assert (Hid0 : block_id (reset_fields f) = block_id f) by (destruct f; reflexivity).
  assert (Hraw0 : raw (reset_fields f) = raw f) by (destruct f; reflexivity).
  rewrite Hid0 in Hid, Hall. rewrite Hraw0.
  destruct f1 as [raw1 id1]; cbn in Hid.
  destruct r1 as [e | u]; cbn; subst.
  - split; [reflexivity |]. split.
    + eexists. rewrite Hlog. reflexivity.
    + eexists. split; [rewrite Herr, <- app_assoc; reflexivity |].
      apply Forall_app; split; [exact Hall | constructor; [reflexivity | constructor]].
  - split; [reflexivity |]. split.
    + eexists. rewrite Hlog. reflexivity.
    + exists es. split; [exact Herr | exact Hall].
Qed.

Lemma evaluate_blocks_logs o ds bs : forall i c,
  let '(_, c') := evaluate_blocks o ds i bs c in
  map log_key (logs c') = map log_key (logs c) ++ map formula_key (formulas bs) /\
  exists ess, errors c' = errors c ++ concat ess /\
    Forall2 (fun f es => Forall (fun e => err_block_id e = block_id f) es) (formulas bs) ess.
Proof.
  induction bs as [| [t id | f] r IH]; intros i c; cbn [evaluate_blocks].
  - split; [cbn; rewrite app_nil_r; reflexivity |]. exists []. rewrite app_nil_r. auto.
  - specialize (IH (S i) c). destruct (evaluate_blocks o ds (S i) r c) as [r1 c1]. exact IH.
  - pose proof (evaluate_appends o (ds i) f c) as He.
    destruct (evaluate o (ds i) f c) as [f1 c1].
    destruct He as (_ & [subs Hl] & es & Herr & Hall).
    specialize (IH (S i) c1). destruct (evaluate_blocks o ds (S i) r c1) as [r1 c2].
    destruct IH as (Hl2 & ess & Herr2 & Hall2).
    split.
    + rewrite Hl2, Hl, map_app, <- app_assoc. reflexivity.
    + exists (es :: ess). split.
      * rewrite Herr2, Herr, <- app_assoc. reflexivity.
      * constructor; assumption.
Qed.

Lemma same_shape_evaluate_blocks o ds bs : forall i c,
  Forall2 same_shape bs (fst (evaluate_blocks o ds i bs c)).
Proof.
  induction bs as [| [t id | f] r IH]; intros i c; cbn [evaluate_blocks].
  - constructor.
  - specialize (IH (S i) c). destruct (evaluate_blocks o ds (S i) r c) as [r1 c1].
    constructor; [reflexivity | exact IH].
  - pose proof (evaluate_two_runs o o (ds i) (ds i) f f c c eq_refl eq_refl) as He.
    destruct (evaluate o (ds i) f c) as [f1 c1].
    destruct He as (_ & _ & _ & _ & Hk).
    specialize (IH (S i) c1). destruct (evaluate_blocks o ds (S i) r c1) as [r1 c2].
    constructor; [exact Hk | exact IH].
Qed.

Lemma evaluate_blocks_app o ds bs bs' : forall i c,
  evaluate_blocks o ds i (bs ++ bs') c =
  let '(r1, c1) := evaluate_blocks o ds i bs c in
  let '(r2, c2) := evaluate_blocks o ds (i + List.length bs) bs' c1 in
  (r1 ++ r2, c2).
Proof.
  induction bs as [| [t id | f] r IH]; intros i c; cbn [evaluate_blocks app].
  - rewrite Nat.add_0_r. destruct (evaluate_blocks o ds i bs' c); reflexivity.
  - rewrite IH. destruct (evaluate_blocks o ds (S i) r c) as [r1 c1].
    cbn [List.length]. rewrite <- plus_n_Sm. cbn [plus].
    destruct (evaluate_blocks o ds (S (i + List.length r)) bs' c1); reflexivity.
  - destruct (evaluate o (ds i) f c) as [f1 c1].
    rewrite IH. destruct (evaluate_blocks o ds (S i) r c1) as [r1 c2].
    cbn [List.length]. rewrite <- plus_n_Sm. cbn [plus].
    destruct (evaluate_blocks o ds (S (i + List.length r)) bs' c2); reflexivity.
Qed.

Lemma follows_same_start {T} (x : formula -> T) f f1 f2 :
  follows x f f f1 f2 -> x f1 = x f2.
Proof. unfold follows; intros [H | [H1 H2]]; congruence. Qed.

Lemma evaluate_blocks_skip_text o dA dB bs : forall i j c c',
  drop_logs c = drop_logs c' ->
  map outputs (formulas (fst (evaluate_blocks o dA i bs c))) =
  map outputs (formulas (fst (evaluate_blocks o dB j (filter is_formula_block bs) c'))).
Proof.
  induction bs as [| [t id | f] r IH]; intros i j c c' Hc; cbn [evaluate_blocks filter is_formula_block].
  - reflexivity.
  - specialize (IH (S i) j c c' Hc). destruct (evaluate_blocks o dA (S i) r c) as [r1 c1].
    exact IH.
  - cbn [evaluate_blocks].
    pose proof (evaluate_two_runs o o (dA i) (dB j) f f c c' eq_refl Hc) as He.
    destruct (evaluate o (dA i) f c) as [f1 c1].
    destruct (evaluate o (dB j) f c') as [f2 c2].
    destruct He as (Hc2 & Hnum & Hres & Hlat & _).
    specialize (IH (S i) (S j) c1 c2 Hc2).
    destruct (evaluate_blocks o dA (S i) r c1) as [r1 c3].
    destruct (evaluate_blocks o dB (S j) (filter is_formula_block r) c2) as [r2 c4].
    cbn in IH |- *. rewrite IH. unfold outputs at 1 3.
    rewrite Hnum, (follows_same_start _ _ _ _ Hres), (follows_same_start _ _ _ _ Hlat).
    reflexivity.
Qed.

(** ** What [Document.evaluate] leaves in the context and the blocks *)

(** X2: after [Document.evaluate] the run log of the context has one entry
    per [FormulaBlock], in document order, each with the block's id and its
    stripped text; a [TextBlock] leaves no entry. *)
Theorem document_evaluate_logs (o : NotebookOptions) (ds : nat -> Q) (d : Document) :
  map log_key (logs (snd (document_evaluate o ds d))) = map formula_key (formulas (blocks d)).
Proof.
  unfold document_evaluate.
  pose proof (evaluate_blocks_logs o ds (blocks d) 0 new_context) as H.
  destruct (evaluate_blocks o ds 0 (blocks d) new_context) as [bs c]. apply H.
Qed.

(** X3: the error list of the context after [Document.evaluate] is the
    concatenation, in document order, of one group of entries per
    [FormulaBlock], every entry of a group carrying that block's id. *)
Theorem document_evaluate_errors (o : NotebookOptions) (ds : nat -> Q) (d : Document) :
  exists ess, errors (snd (document_evaluate o ds d)) = concat ess /\
    Forall2 (fun f es => Forall (fun e => err_block_id e = block_id f) es) (formulas (blocks d)) ess.
Proof.
  unfold document_evaluate.
  pose proof (evaluate_blocks_logs o ds (blocks d) 0 new_context) as H.
  destruct (evaluate_blocks o ds 0 (blocks d) new_context) as [bs c]. apply H.
Qed.

(** X4: [Document.evaluate] keeps the block list's length and order: each
    [TextBlock] is left as it is, each [FormulaBlock] keeps its text and id;
    the undo and redo stacks are untouched. *)
Theorem document_evaluate_shape (o : NotebookOptions) (ds : nat -> Q) (d : Document) :
  let d' := fst (document_evaluate o ds d) in
  Forall2 same_shape (blocks d) (blocks d') /\
  undo_stack d' = undo_stack d /\ redo_stack d' = redo_stack d.
Proof.
  cbn zeta. unfold document_evaluate.
  pose proof (same_shape_evaluate_blocks o ds (blocks d) 0 new_context) as H.
  destruct (evaluate_blocks o ds 0 (blocks d) new_context) as [bs c]. auto.
Qed.

(** X5: the blocks after position [k] do not affect the first [k]: after
    [Document.evaluate], the first [k] blocks are those of evaluating the
    document cut down to its first [k] blocks. *)
Theorem document_evaluate_prefix (o : NotebookOptions) (ds : nat -> Q) (d : Document) (k : nat) :
  firstn k (blocks (fst (document_evaluate o ds d))) =
  blocks (fst (document_evaluate o ds (mkDocument (firstn k (blocks d)) (undo_stack d) (redo_stack d)))).
Proof.
  unfold document_evaluate. cbn [blocks].
  rewrite <- (firstn_skipn k (blocks d)) at 1.
  rewrite evaluate_blocks_app.
  pose proof (same_shape_evaluate_blocks o ds (firstn k (blocks d)) 0 new_context) as Hs.
  apply Forall2_length in Hs.
  destruct (Nat.le_ge_cases k (List.length (blocks d))) as [Hk | Hk].
  - destruct (evaluate_blocks o ds 0 (firstn k (blocks d)) new_context) as [r1 c1].
    destruct (evaluate_blocks o ds _ (skipn k (blocks d)) c1) as [r2 c2].
    cbn [fst blocks] in *.
    rewrite firstn_app, <- Hs, length_firstn, Nat.min_l by exact Hk.
    rewrite Nat.sub_diag, firstn_O, app_nil_r, firstn_all2; [reflexivity |].
    rewrite <- Hs, length_firstn. lia.
  - rewrite (skipn_all2 (blocks d)) by exact Hk. cbn [evaluate_blocks].
    destruct (evaluate_blocks o ds 0 (firstn k (blocks d)) new_context) as [r1 c1].
    cbn [fst blocks] in *. rewrite app_nil_r, firstn_all2; [reflexivity |].
    rewrite <- Hs, length_firstn. lia.
Qed.

(** X6: [TextBlock]s and the measured durations do not affect the numbers,
    results and LaTeX of the [FormulaBlock]s: evaluating the document with
    its text blocks removed gives the formula blocks the same outputs. *)
Theorem document_evaluate_text_independent (o : NotebookOptions) (dA dB : nat -> Q) (d : Document) :
  map outputs (formulas (blocks (fst (document_evaluate o dA d)))) =
  map outputs (formulas (blocks (fst (document_evaluate o dB
     (mkDocument (filter is_formula_block (blocks d)) (undo_stack d) (redo_stack d)))))).
Proof.
  unfold document_evaluate. cbn [blocks].
  pose proof (evaluate_blocks_skip_text o dA dB (blocks d) 0 0 new_context new_context eq_refl) as H.
  destruct (evaluate_blocks o dA 0 (blocks d) new_context).
  destruct (evaluate_blocks o dB 0 (filter is_formula_block (blocks d)) new_context).
  exact H.
Qed.

Lemma length_list_remove {A} i (l : list A) :
  i < List.length l -> List.length (list_remove i l) = List.length l - 1.
Proof. unfold list_remove; intros H. rewrite length_app, length_firstn, length_skipn. lia. Qed.

Lemma length_list_insert {A} i (x : A) l : List.length (list_insert i x l) = S (List.length l).
Proof.
  unfold list_insert. rewrite length_app. cbn [List.length]. rewrite length_firstn, length_skipn. lia.
Qed.

Lemma nth_list_insert {A} i (x : A) l : i <= List.length l -> nth_error (list_insert i x l) i = Some x.
Proof.
  unfold list_insert; intros H. rewrite nth_error_app2; rewrite length_firstn; [| lia].
  rewrite Nat.min_l by exact H. rewrite Nat.sub_diag. reflexivity.
Qed.

Lemma insert_remove {A} : forall i (l : list A) x,
  nth_error l i = Some x -> list_insert i x (list_remove i l) = l.
Proof.
  unfold list_insert, list_remove.
  induction i as [| i IH]; intros [| y l] x H; cbn in H |- *; try discriminate.
  - injection H as ->. reflexivity.
  - f_equal. apply IH. exact H.
Qed.

Lemma remove_insert {A} : forall i (l : list A) x,
  i <= List.length l -> list_remove i (list_insert i x l) = l.
Proof.
  unfold list_insert, list_remove.
  induction i as [| i IH]; intros [| y l] x H; cbn in H |- *; try reflexivity; try lia.
  f_equal. apply IH. lia.
Qed.

Lemma perm_list_insert {A} i (x : A) l : Permutation (list_insert i x l) (x :: l).
Proof.
  unfold list_insert. rewrite <- (firstn_skipn i l) at 3.
  symmetry. apply Permutation_middle.
Qed.

Lemma perm_move {A} i j (x : A) l :
  nth_error l i = Some x -> Permutation l (list_insert j x (list_remove i l)).
Proof.
  intros H. rewrite <- (insert_remove i l x H) at 1.
  rewrite perm_list_insert, perm_list_insert. reflexivity.
Qed.

Lemma blocks_push_history d : blocks (push_history d) = blocks d.
Proof. reflexivity. Qed.

Lemma redo_push_history d : redo_stack (push_history d) = redo_stack d.
Proof. reflexivity. Qed.

Lemma undo_push_history d :
  exists u, undo_stack (push_history d) = u ++ [snapshot (blocks d)].
Proof.
  unfold push_history; cbn [undo_stack].
  destruct (undo_stack d) as [| x u]; [exists []; reflexivity |].
  destruct (Nat.ltb _ _); [exists u; reflexivity | eexists; reflexivity].
Qed.

Lemma length_undo_push_history_le d :
  List.length (undo_stack d) <= HISTORY_LIMIT ->
  List.length (undo_stack (push_history d)) <= HISTORY_LIMIT.
Proof.
  unfold push_history; cbn [undo_stack]; intros H.
  destruct (Nat.ltb HISTORY_LIMIT _) eqn:E.
  - rewrite length_tl, length_app in *. cbn in *. lia.
  - apply Nat.ltb_ge in E. exact E.
Qed.

Lemma undo_push_history_small d :
  List.length (undo_stack d) < HISTORY_LIMIT ->
  undo_stack (push_history d) = undo_stack d ++ [snapshot (blocks d)].
Proof.
  unfold push_history; cbn [undo_stack]; intros H.
  replace (Nat.ltb HISTORY_LIMIT _) with false; [reflexivity |].
  symmetry. apply Nat.ltb_ge. rewrite length_app. cbn in *. lia.
Qed.

(** ** Editing: [move_block], [delete_block], [insert_block] *)

Ltac range_ok :=
  symmetry; apply negb_false_iff, andb_true_iff;
  split; first [apply Z.leb_le | apply Z.ltb_lt]; lia.

(** X7: [move_block(i, j)] with [0 <= i < len] and [i] different from the
    clamped target [j' = max(0, min(len - 1, j))] returns [True], puts the
    block at [j'], keeps the other blocks in their order (so the new list
    is a permutation of the old one), pushes a history snapshot and
    empties the redo stack. *)
Theorem move_block_moves (i j : Z) (d : Document) :
  let n := Z.of_nat (List.length (blocks d)) in
  let j' := Z.max 0 (Z.min (n - 1) j) in
  (0 <= i < n)%Z -> i <> j' ->
  let '(ok, d') := move_block i j d in
  ok = true /\
  nth_error (blocks d') (Z.to_nat j') = nth_error (blocks d) (Z.to_nat i) /\
  list_remove (Z.to_nat j') (blocks d') = list_remove (Z.to_nat i) (blocks d) /\
  Permutation (blocks d) (blocks d') /\
  undo_stack d' = undo_stack (push_history d) /\ redo_stack d' = [].
Proof.
  cbn zeta. intros Hi Hj. unfold move_block.
  replace (negb _) with false by range_ok.
  replace (Z.eqb i _) with false by (symmetry; apply Z.eqb_neq; exact Hj).
  rewrite blocks_push_history.
  destruct (nth_error (blocks d) (Z.to_nat i)) as [b |] eqn:Eb.
  2: { apply nth_error_None in Eb. lia. }
  assert (Hlen : Z.to_nat (Z.max 0 (Z.min (Z.of_nat (List.length (blocks d)) - 1) j))
                 <= List.length (list_remove (Z.to_nat i) (blocks d))).
  { rewrite length_list_remove by lia. lia. }
  split; [reflexivity |]. cbn [blocks undo_stack redo_stack].
  split; [rewrite nth_list_insert by exact Hlen; reflexivity |].
  split; [apply remove_insert; exact Hlen |].
  split; [apply perm_move; exact Eb |].
  split; reflexivity.
Qed.

(** X8: moving a block from [i] to [j] and back from [j] to [i], both
    indices in range and distinct, gives back the block list. *)
Theorem move_block_round_trip (i j : Z) (d : Document) :
  let n := Z.of_nat (List.length (blocks d)) in
  (0 <= i < n)%Z -> (0 <= j < n)%Z -> i <> j ->
  blocks (snd (move_block j i (snd (move_block i j d)))) = blocks d.
Proof.
  cbn zeta. intros Hi Hj Hij. unfold move_block at 2.
  replace (negb _) with false by range_ok.
  replace (Z.max 0 (Z.min _ j)) with j by lia.
  replace (Z.eqb i j) with false by (symmetry; apply Z.eqb_neq; exact Hij).
  rewrite blocks_push_history.
  destruct (nth_error (blocks d) (Z.to_nat i)) as [b |] eqn:Eb.
  2: { apply nth_error_None in Eb. lia. }
  assert (Hlen : Z.to_nat j <= List.length (list_remove (Z.to_nat i) (blocks d))).
  { rewrite length_list_remove by lia. lia. }
  unfold move_block. cbn [blocks snd].
  rewrite length_list_insert, length_list_remove by lia.
  replace (S (List.length (blocks d) - 1)) with (List.length (blocks d)) by lia.
  replace (negb _) with false by range_ok.
  replace (Z.max 0 (Z.min _ i)) with i by lia.
  replace (Z.eqb j i) with false by (symmetry; apply Z.eqb_neq; lia).
  rewrite blocks_push_history. cbn [blocks]. rewrite nth_list_insert by exact Hlen. cbn [blocks snd].
  rewrite remove_insert by exact Hlen. apply insert_remove. exact Eb.
Qed.

(** X9: [delete_block(i)] with [0 <= i < len] returns [True], shortens the
    list by one, and inserting the deleted block back at [i] gives back
    the block list. *)
Theorem delete_block_round_trip (i : Z) (d : Document) :
  (0 <= i < Z.of_nat (List.length (blocks d)))%Z ->
  let '(ok, d') := delete_block i d in
  ok = true /\ List.length (blocks d') = List.length (blocks d) - 1 /\
  exists b, nth_error (blocks d) (Z.to_nat i) = Some b /\
            blocks (snd (insert_block i b d')) = blocks d.
Proof.
  intros Hi. unfold delete_block.
  replace (negb _) with false by range_ok.
  rewrite blocks_push_history. cbn [blocks].
  destruct (nth_error (blocks d) (Z.to_nat i)) as [b |] eqn:Eb.
  2: { apply nth_error_None in Eb. lia. }
  split; [reflexivity |]. split; [apply length_list_remove; lia |].
  exists b. split; [reflexivity |].
  unfold insert_block. cbn [blocks].
  rewrite length_list_remove by lia.
  replace (negb _) with false by range_ok.
  cbn [blocks snd]. apply insert_remove. exact Eb.
Qed.

(** X10: [insert_block(i, b)] with [0 <= i <= len] returns [True], puts [b]
    at [i] in a list one longer, and deleting at [i] gives back the block
    list. *)
Theorem insert_block_round_trip (i : Z) (b : block) (d : Document) :
  (0 <= i <= Z.of_nat (List.length (blocks d)))%Z ->
  let '(ok, d') := insert_block i b d in
  ok = true /\ nth_error (blocks d') (Z.to_nat i) = Some b /\
  List.length (blocks d') = S (List.length (blocks d)) /\
  blocks (snd (delete_block i d')) = blocks d.
Proof.
  intros Hi. unfold insert_block.
  replace (negb _) with false by range_ok.
  rewrite blocks_push_history. cbn [blocks].
  split; [reflexivity |]. split; [apply nth_list_insert; lia |].
  split; [apply length_list_insert |].
  unfold delete_block. cbn [blocks].
  rewrite length_list_insert.
  replace (negb _) with false by range_ok.
  cbn [blocks snd]. apply remove_insert. lia.
Qed.

(** X11: an editing operation that returns [False] ([insert_block],
    [delete_block] or [move_block] with an index out of range, or a move to
    the same place) leaves the document, its history included, unchanged. *)
Theorem edit_failure_unchanged (e : edit_op) (d : Document) :
  fst (run_edit e d) = false -> snd (run_edit e d) = d.
Proof.
  destruct e as [b | i b | i | i j]; cbn [run_edit fst snd]; try discriminate.
  - unfold insert_block. destruct (negb _); [reflexivity | discriminate].
  - unfold delete_block. destruct (negb _); [reflexivity | discriminate].
  - unfold move_block. destruct (negb _); [reflexivity |].
    destruct (Z.eqb _ _); [reflexivity |].
    destruct (nth_error _ _); [discriminate | reflexivity].
Qed.

Lemma run_edit_true e d d' :
  run_edit e d = (true, d') ->
  undo_stack d' = undo_stack (push_history d) /\ redo_stack d' = [].
Proof.
  destruct e as [b | i b | i | i j]; cbn [run_edit];
    [| unfold insert_block; destruct (negb _)
     | unfold delete_block; destruct (negb _)
     | unfold move_block; destruct (negb _); [| destruct (Z.eqb _ _); [| destruct (nth_error _ _)]]];
    intros H; inversion H; subst; split; reflexivity.
Qed.

(** X12: after an edit that succeeds, [undo()] returns [True] and brings
    back the blocks as they were before the edit (round-tripped through
    [to_dict]/[from_dict]); the redo stack then holds exactly the edited
    list, the undo stack is the one before the edit when that one was not
    full, and [redo()] brings the edited list back. *)
Theorem undo_after_edit (e : edit_op) (d d' : Document) :
  run_edit e d = (true, d') ->
  let '(ok, d'') := undo d' in
  ok = true /\ blocks d'' = snapshot (blocks d) /\
  redo_stack d'' = [snapshot (blocks d')] /\
  (List.length (undo_stack d) < HISTORY_LIMIT -> undo_stack d'' = undo_stack d) /\
  redo d'' = (true, mkDocument (snapshot (blocks d')) (undo_stack d'' ++ [snapshot (snapshot (blocks d))]) []).
Proof.
  intros H. destruct (run_edit_true e d d' H) as [Hu Hr].
  destruct (undo_push_history d) as [u Hpu].
  unfold undo. rewrite Hu, Hpu, pop_last_snoc, Hr. cbn [app blocks redo_stack undo_stack].
  split; [reflexivity |]. split; [reflexivity |]. split; [reflexivity |]. split.
  - intros Hs. rewrite undo_push_history_small in Hpu by exact Hs.
    apply app_inj_tail in Hpu. symmetry. apply Hpu.
  - unfold redo. cbn [redo_stack undo_stack blocks]. reflexivity.
Qed.

(** ** The bound on the history *)

Lemma pop_last_length {A} (l : list A) x r : pop_last l = Some (x, r) -> List.length l = S (List.length r).
Proof.
  unfold pop_last. intros H. destruct (rev l) as [| y r'] eqn:E; [discriminate |].
  injection H as <- <-. rewrite <- (rev_involutive l), E. cbn. rewrite length_app, !length_rev. cbn. lia.
Qed.

Lemma history_bounded_op d op : history_bounded d -> history_bounded (run_doc_op d op).
Proof.
  unfold history_bounded. intros H.
  assert (Hp : List.length (undo_stack (push_history d)) <= HISTORY_LIMIT)
    by (apply length_undo_push_history_le; lia).
  destruct op as [b | i b | i | i j | | | o ds]; cbn [run_doc_op].
  - cbn [add_block undo_stack redo_stack List.length]. lia.
  - unfold insert_block. destruct (negb _); cbn [snd undo_stack redo_stack List.length]; lia.
  - unfold delete_block. destruct (negb _); cbn [snd undo_stack redo_stack List.length]; lia.
  - unfold move_block. destruct (negb _); [cbn [snd]; lia |].
    destruct (Z.eqb _ _); [cbn [snd]; lia |].
    destruct (nth_error _ _); cbn [snd undo_stack redo_stack List.length]; lia.
  - unfold undo. destruct (pop_last (undo_stack d)) as [[p u] |] eqn:E; cbn [snd]; [| lia].
    apply pop_last_length in E. cbn [undo_stack redo_stack]. rewrite length_app. cbn. lia.
  - unfold redo. destruct (pop_last (redo_stack d)) as [[p r] |] eqn:E; cbn [snd]; [| lia].
    apply pop_last_length in E. cbn [undo_stack redo_stack]. rewrite length_app. cbn. lia.
  - unfold document_evaluate. destruct (evaluate_blocks _ _ _ _ _). cbn. lia.
Qed.

(** X14: for any sequence of [add_block], [insert_block], [delete_block],
    [move_block], [undo], [redo] and [evaluate] calls, if the undo and
    redo stacks together hold at most [HISTORY_LIMIT] snapshots before, they
    still do after. *)
Theorem history_bound_kept (ops : list doc_op) (d : Document) :
  List.length (undo_stack d) + List.length (redo_stack d) <= HISTORY_LIMIT ->
  List.length (undo_stack (run_doc_ops ops d)) + List.length (redo_stack (run_doc_ops ops d)) <= HISTORY_LIMIT.
Proof.
  unfold run_doc_ops. revert d. induction ops as [| op r IH]; intros d H; cbn [fold_left].
  - exact H.
  - apply IH. apply history_bounded_op. exact H.
Qed.

(** ** Undo and redo round trips *)

(** X15: when the undo stack is non-empty, [undo()] followed by [redo()]
    gives back the blocks (round-tripped), the redo stack as it was, and
    the undo stack with its top round-tripped. *)
Theorem undo_then_redo (d : Document) (u : list (list block)) (prev : list block) :
  undo_stack d = u ++ [prev] ->
  redo (snd (undo d)) =
  (true, mkDocument (snapshot (blocks d)) (u ++ [snapshot prev]) (redo_stack d)).
Proof.
  intros H. unfold undo. rewrite H, pop_last_snoc. cbn [snd].
  unfold redo. cbn [redo_stack undo_stack blocks]. rewrite pop_last_snoc. reflexivity.
Qed.

(** X16: when the redo stack is non-empty, [redo()] followed by [undo()]
    gives back the blocks (round-tripped), the undo stack as it was, and
    the redo stack with its top round-tripped. *)
Theorem redo_then_undo (d : Document) (r : list (list block)) (next : list block) :
  redo_stack d = r ++ [next] ->
  undo (snd (redo d)) =
  (true, mkDocument (snapshot (blocks d)) (undo_stack d) (r ++ [snapshot next])).
Proof.
  intros H. unfold redo. rewrite H, pop_last_snoc. cbn [snd].
  unfold undo. cbn [redo_stack undo_stack blocks]. rewrite pop_last_snoc. reflexivity.
Qed.

(** ** Persistence of documents *)

Lemma block_to_from_to b : block_to_dict (block_from_dict (block_to_dict b)) = block_to_dict b.
Proof. destruct b as [t id | f]; reflexivity. Qed.

(** X17: [Document.from_dict(doc.to_dict())] is a document with the
    round-tripped blocks and empty undo and redo stacks; saving it again
    gives the same dict; a payload without ["blocks"] gives an empty
    document. *)
Theorem document_dict_round_trip (d : Document) :
  document_from_dict (document_to_dict d) = mkDocument (snapshot (blocks d)) [] [] /\
  document_to_dict (document_from_dict (document_to_dict d)) = document_to_dict d /\
  (forall v, document_from_dict (mkDocPayload v None) = mkDocument [] [] []).
Proof.
  split; [| split].
  - unfold document_from_dict, document_to_dict, snapshot. cbn. rewrite map_map. reflexivity.
  - unfold document_from_dict, document_to_dict. cbn. rewrite !map_map.
    f_equal. f_equal. apply map_ext. apply block_to_from_to.
  - intros v. reflexivity.
Qed.

Lemma assign_at_from_S prev c l k :
  assign_at_from prev (c :: l) (S k) = assign_at_from (Some c) l k.
Proof. destruct k; reflexivity. Qed.

Lemma assign_at_from_O prev c l :
  assign_at_from prev (c :: l) 0 =
  Ascii.eqb c "=" &&
  negb (match prev with Some p => ascii_in p ["<"%char; ">"%char; "="%char; "!"%char] | None => false end) &&
  negb (match l with d :: _ => Ascii.eqb d "=" | [] => false end).
Proof. destruct l; reflexivity. Qed.

Lemma assign_at_from_nil prev k : assign_at_from prev [] k = false.
Proof. unfold assign_at_from. destruct k; reflexivity. Qed.

Lemma find_assign_from_spec l : forall prev i,
  match find_assign_from prev i l with
  | Some j => i <= j /\ assign_at_from prev l (j - i) = true /\
              forall k, k < j - i -> assign_at_from prev l k = false
  | None => forall k, assign_at_from prev l k = false
  end.
Proof.
  induction l as [| c l IH]; intros prev i; cbn [find_assign_from].
  - intros k. apply assign_at_from_nil.
  - rewrite <- assign_at_from_O.
    destruct (assign_at_from prev (c :: l) 0) eqn:E0.
    + rewrite Nat.sub_diag. split; [lia |]. split; [exact E0 |]. intros k Hk; lia.
    + specialize (IH (Some c) (S i)).
      destruct (find_assign_from (Some c) (S i) l) as [j |].
      * destruct IH as (Hij & Hj & Hbefore). split; [lia |].
        replace (j - i) with (S (j - S i)) by lia. rewrite assign_at_from_S.
        split; [exact Hj |]. intros [| k] Hk; [exact E0 |].
        rewrite assign_at_from_S. apply Hbefore. lia.
      * intros [| k]; [exact E0 |]. rewrite assign_at_from_S. apply IH.
Qed.

(** X18: the assignment search of [FormulaBlock.evaluate] returns the first
    position where the pattern [(?<![<>=!])=(?![=])] matches, and nothing
    when it matches nowhere. *)
Theorem find_assign_first_match (s : string) :
  match find_assign s with
  | Some i => assign_at s i = true /\ forall k, k < i -> assign_at s k = false
  | None => forall k, assign_at s k = false
  end.
Proof.
  unfold find_assign, assign_at.
  pose proof (find_assign_from_spec (chars s) None 0) as H.
  destruct (find_assign_from None 0 (chars s)) as [j |]; [| exact H].
  rewrite Nat.sub_0_r in H. destruct H as (_ & H1 & H2). auto.
Qed.

(** ** [_parse_function_definition] and the assignment search *)

Lemma span_prefix p : forall l,
  forallb p (fst (span p l)) = true /\
  fst (span p l) ++ snd (span p l) = l /\
  match snd (span p l) with c :: _ => p c = false | [] => True end.
Proof.
  induction l as [| c l IH]; cbn [span].
  - repeat split.
  - destruct (p c) eqn:E.
    + destruct (span p l) as [a b]; cbn [fst snd] in *. destruct IH as (H1 & H2 & H3).
      cbn [forallb app]. rewrite E, H1, H2. repeat split; exact H3.
    + cbn. rewrite E. repeat split.
Qed.

(** X19: when [_parse_function_definition] returns [(name, params)],
    [name] and every parameter are identifiers and there is at least one
    parameter. *)
Theorem parse_function_definition_sound (lhs name : string) (params : list string) :
  parse_function_definition lhs = Some (name, params) ->
  is_identifier name = true /\ params <> [] /\ Forall (fun p => is_identifier p = true) params.
Proof.
  unfold parse_function_definition.
  destruct (chars (strip lhs)) as [| c cs] eqn:Ecs; [discriminate |].
  destruct (negb (is_ident_start c)) eqn:Ec; [discriminate |].
  pose proof (span_prefix is_ident_char (c :: cs)) as (Hall & _).
  cbn [span] in Hall |- *.
  assert (Hc : is_ident_char c = true).
  { apply negb_false_iff in Ec. unfold is_ident_char. rewrite Ec. reflexivity. }
  rewrite Hc in Hall |- *.
  destruct (span is_ident_char cs) as [a r] eqn:Es. cbn in Hall.
  destruct (drop_spaces r) as [| [] r'] ; try discriminate.
  repeat match goal with |- context [if ?b then _ else _] =>
    match b with
    | context [span] => fail 1
    | _ => destruct b; try discriminate
    end end.
  all: try discriminate.
  destruct (span _ r') as [inner after].
  destruct after as [| [] [|]]; try discriminate.
  all: repeat match goal with |- context [if ?b then _ else _] => destruct b eqn:?; try discriminate end.
  all: try discriminate.
  all: intros H; injection H as <- <-.
  all: match goal with |- _ /\ ?p <> [] /\ _ =>
         match goal with Ef : _ = true |- _ =>
           assert (Hf : forallb is_identifier p = true) by exact Ef end end.
  all: split; [| split; [discriminate | apply Forall_forall; intros x Hx; exact (proj1 (forallb_forall _ _) Hf x Hx)]].
  all: unfold is_identifier, of_chars, chars; cbn [list_ascii_of_string];
       rewrite list_ascii_of_string_of_list_ascii.
  all: apply negb_false_iff in Ec; rewrite Ec; rewrite Hc in Hall; exact Hall.
Qed.

Lemma chars_append (a b : string) : chars (a ++ b)%string = chars a ++ chars b.
Proof. induction a as [| c a IH]; cbn; [reflexivity | f_equal; exact IH]. Qed.

Lemma chars_of_chars l : chars (of_chars l) = l.
Proof. apply list_ascii_of_string_of_list_ascii. Qed.

Lemma of_chars_chars s : of_chars (chars s) = s.
Proof. apply string_of_list_ascii_of_string. Qed.

Lemma ident_char_facts x :
  is_ident_char x = true ->
  is_space x = false /\ Ascii.eqb x ","%char = false /\ Ascii.eqb x ")"%char = false.
Proof.
  destruct x as [[] [] [] [] [] [] [] []]; cbv; intros H;
    first [discriminate H | repeat split].
Qed.

Lemma drop_spaces_keep l :
  match l with c :: _ => is_space c = false | [] => True end -> drop_spaces l = l.
Proof. destruct l as [| c l]; cbn; [reflexivity |]. intros ->. reflexivity. Qed.

Lemma strip_of_chars c l l' d :
  is_space c = false -> is_space d = false -> c :: l = l' ++ [d] ->
  strip (of_chars (c :: l)) = of_chars (c :: l).
Proof.
  intros Hc Hd E. unfold strip. rewrite chars_of_chars.
  rewrite (drop_spaces_keep (c :: l)) by exact Hc. rewrite E, rev_unit.
  rewrite (drop_spaces_keep (d :: rev l')) by exact Hd. rewrite <- rev_unit, rev_involutive. reflexivity.
Qed.

Lemma identifier_chars p :
  is_identifier p = true ->
  exists c r, chars p = c :: r /\ Forall (fun x => is_ident_char x = true) (c :: r).
Proof.
  unfold is_identifier. destruct (chars p) as [| c r]; [discriminate |].
  intros H. apply andb_true_iff in H as [H1 H2]. exists c, r. split; [reflexivity |].
  constructor.
  - unfold is_ident_char. rewrite H1. reflexivity.
  - apply Forall_forall. intros x Hx. exact (proj1 (forallb_forall _ _) H2 x Hx).
Qed.

Lemma ends_ident l :
  l <> [] -> Forall (fun x => is_ident_char x = true) l ->
  exists l' d, l = l' ++ [d] /\ is_ident_char d = true.
Proof.
  intros Hne Hall. destruct (exists_last Hne) as (l' & d & E).
  exists l', d. split; [exact E |]. rewrite E in Hall.
  apply Forall_app in Hall as [_ Hd]. inversion Hd; assumption.
Qed.

Lemma chars_concat p ps : chars (String.concat ", " (p :: ps)) = chars p ++ rest_params ps.
Proof.
  revert p. induction ps as [| q ps IH]; intros p.
  - cbn [String.concat rest_params flat_map]. rewrite app_nil_r. reflexivity.
  - change (String.concat ", " (p :: q :: ps)) with (p ++ ", " ++ String.concat ", " (q :: ps))%string.
    rewrite !chars_append, IH. reflexivity.
Qed.

Lemma rest_params_chars ps :
  Forall (fun p => is_identifier p = true) ps -> Forall (fun x => param_char x = true) (rest_params ps).
Proof.
  induction 1 as [| q ps Hq _ IH]; cbn [rest_params flat_map]; [constructor |].
  constructor; [reflexivity |]. constructor; [reflexivity |].
  apply Forall_app. split; [| exact IH].
  destruct (identifier_chars q Hq) as (c & r & -> & Hall).
  eapply Forall_impl; [| exact Hall]. intros x Hx. unfold param_char. rewrite Hx. reflexivity.
Qed.

Lemma params_end p ps :
  is_identifier p = true -> Forall (fun q => is_identifier q = true) ps ->
  exists l' d, chars p ++ rest_params ps = l' ++ [d] /\ is_ident_char d = true.
Proof.
  revert p. induction ps as [| q ps IH]; intros p Hp Hps.
  - destruct (identifier_chars p Hp) as (c & r & E & Hall).
    rewrite app_nil_r, E. apply ends_ident; [discriminate | exact Hall].
  - inversion Hps as [| ? ? Hq Hps']; subst.
    destruct (IH q Hq Hps') as (l' & d & E & Hd).
    exists (chars p ++ ","%char :: " "%char :: l'), d. split; [| exact Hd].
    cbn [rest_params flat_map]. rewrite <- app_assoc. cbn [app].
    fold (rest_params ps). rewrite E. reflexivity.
Qed.

Lemma split_on_nonempty sep l : split_on sep l <> [].
Proof.
  destruct l as [| c l]; cbn; [discriminate |].
  destruct (Ascii.eqb c sep); [discriminate |]. destruct (split_on sep l); discriminate.
Qed.

Lemma split_on_prefix h rest :
  Forall (fun x => Ascii.eqb x ","%char = false) h ->
  split_on ","%char (h ++ rest) =
  match split_on ","%char rest with w :: ws => (h ++ w) :: ws | [] => [h] end.
Proof.
  induction 1 as [| x h Hx _ IH]; cbn [app].
  - destruct (split_on "," rest) eqn:E; [exfalso; exact (split_on_nonempty _ _ E) | reflexivity].
  - cbn [split_on]. rewrite Hx, IH. destruct (split_on "," rest); reflexivity.
Qed.

Lemma split_on_params h ps :
  Forall (fun x => Ascii.eqb x ","%char = false) h ->
  Forall (fun p => is_identifier p = true) ps ->
  split_on ","%char (h ++ rest_params ps) = h :: map (fun q => " "%char :: chars q) ps.
Proof.
  intros Hh Hps. revert h Hh. induction Hps as [| q ps Hq _ IH]; intros h Hh.
  - cbn [rest_params flat_map map]. rewrite split_on_prefix by exact Hh.
    cbn. rewrite app_nil_r. reflexivity.
  - cbn [rest_params flat_map]. rewrite split_on_prefix by exact Hh.
    cbn [split_on Ascii.eqb]. cbn -[rest_params].
    fold (rest_params ps). rewrite app_nil_r.
    change (" "%char :: chars q ++ rest_params ps) with ((" "%char :: chars q) ++ rest_params ps).
    rewrite IH; [reflexivity |].
    destruct (identifier_chars q Hq) as (c & r & -> & Hall).
    eapply Forall_impl; [| exact Hall].
    intros x Hx. apply ident_char_facts in Hx. apply Hx.
Qed.

Lemma strip_identifier p : is_identifier p = true -> strip (of_chars (chars p)) = p.
Proof.
  intros Hp. destruct (identifier_chars p Hp) as (c & r & E & Hall). rewrite E.
  destruct (ends_ident (c :: r) ltac:(discriminate) Hall) as (l' & d & E' & Hd).
  rewrite (strip_of_chars c r l' d); [rewrite <- E; apply of_chars_chars | | | exact E'].
  - inversion Hall; subst. apply ident_char_facts. assumption.
  - apply ident_char_facts. exact Hd.
Qed.

Lemma strip_space_identifier q : is_identifier q = true -> strip (of_chars (" "%char :: chars q)) = q.
Proof.
  intros Hq. rewrite <- (strip_identifier q Hq) at 2.
  unfold strip. rewrite !chars_of_chars. reflexivity.
Qed.

Lemma span_app p a b :
  forallb p a = true -> match b with c :: _ => p c = false | [] => True end ->
  span p (a ++ b) = (a, b).
Proof.
  intros Ha Hb. induction a as [| x a IH]; cbn [app span].
  - destruct b as [| c b]; [reflexivity |]. cbn. rewrite Hb. reflexivity.
  - cbn in Ha. apply andb_true_iff in Ha as [Hx Ha]. rewrite Hx, IH by exact Ha. reflexivity.
Qed.

(** X20: [_parse_function_definition] reads back the header
    [name(p1, p2, ...)] written from an identifier and a non-empty list of
    identifiers, as that name and list. *)
Theorem parse_function_header (name : string) (params : list string) :
  is_identifier name = true -> params <> [] ->
  Forall (fun p => is_identifier p = true) params ->
  parse_function_definition (function_header name params) = Some (name, params).
Proof.
  intros Hn Hne Hps. destruct params as [| p ps]; [congruence |].
  inversion Hps as [| ? ? Hp Hps']; subst.
  destruct (identifier_chars name Hn) as (c & r & Ec & Hnall).
  destruct (params_end p ps Hp Hps') as (l' & d & Eend & Hd).
  destruct (identifier_chars p Hp) as (cp & rp & Ep & Hpall).
  set (inner := chars p ++ rest_params ps) in *.
  assert (Hinner : chars (String.concat ", " (p :: ps)) = inner) by apply chars_concat.
  assert (Hhdr : chars (function_header name (p :: ps)) = c :: r ++ "("%char :: inner ++ [")"%char]).
  { unfold function_header. rewrite !chars_append, Hinner, Ec. reflexivity. }
  (* [str.strip()] leaves the header as it is *)
  assert (Hstrip : chars (strip (function_header name (p :: ps))) = c :: r ++ "("%char :: inner ++ [")"%char]).
  { rewrite <- (of_chars_chars (function_header name (p :: ps))), Hhdr.
    rewrite (strip_of_chars c (r ++ "("%char :: inner ++ [")"%char]) (c :: r ++ "("%char :: inner) ")"%char).
    - apply chars_of_chars.
    - inversion Hnall; subst. apply ident_char_facts. assumption.
    - reflexivity.
    - cbn [app]. rewrite <- app_assoc. reflexivity. }
  unfold parse_function_definition. rewrite Hstrip.
  inversion Hnall as [| ? ? Hc Hr]; subst.
  assert (Hcs : is_ident_start c = true).
  { unfold is_identifier in Hn. rewrite Ec in Hn. apply andb_true_iff in Hn. apply Hn. }
  rewrite Hcs. cbn [negb].
  change (c :: r ++ "("%char :: inner ++ [")"%char]) with ((c :: r) ++ "("%char :: inner ++ [")"%char]).
  rewrite span_app.
  2: { apply forallb_forall. apply Forall_forall. exact Hnall. }
  2: { reflexivity. }
  rewrite (drop_spaces_keep ("("%char :: inner ++ [")"%char])) by reflexivity.
  assert (Hpc : Forall (fun x => param_char x = true) inner).
  { unfold inner. apply Forall_app. split; [| apply rest_params_chars; exact Hps'].
    rewrite Ep. eapply Forall_impl; [| exact Hpall]. intros x Hx. unfold param_char. rewrite Hx. reflexivity. }
  rewrite span_app.
  2: { apply forallb_forall. apply Forall_forall. eapply Forall_impl; [| exact Hpc].
       intros x Hx. destruct x as [[] [] [] [] [] [] [] []]; cbv in Hx |- *; first [discriminate Hx | reflexivity]. }
  2: { reflexivity. }
  (* [params_str] is the parameter list as written *)
  assert (Hps_str : strip (of_chars inner) = String.concat ", " (p :: ps)).
  { unfold inner in Eend |- *. rewrite Ep in Eend |- *. cbn [app] in Eend |- *.
    rewrite (strip_of_chars cp (rp ++ rest_params ps) l' d).
    - change (cp :: rp ++ rest_params ps) with ((cp :: rp) ++ rest_params ps). rewrite <- Ep, <- chars_concat. apply of_chars_chars.
    - inversion Hpall; subst. apply ident_char_facts. assumption.
    - apply ident_char_facts. exact Hd.
    - exact Eend. }
  rewrite Hps_str.
  replace (String.eqb (String.concat ", " (p :: ps)) "") with false.
  2: { symmetry. apply String.eqb_neq. intros E. rewrite E in Hinner. unfold inner in Hinner.
       rewrite Ep in Hinner. discriminate. }
  rewrite Hinner. unfold inner. rewrite split_on_params.
  2: { rewrite Ep. eapply Forall_impl; [| exact Hpall]. intros x Hx. apply ident_char_facts in Hx. apply Hx. }
  2: { exact Hps'. }
  cbn [map]. rewrite strip_identifier by exact Hp.
  rewrite map_map.
  rewrite (map_ext_in _ (fun q => q)).
  2: { intros q Hq. apply strip_space_identifier. rewrite Forall_forall in Hps'. apply Hps'. exact Hq. }
  rewrite map_id.
  assert (Hne_all : forall q, is_identifier q = true -> negb (String.eqb q "") = true).
  { intros q Hq. apply negb_true_iff, String.eqb_neq. intros ->. discriminate. }
  cbn [filter]. rewrite Hne_all by exact Hp.
  rewrite forallb_filter_id.
  2: { apply forallb_forall. intros q Hq. apply Hne_all.
       rewrite Forall_forall in Hps'. apply Hps'. exact Hq. }
  replace (forallb is_identifier (p :: ps)) with true.
  2: { symmetry. apply forallb_forall. apply Forall_forall. exact Hps. }
  rewrite <- Ec, of_chars_chars. reflexivity.
Qed.

Lemma filter_iim l : filter not_star (insert_implicit_mul l) = filter not_star l.
Proof.
  induction l as [| c [| d l] IH]; [reflexivity | reflexivity |].
  change (insert_implicit_mul (c :: d :: l)) with
    (if is_digit c && (is_alpha d || Ascii.eqb d "(") then c :: "*"%char :: insert_implicit_mul (d :: l)
     else c :: insert_implicit_mul (d :: l)).
  destruct (is_digit c && _); cbn [filter]; destruct (not_star c); cbn [filter not_star Ascii.eqb negb];
    rewrite IH; reflexivity.
Qed.

Lemma join_parens_cons c l :
  join_parens (c :: l) =
  if Ascii.eqb c ")"%char then
    match l with
    | d :: _ => if Ascii.eqb d "("%char then ")"%char :: "*"%char :: join_parens l else c :: join_parens l
    | [] => c :: join_parens l
    end
  else c :: join_parens l.
Proof.
  destruct c as [[] [] [] [] [] [] [] []]; try reflexivity.
  destruct l as [| d l]; [reflexivity |].
  destruct d as [[] [] [] [] [] [] [] []]; reflexivity.
Qed.

Lemma filter_join_parens l : filter not_star (join_parens l) = filter not_star l.
Proof.
  induction l as [| c l IH]; [reflexivity |].
  rewrite join_parens_cons.
  destruct (Ascii.eqb c ")") eqn:Ec.
  - apply Ascii.eqb_eq in Ec; subst c.
    destruct l as [| d r]; [reflexivity |].
    destruct (Ascii.eqb d "(") eqn:Ed; cbn [filter]; simpl not_star; cbv iota; rewrite IH; reflexivity.
  - cbn [filter]. destruct (not_star c); rewrite IH; reflexivity.
Qed.

(** X21: [_normalize_expression] changes nothing but multiplication signs:
    deleting every [*] from its input and from its output gives the same
    text. *)
Theorem normalize_expression_only_stars (s : string) :
  filter not_star (chars (normalize_expression s)) = filter not_star (chars s).
Proof.
  unfold normalize_expression. rewrite chars_of_chars, filter_join_parens, filter_iim. reflexivity.
Qed.

(** ** One evaluation and what it adds *)

(** X1: [FormulaBlock.evaluate] keeps the block's id, appends exactly one
    entry to the run log, carrying the block's id and its stripped text,
    and appends to the error list only entries that carry the block's id;
    the earlier log and error entries are left as they were. *)
Theorem evaluate_log_and_errors (o : NotebookOptions) (dur : Q) (f : formula) (c : EvaluationContext) :
  let '(f', c') := evaluate o dur f c in
  block_id f' = block_id f /\
  (exists e, logs c' = logs c ++ [e] /\ log_key e = (block_id f, strip (raw f))) /\
  (exists es, errors c' = errors c ++ es /\ Forall (fun e => err_block_id e = block_id f) es).
Proof.
  pose proof (evaluate_appends o dur f c) as H.
  destruct (evaluate o dur f c) as [f' c']. destruct H as (H1 & [subs H2] & H3).
  split; [exact H1 |]. split; [| exact H3].
  eexists; split; [exact H2 | reflexivity].
Qed.

(** ** [notebook.units.linspace] *)

(** X22: [linspace(start, stop, num)] returns [num] values, and none when
    [num <= 0]. *)
Theorem linspace_length (start stop : Q) (num : Z) :
  List.length (linspace start stop num) = Z.to_nat num.
Proof.
  unfold linspace.
  destruct (Z.leb num 0) eqn:E0; [apply Z.leb_le in E0; cbn; lia |].
  destruct (Z.eqb num 1) eqn:E1; [apply Z.eqb_eq in E1; subst; reflexivity |].
  rewrite length_map, length_seq. reflexivity.
Qed.

(** ** Edits and redo *)

(** X13: after an edit that succeeds ([add_block], or [insert_block],
    [delete_block], [move_block] returning [True]) the redo stack is empty:
    [redo()] returns [False] and changes nothing. *)
Theorem redo_after_edit (e : edit_op) (d d' : Document) :
  run_edit e d = (true, d') -> redo d' = (false, d').
Proof.
  intros H. destruct (run_edit_true e d d' H) as [_ Hr].
  unfold redo. rewrite Hr. reflexivity.
Qed.

(** ** Witnesses *)

Lemma move_block_moves_witness :
  (0 <= 0 < Z.of_nat (List.length (blocks edit_doc)))%Z /\
  0%Z <> Z.max 0 (Z.min (Z.of_nat (List.length (blocks edit_doc)) - 1) 7) /\
  (let '(ok, d') := move_block 0 7 edit_doc in
   ok = true /\
   nth_error (blocks d') (Z.to_nat (Z.max 0 (Z.min (Z.of_nat (List.length (blocks edit_doc)) - 1) 7)))
     = nth_error (blocks edit_doc) (Z.to_nat 0) /\
   list_remove (Z.to_nat (Z.max 0 (Z.min (Z.of_nat (List.length (blocks edit_doc)) - 1) 7))) (blocks d')
     = list_remove (Z.to_nat 0) (blocks edit_doc) /\
   Permutation (blocks edit_doc) (blocks d') /\
   undo_stack d' = undo_stack (push_history edit_doc) /\ redo_stack d' = []).
Proof.
  assert (H1 : (0 <= 0 < Z.of_nat (List.length (blocks edit_doc)))%Z) by (simpl; lia).
  assert (H2 : 0%Z <> Z.max 0 (Z.min (Z.of_nat (List.length (blocks edit_doc)) - 1) 7)) by (simpl; lia).
  split; [exact H1 |]. split; [exact H2 |].
  exact (move_block_moves 0 7 edit_doc H1 H2).
Defined.

Lemma move_block_round_trip_witness :
  (0 <= 0 < Z.of_nat (List.length (blocks edit_doc)))%Z /\
  (0 <= 2 < Z.of_nat (List.length (blocks edit_doc)))%Z /\ 0%Z <> 2%Z /\
  blocks (snd (move_block 2 0 (snd (move_block 0 2 edit_doc)))) = blocks edit_doc.
Proof.
  assert (H1 : (0 <= 0 < Z.of_nat (List.length (blocks edit_doc)))%Z) by (simpl; lia).
  assert (H2 : (0 <= 2 < Z.of_nat (List.length (blocks edit_doc)))%Z) by (simpl; lia).
  assert (H3 : 0%Z <> 2%Z) by lia.
  split; [exact H1 |]. split; [exact H2 |]. split; [exact H3 |].
  exact (move_block_round_trip 0 2 edit_doc H1 H2 H3).
Defined.

Lemma delete_block_round_trip_witness :
  (0 <= 1 < Z.of_nat (List.length (blocks edit_doc)))%Z /\
  (let '(ok, d') := delete_block 1 edit_doc in
   ok = true /\ List.length (blocks d') = List.length (blocks edit_doc) - 1 /\
   exists b, nth_error (blocks edit_doc) (Z.to_nat 1) = Some b /\
             blocks (snd (insert_block 1 b d')) = blocks edit_doc).
Proof.
  assert (H : (0 <= 1 < Z.of_nat (List.length (blocks edit_doc)))%Z) by (simpl; lia).
  split; [exact H |]. exact (delete_block_round_trip 1 edit_doc H).
Defined.

Lemma insert_block_round_trip_witness :
  (0 <= 3 <= Z.of_nat (List.length (blocks edit_doc)))%Z /\
  (let '(ok, d') := insert_block 3 (TextBlock "end" "b4") edit_doc in
   ok = true /\ nth_error (blocks d') (Z.to_nat 3) = Some (TextBlock "end" "b4") /\
   List.length (blocks d') = S (List.length (blocks edit_doc)) /\
   blocks (snd (delete_block 3 d')) = blocks edit_doc).
Proof.
  assert (H : (0 <= 3 <= Z.of_nat (List.length (blocks edit_doc)))%Z) by (simpl; lia).
  split; [exact H |]. exact (insert_block_round_trip 3 (TextBlock "end" "b4") edit_doc H).
Defined.

Lemma edit_failure_unchanged_witness :
  fst (run_edit (EDelete 3) edit_doc) = false /\ snd (run_edit (EDelete 3) edit_doc) = edit_doc.
Proof.
  assert (H : fst (run_edit (EDelete 3) edit_doc) = false) by reflexivity.
  split; [exact H |]. exact (edit_failure_unchanged (EDelete 3) edit_doc H).
Defined.

Lemma undo_after_edit_witness :
  run_edit (EMove 0 2) edit_doc = (true, snd (move_block 0 2 edit_doc)) /\
  (let '(ok, d'') := undo (snd (move_block 0 2 edit_doc)) in
   ok = true /\ blocks d'' = snapshot (blocks edit_doc) /\
   redo_stack d'' = [snapshot (blocks (snd (move_block 0 2 edit_doc)))] /\
   (List.length (undo_stack edit_doc) < HISTORY_LIMIT -> undo_stack d'' = undo_stack edit_doc) /\
   redo d'' = (true, mkDocument (snapshot (blocks (snd (move_block 0 2 edit_doc))))
                                (undo_stack d'' ++ [snapshot (snapshot (blocks edit_doc))]) [])).
Proof.
  assert (H : run_edit (EMove 0 2) edit_doc = (true, snd (move_block 0 2 edit_doc))) by reflexivity.
  split; [exact H |]. exact (undo_after_edit (EMove 0 2) edit_doc _ H).
Defined.

Lemma redo_after_edit_witness :
  run_edit (EAdd (TextBlock "end" "b4")) edit_doc = (true, add_block (TextBlock "end" "b4") edit_doc) /\
  redo (add_block (TextBlock "end" "b4") edit_doc) = (false, add_block (TextBlock "end" "b4") edit_doc).
Proof.
  assert (H : run_edit (EAdd (TextBlock "end" "b4")) edit_doc
              = (true, add_block (TextBlock "end" "b4") edit_doc)) by reflexivity.
  split; [exact H |]. exact (redo_after_edit (EAdd (TextBlock "end" "b4")) edit_doc _ H).
Defined.

Lemma history_bound_kept_witness :
  List.length (undo_stack edit_doc) + List.length (redo_stack edit_doc) <= HISTORY_LIMIT /\
  List.length (undo_stack (run_doc_ops edit_session edit_doc)) +
  List.length (redo_stack (run_doc_ops edit_session edit_doc)) <= HISTORY_LIMIT.
Proof.
  assert (H : List.length (undo_stack edit_doc) + List.length (redo_stack edit_doc) <= HISTORY_LIMIT)
    by (simpl; lia).
  split; [exact H |]. exact (history_bound_kept edit_session edit_doc H).
Defined.

Lemma undo_then_redo_witness :
  undo_stack (add_block (TextBlock "end" "b4") edit_doc) = [] ++ [snapshot (blocks edit_doc)] /\
  redo (snd (undo (add_block (TextBlock "end" "b4") edit_doc))) =
  (true, mkDocument (snapshot (blocks (add_block (TextBlock "end" "b4") edit_doc)))
                    ([] ++ [snapshot (snapshot (blocks edit_doc))])
                    (redo_stack (add_block (TextBlock "end" "b4") edit_doc))).
Proof.
  assert (H : undo_stack (add_block (TextBlock "end" "b4") edit_doc) = [] ++ [snapshot (blocks edit_doc)])
    by reflexivity.
  split; [exact H |].
  exact (undo_then_redo (add_block (TextBlock "end" "b4") edit_doc) [] (snapshot (blocks edit_doc)) H).
Defined.

Lemma redo_then_undo_witness :
  redo_stack undone_doc = [] ++ [snapshot (blocks (add_block (TextBlock "end" "b4") edit_doc))] /\
  undo (snd (redo undone_doc)) =
  (true, mkDocument (snapshot (blocks undone_doc)) (undo_stack undone_doc)
                    ([] ++ [snapshot (snapshot (blocks (add_block (TextBlock "end" "b4") edit_doc)))])).
Proof.
  assert (H : redo_stack undone_doc = [] ++ [snapshot (blocks (add_block (TextBlock "end" "b4") edit_doc))])
    by reflexivity.
  split; [exact H |].
  exact (redo_then_undo undone_doc [] (snapshot (blocks (add_block (TextBlock "end" "b4") edit_doc))) H).
Defined.

Lemma parse_function_definition_sound_witness :
  parse_function_definition " g(x, y) " = Some ("g", ["x"; "y"]) /\
  is_identifier "g" = true /\ ["x"; "y"] <> [] /\ Forall (fun p => is_identifier p = true) ["x"; "y"].
Proof.
  assert (H : parse_function_definition " g(x, y) " = Some ("g", ["x"; "y"])) by (vm_compute; reflexivity).
  split; [exact H |]. exact (parse_function_definition_sound " g(x, y) " "g" ["x"; "y"] H).
Defined.

Lemma parse_function_header_witness :
  is_identifier "area" = true /\ ["b"; "h_1"] <> [] /\
  Forall (fun p => is_identifier p = true) ["b"; "h_1"] /\
  parse_function_definition (function_header "area" ["b"; "h_1"]) = Some ("area", ["b"; "h_1"]).
Proof.
  assert (H1 : is_identifier "area" = true) by reflexivity.
  assert (H2 : ["b"; "h_1"] <> []) by discriminate.
  assert (H3 : Forall (fun p => is_identifier p = true) ["b"; "h_1"])
    by (repeat constructor).
  split; [exact H1 |]. split; [exact H2 |]. split; [exact H3 |].
  exact (parse_function_header "area" ["b"; "h_1"] H1 H2 H3).
Defined.
